(** * bottleRocketViz: the simulation core of [src/BottleRocketSim.jsx]

    A shallow embedding of the four functions that make up the numerical
    core of the visualiser -- [rk4Step], [rocketODEs], [runSimulation] and
    [findOptimal] -- over Rocq's primitive binary64 floats, which are the
    JavaScript Number type bit for bit for [+ - * /], comparison and
    [Math.sqrt]; and of what the component [BottleRocketSim] computes from
    their results before it draws: the runs to compare, the scales and the
    path of the trajectory plot, the coordinates of the fill-ratio curve.

    [Math.pow] (and the [**] operator) is the one host function ECMAScript
    leaves "implementation-approximated".  The program is therefore embedded
    inside a section that takes it as a variable, and the general theorems
    hold for every host [Math.pow] -- those on mass and water volume for
    every one that makes the nozzle area non-negative.  Concrete runs are
    evaluated with [pow_ref], a reference implementation defined below.
    The conversion of a number to a string is a variable of [pathD] in the
    same way. *)

From Stdlib Require Import ZArith List Bool Lia PeanoNat Sorted.
From Stdlib Require Import Floats.
From Stdlib Require Uint63.
From Stdlib Require String.
Import ListNotations.

Set Warnings "-inexact-float,-abstract-large-number".
Local Open Scope float_scope.

(** ** JavaScript numbers and the [Math] built-ins the program uses *)

Module JS.

(** 2^52: from here on every binary64 value is an integer. *)
Definition two52 : float := 4503599627370496.

(** [Math.floor]: the largest integer not above [x]; NaN, the infinities
    and both zeros are returned as they are.  Below 2^52 the nearest integer
    is obtained by adding and removing 2^52 and is then corrected
    downwards. *)
Definition Math_floor (x : float) : float :=
  if abs x <? two52 then
    if x =? 0 then x
    else
      let r := if 0 <? x then (x + two52) - two52 else (x - two52) + two52 in
      if x <? r then r - 1 else r
  else x.

(** [Math.max] of two arguments: NaN if either is NaN, and [+0] above [-0]. *)
Definition Math_max (a b : float) : float :=
  if is_nan a || is_nan b then nan
  else if a <? b then b
  else if b <? a then a
  else if get_sign a then b else a.

Definition Math_abs (x : float) : float := abs x.
Definition Math_sqrt (x : float) : float := sqrt x.
Definition Math_PI : float := 3.141592653589793.

(** An array of numbers.  Reading past the end yields [undefined], which
    every arithmetic operator and comparison of the program turns into
    NaN. *)
Definition idx (a : list float) (i : nat) : float := nth i a nan.

(** [a.map((x, i) => f(x, i))]. *)
Fixpoint map_from {A B : Type} (f : A -> nat -> B) (i : nat) (a : list A) : list B :=
  match a with
  | [] => []
  | x :: a' => f x i :: map_from f (S i) a'
  end.

Definition map_index {A B : Type} (f : A -> nat -> B) (a : list A) : list B :=
  map_from f 0 a.

(** The integer value of a float that holds an integer (0 otherwise). *)
Definition to_Z (x : float) : Z :=
  match Prim2SF x with
  | S754_finite s m e => cond_Zopp s (Z.shiftl (Zpos m) e)
  | _ => 0%Z
  end.

Definition of_Z (z : Z) : float :=
  match z with
  | Z0 => 0
  | Zpos _ => of_uint63 (Uint63.of_Z z)
  | Zneg p => - of_uint63 (Uint63.of_Z (Zpos p))
  end.

End JS.
Export JS.

(** ** A reference [Math.pow]

    ECMAScript fixes the special cases of [Math.pow] and leaves the generic
    case to the host.  The program raises to the constant exponents 2, 4
    and 1.4 only.  [pow_ref] computes integer exponents up to 64 by repeated
    multiplication, follows ECMAScript on NaN, zero, infinite and negative
    bases for the other finite exponents, and computes the generic case as
    [exp (y * ln x)]. *)

Module PowRef.

Definition ln2_hi : float := 0.6931471803691238.
Definition ln2_lo : float := 1.9082149292705877e-10.
Definition ln2 : float := 0.6931471805599453.
Definition sqrt_half : float := 0.7071067811865476.

(** Horner evaluation of [c0 + x (c1 + x (c2 + ...))]. *)
Fixpoint horner (cs : list float) (x : float) : float :=
  match cs with
  | [] => 0
  | c :: cs' => c + x * horner cs' x
  end.

(** [ln x] for finite [x > 0]: [x = m 2^e] with [m] near 1, and
    [ln m = 2 atanh ((m-1)/(m+1))]. *)
Definition ln (x : float) : float :=
  let (m0, e0) := FloatOps.Z.frexp x in
  let (m, e) := if m0 <? sqrt_half then (m0 * 2, (e0 - 1)%Z) else (m0, e0) in
  let s := (m - 1) / (m + 1) in
  let p := horner [1; 1/3; 1/5; 1/7; 1/9; 1/11; 1/13; 1/15; 1/17; 1/19; 1/21; 1/23; 1/25]
                  (s * s) in
  (JS.of_Z e * ln2_hi) + (2 * s * p + JS.of_Z e * ln2_lo).

Fixpoint inv_factorials (n : nat) (k : float) (acc : float) : list float :=
  match n with
  | O => []
  | S n' => acc :: inv_factorials n' (k + 1) (acc / (k + 1))
  end.

(** [exp z]: [z = k ln 2 + r] with [|r| <= ln 2 / 2], a Taylor polynomial
    in [r], and a final scaling by [2^k]. *)
Definition exp (z : float) : float :=
  if is_nan z then nan
  else if 710 <? z then infinity
  else if z <? -746 then 0
  else
    let k := Math_floor (z / ln2 + 0.5) in
    let r := (z - k * ln2_hi) - k * ln2_lo in
    let p := horner (inv_factorials 22 0 1) r in
    FloatOps.Z.ldexp p (JS.to_Z k).

Fixpoint pow_nat (x : float) (n : nat) : float :=
  match n with
  | O => 1
  | S n' => x * pow_nat x n'
  end.

Definition is_small_nat (y : float) : bool :=
  (0 <=? y) && (y <=? 64) && (Math_floor y =? y).

End PowRef.

Definition pow_ref (x y : float) : float :=
  if is_nan y then nan
  else if y =? 0 then 1
  else if is_nan x then nan
  else if PowRef.is_small_nat y then PowRef.pow_nat x (Z.to_nat (JS.to_Z y))
  else if x =? neg_infinity then (if 0 <? y then infinity else 0)
  else if x <? 0 then nan
  else if x =? 0 then (if 0 <? y then 0 else infinity)
  else if x =? infinity then (if 0 <? y then infinity else 0)
  else PowRef.exp (y * PowRef.ln x).

(** ** The program *)

Record Params := { V_air_0 : float; C_d : float; P_0_abs : float }.

Record Sample := { smp_t : float; smp_h : float; smp_v : float }.

(** What [runSimulation] returns. *)
Record SimulationResult := {
  trajectory : list Sample;
  maxH : float;
  maxHTime : float;
  burnoutTime : option float;
  burnoutAlt : option float;
  burnoutVel : option float
}.

(** The local variables of [runSimulation] at the head of its loop. *)
Record SimState := {
  sim_y : list float;
  sim_t : float;
  sim_res : SimulationResult
}.

Record GridPoint := { ratio : float; gp_maxH : float }.

Record OptimizationResult := {
  bestRatio : float;
  bestH : float;
  data : list GridPoint
}.

(** The local variables of [findOptimal] at the head of its loop. *)
Record OptState := {
  opt_r : float;
  opt_best : OptimizationResult
}.

Module CONSTANTS.
Definition g : float := 9.81.
Definition rho_air : float := 1.225.
Definition rho_water : float := 1000.
Definition P_atm : float := 101325.
Definition gamma : float := 1.4.
Definition tank_volume : float := 8e-4.
Definition d_bottle : float := 0.075.
Definition d_nozzle : float := 0.026.
Definition mass_empty : float := 0.0765.
End CONSTANTS.

(** [rk4Step] knows nothing of the rocket: it is generic in the derivative
    function and in the type of the parameter bundle. *)
Definition rk4Step {P : Type} (odes : float -> list float -> P -> list float)
    (t : float) (y : list float) (dt : float) (params : P) : list float :=
  let k1 := odes t y params in
  let k2 := odes (t + dt / 2) (map_index (fun yi i => yi + dt / 2 * idx k1 i) y) params in
  let k3 := odes (t + dt / 2) (map_index (fun yi i => yi + dt / 2 * idx k2 i) y) params in
  let k4 := odes (t + dt) (map_index (fun yi i => yi + dt * idx k3 i) y) params in
  map_index (fun yi i => yi + dt / 6 * (idx k1 i + 2 * idx k2 i + 2 * idx k3 i + idx k4 i)) y.

(** The integration step and the two loop bounds of the program. *)
Definition dt : float := 0.002.
Definition t_max : float := 15.
Definition r_first : float := 0.05.
Definition r_last : float := 0.95.
Definition r_step : float := 0.02.
Definition bestRatio_default : float := 0.33.

(** Iterations granted to the two loops; [simulate_returns] and
    [findOptimal_returns] show that they are never used up. *)
Definition sim_fuel : nat := 75 * 100 + 1.
Definition opt_fuel : nat := 46.

Section Host.

(** The host's [Math.pow], also behind the [**] operator. *)
Variable Math_pow : float -> float -> float.

Definition A_bottle : float := Math_PI * Math_pow (CONSTANTS.d_bottle / 2) 2.
Definition A_nozzle : float := Math_PI * Math_pow (CONSTANTS.d_nozzle / 2) 2.

(** [y = [v, h, m, V_water]]; the time argument is not used. *)
Definition rocketODEs (t : float) (y : list float) (params : Params) : list float :=
  let v := idx y 0 in
  let m := idx y 2 in
  let V_water := idx y 3 in
  let drag_accel :=
    -0.5 * CONSTANTS.rho_air * C_d params * A_bottle * v * Math_abs v / m in
  if V_water <=? 0 then [- CONSTANTS.g + drag_accel; v; 0; 0]
  else
    let V_air := CONSTANTS.tank_volume - V_water in
    let P_1 := P_0_abs params * Math_pow (V_air_0 params / V_air) CONSTANTS.gamma in
    let delta_P := P_1 - CONSTANTS.P_atm in
    if delta_P <=? 0 then [- CONSTANTS.g + drag_accel; v; 0; 0]
    else
      let denom :=
        CONSTANTS.rho_water * (1 - Math_pow (CONSTANTS.d_nozzle / CONSTANTS.d_bottle) 4) in
      let v_e := Math_sqrt (2 * delta_P / denom) in
      let dV_water_dt := - A_nozzle * v_e in
      let dm_dt := CONSTANTS.rho_water * dV_water_dt in
      let thrust_accel := (CONSTANTS.rho_water * A_nozzle * v_e * v_e) / m in
      let dv_dt := thrust_accel - CONSTANTS.g + drag_accel in
      [dv_dt; v; dm_dt; dV_water_dt].

Section Run.

Variables fillRatio dragCoefficient pressurePSI : float.

Definition V_water_0 : float := fillRatio * CONSTANTS.tank_volume.

Definition params : Params :=
  {| V_air_0 := CONSTANTS.tank_volume - V_water_0;
     C_d := dragCoefficient;
     P_0_abs := pressurePSI * 6894.76 + CONSTANTS.P_atm |}.

Definition m_0 : float := CONSTANTS.mass_empty + CONSTANTS.rho_water * V_water_0.

Definition sim_init : SimState :=
  {| sim_y := [0; 0; m_0; V_water_0];
     sim_t := 0;
     sim_res := {| trajectory := [ {| smp_t := 0; smp_h := 0; smp_v := 0 |} ];
                   maxH := 0; maxHTime := 0;
                   burnoutTime := None; burnoutAlt := None; burnoutVel := None |} |}.

(** [t < 15 && y[1] >= 0] *)
Definition sim_cond (s : SimState) : bool :=
  (sim_t s <? t_max) && (0 <=? idx (sim_y s) 1).

(** One pass through the body of the [while] loop. *)
Definition sim_body (s : SimState) : SimState :=
  let y := rk4Step rocketODEs (sim_t s) (sim_y s) dt params in
  let t := sim_t s + dt in
  let r := sim_res s in
  let burnout :=
    match burnoutTime r with
    | None =>
        if idx y 3 <=? 0 then (Some t, Some (idx y 1), Some (idx y 0))
        else (None, burnoutAlt r, burnoutVel r)
    | Some _ => (burnoutTime r, burnoutAlt r, burnoutVel r)
    end in
  let apogee :=
    if maxH r <? idx y 1 then (idx y 1, t) else (maxH r, maxHTime r) in
  let traj :=
    if Math_floor ((t - dt) * 200) <? Math_floor (t * 200)
    then trajectory r ++ [ {| smp_t := t; smp_h := Math_max 0 (idx y 1); smp_v := idx y 0 |} ]
    else trajectory r in
  {| sim_y := y;
     sim_t := t;
     sim_res := {| trajectory := traj;
                   maxH := fst apogee; maxHTime := snd apogee;
                   burnoutTime := fst (fst burnout);
                   burnoutAlt := snd (fst burnout);
                   burnoutVel := snd burnout |} |}.

(** The [while] loop; [None] when the fuel runs out. *)
Fixpoint sim_loop (fuel : nat) (s : SimState) : option SimState :=
  match fuel with
  | O => None
  | S fuel' => if sim_cond s then sim_loop fuel' (sim_body s) else Some s
  end.

(** The locals of [runSimulation] when its loop is left. *)
Definition simulate : option SimState := sim_loop sim_fuel sim_init.

Definition runSimulation : option SimulationResult := option_map sim_res simulate.

(** The locals after [k] passes through the body, whatever the guard
    says: the run is the prefix of this sequence up to the first state
    that fails the guard. *)
Definition stateAfter (k : nat) : SimState := Nat.iter k sim_body sim_init.

End Run.

Section Sweep.

Variables dragCoefficient pressurePSI : float.

Definition opt_init : OptState :=
  {| opt_r := r_first;
     opt_best := {| bestRatio := bestRatio_default; bestH := 0; data := [] |} |}.

(** One pass through the body of the [for] loop, increment included. *)
Definition opt_body (s : OptState) : option OptState :=
  match runSimulation (opt_r s) dragCoefficient pressurePSI with
  | None => None
  | Some res =>
      let b := opt_best s in
      let h := maxH res in
      let d := data b ++ [ {| ratio := opt_r s; gp_maxH := h |} ] in
      let best := if bestH b <? h then (h, opt_r s) else (bestH b, bestRatio b) in
      Some {| opt_r := opt_r s + r_step;
              opt_best := {| bestRatio := snd best; bestH := fst best; data := d |} |}
  end.

Fixpoint opt_loop (fuel : nat) (s : OptState) : option OptState :=
  match fuel with
  | O => None
  | S fuel' =>
      if opt_r s <=? r_last then
        match opt_body s with
        | None => None
        | Some s' => opt_loop fuel' s'
        end
      else Some s
  end.

Definition findOptimal : option OptimizationResult :=
  option_map opt_best (opt_loop opt_fuel opt_init).

End Sweep.

End Host.

(** Components of the state vector. *)
Definition velocity (s : SimState) : float := idx (sim_y s) 0.
Definition altitude (s : SimState) : float := idx (sim_y s) 1.
Definition mass (s : SimState) : float := idx (sim_y s) 2.
Definition waterVolume (s : SimState) : float := idx (sim_y s) 3.

(** The two accelerations [rocketODEs] computes on its way: the drag on the
    bottle, and the thrust of the jet that leaves at speed [v_e]. *)
Definition drag_accel (Math_pow : float -> float -> float)
    (y : list float) (params : Params) : float :=
  -0.5 * CONSTANTS.rho_air * C_d params * A_bottle Math_pow * idx y 0 * Math_abs (idx y 0)
    / idx y 2.

Definition thrust_accel (Math_pow : float -> float -> float)
    (y : list float) (v_e : float) : float :=
  (CONSTANTS.rho_water * A_nozzle Math_pow * v_e * v_e) / idx y 2.

(** ** The component [BottleRocketSim]

    What the component computes from its controls before it draws: the runs
    to compare, the two scales of the trajectory plot, the path of a
    trajectory and the coordinates of the fill-ratio curve.  The markup
    itself is not modelled. *)

(** A number used as a condition: NaN and both zeros are falsy. *)
Definition truthy (x : float) : bool := negb (is_nan x || (x =? 0)).

(** The same for a value that may be [null] or [undefined]. *)
Definition truthy_opt (x : option float) : bool :=
  match x with
  | Some v => truthy v
  | None => false
  end.

(** [x || d]. *)
Definition or_else (x : option float) (d : float) : float :=
  match x with
  | Some v => if truthy v then v else d
  | None => d
  end.

(** [Math.max(...a)]; [-Infinity] when there is no argument. *)
Definition Math_max_list (a : list float) : float := fold_left Math_max a neg_infinity.

(** [a[a.length - 1]?.t]: [undefined] for an empty array. *)
Definition last_t (a : list Sample) : option float :=
  match a with
  | [] => None
  | _ :: _ => option_map smp_t (nth_error a (length a - 1))
  end.

Module BottleRocketSim.

Import String.
Local Open Scope string_scope.

(** [{ ratio: r, ...runSimulation(r, dragCoeff, pressure) }] *)
Record Comparison := { cmp_ratio : float; cmp_run : SimulationResult }.

(** [compareRatios.map(r => ...)]; [None] only if a run used up its fuel. *)
Fixpoint compare_all (Math_pow : float -> float -> float) (dragCoeff pressure : float)
    (ratios : list float) : option (list Comparison) :=
  match ratios with
  | [] => Some []
  | r :: rs =>
      match runSimulation Math_pow r dragCoeff pressure,
            compare_all Math_pow dragCoeff pressure rs with
      | Some res, Some l => Some ({| cmp_ratio := r; cmp_run := res |} :: l)
      | _, _ => None
      end
  end.

Definition compareResults (Math_pow : float -> float -> float) (compareMode : bool)
    (compareRatios : list float) (dragCoeff pressure : float) : option (list Comparison) :=
  if negb compareMode then Some []
  else compare_all Math_pow dragCoeff pressure compareRatios.

Definition width : float := 700.
Definition height : float := 400.
Definition padding_top : float := 30.
Definition padding_right : float := 30.
Definition padding_bottom : float := 50.
Definition padding_left : float := 60.
Definition plotW : float := width - padding_left - padding_right.
Definition plotH : float := height - padding_top - padding_bottom.

Section Scales.

(** The switch of the comparison, the main run and the runs compared. *)
Variable compareMode : bool.
Variable simResult : SimulationResult.
Variable compared : list Comparison.

Definition maxT : float :=
  if compareMode
  then Math_max_list
         (map (fun r => or_else (last_t (trajectory (cmp_run r))) 5) compared ++ [5])
  else Math_max (or_else (last_t (trajectory simResult)) 5) 5.

Definition maxH : float :=
  if compareMode
  then Math_max_list (map (fun r => maxH (cmp_run r)) compared ++ [10]) * 1.1
  else Math_max (maxH simResult * 1.1) 10.

Definition scaleX (t : float) : float := padding_left + (t / maxT) * plotW.
Definition scaleY (h : float) : float := padding_top + plotH - (h / maxH) * plotH.

(** The conversion of a number to a string, which the template literal
    applies to both coordinates. *)
Variable Number_toString : float -> string.

Definition pathD (trajectory : list Sample) : string :=
  if Nat.eqb (List.length trajectory) 0 then ""
  else
    concat " "
      (map_index
         (fun p i =>
            (if Nat.eqb i 0 then "M" else "L") ++ " " ++
            Number_toString (scaleX (smp_t p)) ++ " " ++
            Number_toString (scaleY (smp_h p)))
         trajectory).

End Scales.

(** The runs whose trajectory is drawn: the runs compared when the
    comparison is on, the main run otherwise. *)
Definition plotted (compareMode : bool) (simResult : SimulationResult)
    (compared : list Comparison) : list SimulationResult :=
  if compareMode then map cmp_run compared else [simResult].

(** The panel "altitude vs fill ratio": the abscissa of a ratio and the
    ordinate of an altitude, relative to the best altitude of the sweep. *)
Definition curveX (r : float) : float := padding_left + (r - 0.05) / 0.9 * plotW.
Definition curveY (optimal : OptimizationResult) (h : float) : float :=
  160 - (h / bestH optimal) * 130.

End BottleRocketSim.

(** ** Vocabulary of the specification *)

(** The clock after [k] steps of 2 ms, and the fill ratio after [k]
    increments of the sweep: both are accumulated sums, as in the program. *)
Definition tick (k : nat) : float := Nat.iter k (fun t => t + dt) 0.
Definition grid_point (k : nat) : float := Nat.iter k (fun r => r + r_step) r_first.

Definition max_steps : nat := 75 * 100.
Definition grid_size : nat := 45.

(** The stage combination of section 4.1 of the specification, with vectors
    added and scaled as vectors. *)
Module RK4Spec.

Fixpoint vzip (f : float -> float -> float) (a b : list float) : list float :=
  match a, b with
  | x :: a', y :: b' => f x y :: vzip f a' b'
  | _, _ => []
  end.

Definition vadd (a b : list float) : list float := vzip add a b.
Definition vscale (c : float) (a : list float) : list float := map (mul c) a.

Definition rk4_formula {P : Type} (f : float -> list float -> P -> list float)
    (t : float) (y : list float) (h : float) (params : P) : list float :=
  let k1 := f t y params in
  let k2 := f (t + h / 2) (vadd y (vscale (h / 2) k1)) params in
  let k3 := f (t + h / 2) (vadd y (vscale (h / 2) k2)) params in
  let k4 := f (t + h) (vadd y (vscale h k3)) params in
  vadd y (vscale (h / 6) (vadd (vadd (vadd k1 (vscale 2 k2)) (vscale 2 k3)) k4)).

End RK4Spec.

(** The sampling test of the loop body, and the 5 ms bucket of a time. *)
Definition emits (t : float) : bool :=
  Math_floor ((t - dt) * 200) <? Math_floor (t * 200).

Definition sample_period : float := 0.005.
Definition bucket (t : float) : float := Math_floor (t / sample_period).

(** [f] is the integer floor of [x]: an integer with [f <= x < f + 1]. *)
Definition is_floor_of (x f : float) : bool :=
  (f <=? x) && (x <? f + 1) && (JS.of_Z (JS.to_Z f) =? f).

Definition first_sample : Sample := {| smp_t := 0; smp_h := 0; smp_v := 0 |}.

Definition sample_of (s : SimState) : Sample :=
  {| smp_t := sim_t s; smp_h := Math_max 0 (altitude s); smp_v := velocity s |}.

(** The three burnout markers, as a triple. *)
Definition burnout_markers (r : SimulationResult) : option float * option float * option float :=
  (burnoutTime r, burnoutAlt r, burnoutVel r).

Definition markers_at (s : SimState) : option float * option float * option float :=
  (Some (sim_t s), Some (altitude s), Some (velocity s)).

Definition no_markers : option float * option float * option float := (None, None, None).

Definition burnt (s : SimState) : bool := waterVolume s <=? 0.

(** Equal as numbers ([+0] and [-0] are), or both NaN. *)
Definition same_number (x y : float) : bool := (x =? y) || (is_nan x && is_nan y).

(** The first grid point whose altitude is [h], if any. *)
Fixpoint first_attaining (h : float) (d : list GridPoint) : option float :=
  match d with
  | [] => None
  | p :: d' => if gp_maxH p =? h then Some (ratio p) else first_attaining h d'
  end.

(** One pass of the sweep, and the locals of [findOptimal] after [k]
    passes, whatever the bound says.  [opt_body] never fails
    ([opt_body_step]). *)
Definition opt_step (Math_pow : float -> float -> float)
    (dragCoefficient pressurePSI : float) (s : OptState) : OptState :=
  match opt_body Math_pow dragCoefficient pressurePSI s with
  | Some s' => s'
  | None => s
  end.

Definition sweepAfter (Math_pow : float -> float -> float)
    (dragCoefficient pressurePSI : float) (k : nat) : OptState :=
  Nat.iter k (opt_step Math_pow dragCoefficient pressurePSI) opt_init.


(** How a pass updates the best pair and the curve, given the altitude
    [h] found at the current ratio. *)
Definition record_point (b : OptimizationResult) (r h : float) : OptimizationResult :=
  {| bestRatio := if bestH b <? h then r else bestRatio b;
     bestH := if bestH b <? h then h else bestH b;
     data := data b ++ [ {| ratio := r; gp_maxH := h |} ] |}.

(** What the best pair is, relative to the curve recorded so far. *)
Definition best_inv (b : OptimizationResult) : Prop :=
  (0 <=? bestH b) = true /\
  Forall (fun p => (gp_maxH p <=? bestH b) = true) (data b) /\
  ((bestH b = 0 /\ bestRatio b = bestRatio_default /\
    Forall (fun p => gp_maxH p = 0) (data b)) \/
   ((0 <? bestH b) = true /\
    exists d1 d2,
      data b = d1 ++ {| ratio := bestRatio b; gp_maxH := bestH b |} :: d2 /\
      Forall (fun p => (gp_maxH p <? bestH b) = true) d1)).

(** ** Checks along the two clocks *)

Module ClockCheck.

(** [check P n k t] tests [P j t_j t_(j+1)] along [n] ticks from tick
    [k], in one pass. *)
Fixpoint check (step : float) (P : nat -> float -> float -> bool)
    (n k : nat) (t : float) : bool :=
  match n with
  | O => true
  | S n' => P k t (t + step) && check step P n' (S k) (t + step)
  end.

(** [Math_floor] is the integer floor on the three arguments it gets for
    the time [t]. *)
Definition floors_ok (t : float) : bool :=
  is_floor_of (t / sample_period) (bucket t) &&
  is_floor_of (t * 200) (Math_floor (t * 200)) &&
  is_floor_of ((t - dt) * 200) (Math_floor ((t - dt) * 200)).

(** What is checked of a tick [t] and the next one [t']: [t] is below
    15 s, the clock moves forward, and the sampling test of the program
    agrees with the change of 5 ms bucket. *)
Definition tick_ok (k : nat) (t t' : float) : bool :=
  (t <? t_max) && (t <? t') && Bool.eqb (emits t') (bucket t <? bucket t') &&
  floors_ok t'.

(** The bound of the sweep. *)
Definition grid_ok (k : nat) (r r' : float) : bool := r <=? r_last.

End ClockCheck.

(** ** Vocabulary for binary64 arithmetic *)

(** The exponent the format gives a number of [e] significant bits. *)
Abbreviation fexp64 := (fexp prec emax).

Module FloatShape.

(** What [binary_round_aux] returns for the final mantissa and exponent. *)
Definition finish (s : bool) (m3 e3 : Z) : spec_float :=
  match m3 with
  | Z0 => S754_zero s
  | Zpos p => if (e3 <=? emax - prec)%Z then S754_finite s p e3 else S754_infinity s
  | Zneg _ => S754_nan
  end.

(** Zero or positive; zero or negative; and their weak forms, which NaN
    satisfies too. *)
Definition nonneg_SF (x : spec_float) : Prop :=
  match x with
  | S754_zero _ => True
  | S754_finite s _ _ | S754_infinity s => s = false
  | S754_nan => False
  end.

Definition nonpos_SF (x : spec_float) : Prop :=
  match x with
  | S754_zero _ => True
  | S754_finite s _ _ | S754_infinity s => s = true
  | S754_nan => False
  end.

Definition not_pos_SF (x : spec_float) : Prop :=
  match x with
  | S754_zero _ | S754_nan => True
  | S754_finite s _ _ | S754_infinity s => s = true
  end.

Definition not_neg_SF (x : spec_float) : Prop :=
  match x with
  | S754_zero _ | S754_nan => True
  | S754_finite s _ _ | S754_infinity s => s = false
  end.

(** The comparison of two floats, through their decoded forms. *)
Definition cmp (x y : float) : option comparison :=
  SFcompare (Prim2SF x) (Prim2SF y).

(** The sign a rounded result carries. *)
Definition signed (s : bool) (x : spec_float) : Prop :=
  match x with
  | S754_zero s' | S754_infinity s' | S754_finite s' _ _ => s' = s
  | S754_nan => True
  end.

End FloatShape.

(** ** Vocabulary of the plot *)

(** Strictly positive, infinite or not; and the number one, decoded. *)
Definition pos_SF (x : spec_float) : Prop :=
  match x with
  | S754_finite s _ _ | S754_infinity s => s = false
  | _ => False
  end.

Definition SF_one : spec_float := S754_finite false 4503599627370496 (-52).


(** The time a run contributes to the horizontal scale. *)
Definition span (r : SimulationResult) : float := or_else (last_t (trajectory r)) 5.

(** What the plot relies on in a run: a positive span that ends by the
    last tick, an altitude maximum that is not negative, a trajectory that
    starts with the initial sample, and samples whose time lies between zero
    and the span and whose altitude lies between zero and the maximum. *)
Definition plottable (r : SimulationResult) : Prop :=
  (0 <? span r) = true /\ (span r <=? tick max_steps) = true /\
  (0 <=? maxH r) = true /\
  hd_error (trajectory r) = Some first_sample /\
  Forall (fun smp =>
            (0 <=? smp_t smp) = true /\ (smp_t smp <=? span r) = true /\
            (smp_h smp <? 0) = false /\ (maxH r <? smp_h smp) = false)
         (trajectory r).

(** Inside the plot area: not left of [padding.left] nor right of
    [padding.left + plotW]; not above [padding.top] nor below
    [padding.top + plotH].  NaN is neither. *)
Definition in_frame_x (x : float) : Prop :=
  (x <? BottleRocketSim.padding_left) = false /\
  (BottleRocketSim.padding_left + BottleRocketSim.plotW <? x) = false.

Definition in_frame_y (y : float) : Prop :=
  (y <? BottleRocketSim.padding_top) = false /\
  (BottleRocketSim.padding_top + BottleRocketSim.plotH <? y) = false.

(** What is checked of a ratio of the grid: it lies between the bounds of
    the sweep, and its abscissa on the curve lies inside the plot area. *)
Definition curve_x_ok (r : float) : bool :=
  negb (BottleRocketSim.curveX r <? BottleRocketSim.padding_left) &&
  negb (BottleRocketSim.padding_left + BottleRocketSim.plotW <? BottleRocketSim.curveX r).

Definition ratio_ok (r : float) : bool :=
  (r_first <=? r) && (r <=? r_last) && curve_x_ok r.

(** Strictly increasing from each element to the next. *)
Fixpoint increasing (l : list float) : bool :=
  match l with
  | a :: (b :: _) as l' => (a <? b) && increasing l'
  | _ => true
  end.

(** * Facts *)

(** ** The built-ins on a few arguments *)

Example Math_floor_examples :
  Math_floor 0.4 = 0 /\ Math_floor 2.5 = 2 /\ Math_floor 2999.9999999 = 2999 /\
  Math_floor 3000 = 3000 /\ Math_floor (-0.4) = -1 /\ Math_floor (-3) = -3 /\
  Math_floor (-0) = -0 /\ Math_floor 1e300 = 1e300 /\ Math_floor nan = nan /\
  Math_floor infinity = infinity.
Proof. vm_compute. repeat split. Qed.

Example Math_max_examples :
  Math_max 0 3.5 = 3.5 /\ Math_max 0 (-2) = 0 /\ Math_max 0 (-0) = 0 /\
  Math_max 0 nan = nan /\ Math_max 0 infinity = infinity.
Proof. vm_compute. repeat split. Qed.

(** The reference [Math.pow] on arguments of the kind the program meets:
    exact at base 1 and at the integer exponents 2 and 4, NaN at a NaN base,
    and, on two generic arguments, the double nearest to the real power
    ([0.5^1.4 = 0.378929141627599553...], [0.67^1.4 = 0.570827284974006347...]). *)
Example pow_ref_examples :
  pow_ref 1 CONSTANTS.gamma = 1 /\
  pow_ref nan CONSTANTS.gamma = nan /\
  pow_ref 0.013 2 = 0.013 * 0.013 /\
  pow_ref 3 4 = 81 /\
  (0.37892914162759950 <=? pow_ref 0.5 1.4) = true /\
  (pow_ref 0.5 1.4 <=? 0.37892914162759961) = true /\
  (0.57082728497400626 <=? pow_ref 0.67 1.4) = true /\
  (pow_ref 0.67 1.4 <=? 0.57082728497400648) = true.
Proof. vm_compute. repeat split. Qed.

(** ** Order on binary64 numbers

    Comparison of floats is specified through [SFcompare] on their
    decoded form; it is a strict total order away from NaN. *)

Module FloatOrder.

Import FloatShape.

Ltac sf_split :=
  repeat match goal with
         | x : spec_float |- _ => destruct x as [[]|[]| |[] ? ?]
         end.

Ltac cmp_cases :=
  change (Pos.compare_cont Eq) with Pos.compare in *;
  repeat match goal with
         | H : context [Z.compare ?a ?b] |- _ =>
             destruct (Z.compare_spec a b); try subst
         | |- context [Z.compare ?a ?b] =>
             destruct (Z.compare_spec a b); try subst
         | H : context [Pos.compare ?a ?b] |- _ =>
             destruct (Pos.compare_spec a b); try subst
         | |- context [Pos.compare ?a ?b] =>
             destruct (Pos.compare_spec a b); try subst
         end;
  simpl in *; try congruence; try lia.

Ltac sf_order := sf_split; simpl; intros; try congruence; cmp_cases.

Lemma SFcompare_lt_trans a b c :
  SFcompare a b = Some Lt -> SFcompare b c = Some Lt -> SFcompare a c = Some Lt.
Proof. sf_order. Qed.

Lemma SFcompare_eq_lt a b c :
  SFcompare a b = Some Eq -> SFcompare b c = Some Lt -> SFcompare a c = Some Lt.
Proof. sf_order. Qed.

Lemma SFcompare_lt_eq a b c :
  SFcompare a b = Some Lt -> SFcompare b c = Some Eq -> SFcompare a c = Some Lt.
Proof. sf_order. Qed.

Lemma SFcompare_eq_trans a b c :
  SFcompare a b = Some Eq -> SFcompare b c = Some Eq -> SFcompare a c = Some Eq.
Proof. sf_order. Qed.

Lemma SFcompare_sym a b k :
  SFcompare a b = Some k -> SFcompare b a = Some (CompOpp k).
Proof. sf_order; try (injection H as <-; reflexivity). Qed.

Lemma SFcompare_refl a : a <> S754_nan -> SFcompare a a = Some Eq.
Proof. sf_order. Qed.

Lemma SFcompare_none a b :
  SFcompare a b = None -> a = S754_nan \/ b = S754_nan.
Proof. sf_order; auto. Qed.

Lemma ltb_cmp x y : (x <? y) = true <-> cmp x y = Some Lt.
Proof.
  rewrite ltb_spec. unfold SFltb, cmp.
  destruct (SFcompare _ _) as [[]|]; split; congruence.
Qed.

Lemma eqb_cmp x y : (x =? y) = true <-> cmp x y = Some Eq.
Proof.
  rewrite eqb_spec. unfold SFeqb, cmp.
  destruct (SFcompare _ _) as [[]|]; split; congruence.
Qed.

Lemma leb_cmp x y : (x <=? y) = true <-> cmp x y = Some Lt \/ cmp x y = Some Eq.
Proof.
  rewrite leb_spec. unfold SFleb, cmp.
  destruct (SFcompare _ _) as [[]|]; split; intros; try tauto; try congruence;
    destruct H; congruence.
Qed.

Lemma is_nan_SF x : is_nan x = true <-> Prim2SF x = S754_nan.
Proof.
  unfold is_nan. rewrite negb_true_iff, eqb_spec. unfold SFeqb.
  split.
  - intros H. destruct (Prim2SF x) eqn:E; auto;
      rewrite SFcompare_refl in H by congruence; discriminate.
  - intros ->. reflexivity.
Qed.

Lemma cmp_defined x y :
  is_nan x = false -> is_nan y = false -> exists k, cmp x y = Some k.
Proof.
  intros Hx Hy. unfold cmp. destruct (SFcompare _ _) eqn:E; eauto.
  apply SFcompare_none in E. destruct E as [E|E]; apply is_nan_SF in E; congruence.
Qed.

Lemma ltb_not_nan x y : (x <? y) = true -> is_nan x = false /\ is_nan y = false.
Proof.
  rewrite ltb_cmp. unfold cmp. intros H.
  split; apply not_true_is_false; rewrite is_nan_SF; intros E; rewrite E in H;
    simpl in H; try discriminate; destruct (Prim2SF x); discriminate.
Qed.

Lemma leb_not_nan x y : (x <=? y) = true -> is_nan x = false /\ is_nan y = false.
Proof.
  rewrite leb_cmp. unfold cmp. intros H.
  split; apply not_true_is_false; rewrite is_nan_SF; intros E; rewrite E in H;
    simpl in H; destruct H as [H|H]; try discriminate;
    destruct (Prim2SF x); discriminate.
Qed.

Lemma ltb_trans x y z : (x <? y) = true -> (y <? z) = true -> (x <? z) = true.
Proof. rewrite !ltb_cmp. apply SFcompare_lt_trans. Qed.

Lemma ltb_leb x y : (x <? y) = true -> (x <=? y) = true.
Proof. rewrite ltb_cmp, leb_cmp. auto. Qed.

Lemma eqb_leb x y : (x =? y) = true -> (x <=? y) = true.
Proof. rewrite eqb_cmp, leb_cmp. auto. Qed.

Lemma leb_ltb_trans x y z : (x <=? y) = true -> (y <? z) = true -> (x <? z) = true.
Proof.
  rewrite leb_cmp, !ltb_cmp. intros [H|H] H'.
  - eapply SFcompare_lt_trans; eauto.
  - eapply SFcompare_eq_lt; eauto.
Qed.

Lemma ltb_leb_trans x y z : (x <? y) = true -> (y <=? z) = true -> (x <? z) = true.
Proof.
  rewrite leb_cmp, !ltb_cmp. intros H [H'|H'].
  - eapply SFcompare_lt_trans; eauto.
  - eapply SFcompare_lt_eq; eauto.
Qed.

Lemma leb_trans x y z : (x <=? y) = true -> (y <=? z) = true -> (x <=? z) = true.
Proof.
  intros H H'. pose proof H' as H2. rewrite leb_cmp in H2. destruct H2 as [H2|H2].
  - apply ltb_leb. eapply leb_ltb_trans; eauto. now apply ltb_cmp.
  - rewrite leb_cmp in *. destruct H as [H|H].
    + left. eapply SFcompare_lt_eq; eauto.
    + right. eapply SFcompare_eq_trans; eauto.
Qed.

Lemma leb_refl x : is_nan x = false -> (x <=? x) = true.
Proof.
  intros H. apply eqb_leb. unfold is_nan in H. now apply negb_false_iff in H.
Qed.

(** Nothing is both below and not above. *)
Lemma leb_not_ltb x y : (x <=? y) = true -> (y <? x) = false.
Proof.
  intros H. apply not_true_is_false. rewrite ltb_cmp. rewrite leb_cmp in H.
  unfold cmp in *. intros H'. apply SFcompare_sym in H'. simpl in H'.
  destruct H; congruence.
Qed.

Lemma ltb_asym x y : (x <? y) = true -> (y <? x) = false.
Proof. intros H. apply leb_not_ltb. now apply ltb_leb. Qed.

Lemma ltb_irrefl x : (x <? x) = false.
Proof.
  destruct (x <? x) eqn:E; auto. pose proof (ltb_asym _ _ E). congruence.
Qed.

(** Totality: two numbers that are not NaN are comparable. *)
Lemma not_ltb_leb x y :
  is_nan x = false -> is_nan y = false -> (x <? y) = false -> (y <=? x) = true.
Proof.
  intros Hx Hy H. destruct (cmp_defined x y Hx Hy) as [k Hk].
  rewrite leb_cmp. unfold cmp in *. pose proof (SFcompare_sym _ _ _ Hk) as Hs.
  destruct k; simpl in Hs; auto.
  apply ltb_cmp in Hk. congruence.
Qed.

(** [x <= 0] and [0 <= x] pin [x] to a zero. *)
Lemma leb_antisym_eqb x y : (x <=? y) = true -> (y <=? x) = true -> (x =? y) = true.
Proof.
  rewrite !leb_cmp, eqb_cmp. unfold cmp. intros [H|H] [H'|H']; auto;
    apply SFcompare_sym in H'; simpl in H'; congruence.
Qed.

End FloatOrder.

(** ** Rounding to binary64

    [SpecFloat] defines the arithmetic operators by rounding an exact
    integer mantissa.  What the flight model needs from it is that rounding
    is monotone around a representable number: a mantissa below [mx 2^ex] is
    not rounded above it ([round_shrink]) and one above it is not rounded
    below ([round_grow]). *)

Module Rounding.

Local Open Scope Z_scope.

Lemma fexp64_eq e : fexp64 e = Z.max (e - 53) (-1074).
Proof. reflexivity. Qed.

Lemma fexp64_mono a b : a <= b -> fexp64 a <= fexp64 b.
Proof. rewrite !fexp64_eq. lia. Qed.

(** *** Number of binary digits *)

Lemma digits2_pos_bounds p :
  2 ^ (Zpos (digits2_pos p) - 1) <= Zpos p < 2 ^ Zpos (digits2_pos p).
Proof.
  induction p as [p IH | p IH |]; cbn [digits2_pos].
  - rewrite Pos2Z.inj_succ.
    replace (Z.succ (Zpos (digits2_pos p)) - 1) with (Z.succ (Zpos (digits2_pos p) - 1)) by lia.
    rewrite !Z.pow_succ_r by lia. lia.
  - rewrite Pos2Z.inj_succ.
    replace (Z.succ (Zpos (digits2_pos p)) - 1) with (Z.succ (Zpos (digits2_pos p) - 1)) by lia.
    rewrite !Z.pow_succ_r by lia. lia.
  - cbn. lia.
Qed.

Lemma Zdigits2_bounds m : 0 < m -> 2 ^ (Zdigits2 m - 1) <= m < 2 ^ Zdigits2 m.
Proof. destruct m as [|p|p]; try lia. intros _. apply digits2_pos_bounds. Qed.

Lemma Zdigits2_nonneg m : 0 <= Zdigits2 m.
Proof. destruct m; cbn; lia. Qed.

Lemma Zdigits2_pos m : 0 < m -> 0 < Zdigits2 m.
Proof. destruct m; cbn; lia. Qed.

Lemma Zdigits2_unique m d : 0 < d -> 2 ^ (d - 1) <= m < 2 ^ d -> Zdigits2 m = d.
Proof.
  intros Hd [Hlo Hhi].
  assert (0 < m) as Hm by (pose proof (Z.pow_pos_nonneg 2 (d - 1)); lia).
  destruct (Zdigits2_bounds m Hm) as [Hlo' Hhi'].
  pose proof (Zdigits2_pos m Hm) as Hp.
  destruct (Z.lt_trichotomy (Zdigits2 m) d) as [H | [H | H]]; auto; exfalso.
  - assert (2 ^ Zdigits2 m <= 2 ^ (d - 1)) by (apply Z.pow_le_mono_r; lia). lia.
  - assert (2 ^ d <= 2 ^ (Zdigits2 m - 1)) by (apply Z.pow_le_mono_r; lia). lia.
Qed.

Lemma Zdigits2_mono a b : 0 <= a <= b -> Zdigits2 a <= Zdigits2 b.
Proof.
  intros [Ha Hab]. destruct (Z.eq_dec a 0) as [-> | Hne]; [apply Zdigits2_nonneg|].
  destruct (Zdigits2_bounds a ltac:(lia)) as [Hlo _].
  destruct (Zdigits2_bounds b ltac:(lia)) as [_ Hhi].
  destruct (Z.le_gt_cases (Zdigits2 a) (Zdigits2 b)) as [H | H]; auto. exfalso.
  assert (2 ^ Zdigits2 b <= 2 ^ (Zdigits2 a - 1)) by (apply Z.pow_le_mono_r; lia). lia.
Qed.

Lemma Zdigits2_shift m k : 0 < m -> 0 <= k -> Zdigits2 (m * 2 ^ k) = Zdigits2 m + k.
Proof.
  intros Hm Hk. pose proof (Zdigits2_pos m Hm) as Hp.
  destruct (Zdigits2_bounds m Hm) as [Hlo Hhi].
  assert (0 < 2 ^ k) by (apply Z.pow_pos_nonneg; lia).
  apply Zdigits2_unique; [lia|].
  replace (Zdigits2 m + k - 1) with ((Zdigits2 m - 1) + k) by lia.
  rewrite !Z.pow_add_r by lia. nia.
Qed.

(** *** Shifts *)

Lemma iter_xO m d : Zpos (Pos.iter xO m d) = Zpos m * 2 ^ Zpos d.
Proof.
  induction d as [|d IH] using Pos.peano_ind.
  - cbn. lia.
  - rewrite Pos.iter_succ, Pos2Z.inj_xO, IH, Pos2Z.inj_succ, Z.pow_succ_r by lia. lia.
Qed.

Lemma shl_align_spec mx ex e :
  snd (shl_align mx ex e) = Z.min ex e /\
  Zpos (fst (shl_align mx ex e)) = Zpos mx * 2 ^ (ex - Z.min ex e).
Proof.
  unfold shl_align. destruct (e - ex) as [|d|d] eqn:E; cbn [fst snd].
  - replace (Z.min ex e) with ex by lia. rewrite Z.sub_diag. cbn. lia.
  - replace (Z.min ex e) with ex by lia. rewrite Z.sub_diag. cbn. lia.
  - replace (Z.min ex e) with e by lia. split; auto.
    rewrite iter_xO. f_equal. f_equal. lia.
Qed.

Lemma shr_1_m r : 0 <= shr_m r -> shr_m (shr_1 r) = shr_m r / 2.
Proof.
  destruct r as [m b s]. cbn [shr_m]. intros Hm.
  destruct m as [|[p|p|]|p]; cbn [shr_1 shr_m]; try lia.
  - reflexivity.
  - apply Z.div_unique with 1; lia.
  - apply Z.div_unique with 0; lia.
  - reflexivity.
Qed.

Lemma iter_shr_1_m p :
  forall r, 0 <= shr_m r ->
    shr_m (iter_pos shr_1 p r) = shr_m r / 2 ^ Zpos p.
Proof.
  assert (forall a k, 0 <= a -> 0 <= k -> 0 <= a / 2 ^ k) as Hpow
      by (intros; apply Z.div_pos; [|apply Z.pow_pos_nonneg]; lia).
  induction p as [p IH | p IH |]; intros r Hr; cbn [iter_pos].
  - pose proof (shr_1_m r Hr) as H1.
    assert (0 <= shr_m (shr_1 r)) as Hr1
        by (rewrite H1; apply (Hpow _ 1); lia).
    pose proof (IH _ Hr1) as H2.
    assert (0 <= shr_m (iter_pos shr_1 p (shr_1 r))) as Hr2
        by (rewrite H2; apply Hpow; lia).
    rewrite (IH _ Hr2), H2, H1.
    rewrite !Z.div_div by (try apply Z.pow_pos_nonneg; lia).
    f_equal. rewrite <- Z.pow_add_r, <- Z.pow_succ_r by lia. f_equal. lia.
  - pose proof (IH _ Hr) as H2.
    assert (0 <= shr_m (iter_pos shr_1 p r)) as Hr2
        by (rewrite H2; apply Hpow; lia).
    rewrite (IH _ Hr2), H2.
    rewrite !Z.div_div by (try apply Z.pow_pos_nonneg; lia).
    f_equal. rewrite <- Z.pow_add_r by lia. f_equal. lia.
  - rewrite shr_1_m by auto. now rewrite Z.pow_1_r.
Qed.

Lemma shr_spec r e n :
  0 <= shr_m r ->
  shr_m (fst (shr r e n)) = shr_m r / 2 ^ Z.max 0 n /\
  snd (shr r e n) = e + Z.max 0 n.
Proof.
  intros Hr. unfold shr. destruct n as [|p|p]; cbn [fst snd].
  - cbn. rewrite Z.div_1_r. lia.
  - replace (Z.max 0 (Zpos p)) with (Zpos p) by lia. split; auto.
    now apply iter_shr_1_m.
  - replace (Z.max 0 (Zneg p)) with 0 by lia. cbn. rewrite Z.div_1_r. lia.
Qed.

Lemma shr_record_of_loc_m m l : shr_m (shr_record_of_loc m l) = m.
Proof. destruct l as [|[]]; reflexivity. Qed.

Lemma shr_fexp_spec m e l :
  0 <= m ->
  shr_m (fst (shr_fexp prec emax m e l)) =
    m / 2 ^ (Z.max e (fexp64 (Zdigits2 m + e)) - e) /\
  snd (shr_fexp prec emax m e l) = Z.max e (fexp64 (Zdigits2 m + e)).
Proof.
  intros Hm. unfold shr_fexp.
  destruct (shr_spec (shr_record_of_loc m l) e (fexp64 (Zdigits2 m + e) - e)) as [H1 H2].
  - now rewrite shr_record_of_loc_m.
  - rewrite H1, H2, shr_record_of_loc_m. split; [f_equal; f_equal|]; lia.
Qed.

Lemma round_nearest_even_bounds m l :
  m <= round_nearest_even m l <= m + 1.
Proof.
  unfold round_nearest_even. destruct l as [|[]]; try lia.
  destruct (Z.even m); lia.
Qed.

(** *** Rounding an integer mantissa

    The result of [binary_round_aux] on an exact input [m 2^e]: the mantissa
    is cut to the exponent [E] the format wants, rounded by at most one
    unit, and cut once more if the rounding carried. *)


Lemma binary_round_aux_spec s m e l :
  0 <= m ->
  exists m2,
    let E := Z.max e (fexp64 (Zdigits2 m + e)) in
    let e3 := Z.max E (fexp64 (Zdigits2 m2 + E)) in
    m / 2 ^ (E - e) <= m2 <= m / 2 ^ (E - e) + 1 /\
    binary_round_aux prec emax s m e l = FloatShape.finish s (m2 / 2 ^ (e3 - E)) e3.
Proof.
  intros Hm. unfold binary_round_aux.
  destruct (shr_fexp_spec m e l Hm) as [H1 H2].
  destruct (shr_fexp prec emax m e l) as [r1 e1]. cbn [fst snd] in H1, H2.
  set (m2 := round_nearest_even (shr_m r1) (loc_of_shr_record r1)).
  exists m2. cbv zeta.
  pose proof (round_nearest_even_bounds (shr_m r1) (loc_of_shr_record r1)) as Hb.
  fold m2 in Hb. rewrite H1 in Hb. split; [exact Hb|].
  assert (0 <= m2) as Hm2.
  { assert (0 <= m / 2 ^ (Z.max e (fexp64 (Zdigits2 m + e)) - e)); [|lia].
    apply Z.div_pos; [lia|]. apply Z.pow_pos_nonneg; lia. }
  destruct (shr_fexp_spec m2 e1 loc_Exact Hm2) as [H3 H4].
  destruct (shr_fexp prec emax m2 e1 loc_Exact) as [r2 e2]. cbn [fst snd] in H3, H4.
  rewrite H3, H4, H2. reflexivity.
Qed.

Lemma binary_round_spec s M e :
  exists m1 m2,
    let F := fexp64 (Zpos (digits2_pos M) + e) in
    let e3 := Z.max F (fexp64 (Zdigits2 m2 + F)) in
    (e <= F -> m1 = Zpos M / 2 ^ (F - e)) /\
    (F <= e -> m1 = Zpos M * 2 ^ (e - F)) /\
    m1 <= m2 <= m1 + 1 /\
    binary_round prec emax s M e = FloatShape.finish s (m2 / 2 ^ (e3 - F)) e3.
Proof.
  unfold binary_round.
  set (F := fexp64 (Zpos (digits2_pos M) + e)).
  destruct (shl_align_spec M e F) as [H1 H2].
  destruct (shl_align M e F) as [mz ez]. cbn [fst snd] in H1, H2.
  destruct (binary_round_aux_spec s (Zpos mz) ez loc_Exact ltac:(lia)) as (m2 & Hb & Hr).
  cbv zeta in Hb, Hr.
  assert (Zdigits2 (Zpos mz) + ez = Zpos (digits2_pos M) + e) as Hd.
  { rewrite H2, H1. rewrite Zdigits2_shift by lia. cbn [Zdigits2]. lia. }
  rewrite Hd in Hb, Hr. fold F in Hb, Hr.
  assert (Z.max ez F = F) as HE by lia. rewrite HE in Hb, Hr.
  exists (Zpos mz / 2 ^ (F - ez)), m2. cbv zeta.
  split; [|split; [|split; [exact Hb | exact Hr]]].
  - intros HeF. rewrite H2, H1. replace (Z.min e F) with e by lia.
    now rewrite Z.sub_diag, Z.mul_1_r.
  - intros HFe. rewrite H2, H1. replace (Z.min e F) with F by lia.
    rewrite Z.sub_diag, Z.div_1_r. reflexivity.
Qed.


Lemma pow2_pos k : 0 <= k -> 0 < 2 ^ k.
Proof. intros. apply Z.pow_pos_nonneg; lia. Qed.

Lemma pow2_split a b : 0 <= a -> 0 <= b -> 2 ^ (a + b) = 2 ^ a * 2 ^ b.
Proof. intros. apply Z.pow_add_r; lia. Qed.

(** Rounding a mantissa strictly below a representable number [mx 2^ex]
    gives zero or a number that is not above it. *)
Lemma round_shrink s M ez mx ex :
  fexp64 (Zpos (digits2_pos mx) + ex) = ex ->
  ex <= emax - prec ->
  ez <= ex ->
  Zpos M < Zpos mx * 2 ^ (ex - ez) ->
  binary_round prec emax s M ez = S754_zero s \/
  exists m3 e3,
    binary_round prec emax s M ez = S754_finite s m3 e3 /\
    (e3 < ex \/ (e3 = ex /\ Zpos m3 <= Zpos mx)).
Proof.
  intros Hcan Hmax Hez HM.
  destruct (binary_round_spec s M ez) as (m1 & m2 & H). cbv zeta in H.
  destruct H as (H1 & H2 & Hb & Hr).
  set (F := fexp64 (Zpos (digits2_pos M) + ez)) in *.
  set (e3 := Z.max F (fexp64 (Zdigits2 m2 + F))) in *.
  assert (F <= ex) as HF.
  { rewrite <- Hcan. apply fexp64_mono.
    assert (Zdigits2 (Zpos M) <= Zdigits2 (Zpos mx * 2 ^ (ex - ez))) as Hd
        by (apply Zdigits2_mono; lia).
    rewrite Zdigits2_shift in Hd by lia. cbn [Zdigits2] in Hd. lia. }
  set (B := Zpos mx * 2 ^ (ex - F)).
  assert (0 <= m1 < B) as Hm1.
  { destruct (Z.le_ge_cases ez F) as [Hle | Hge].
    - rewrite (H1 Hle). split.
      + apply Z.div_pos; [lia | apply pow2_pos; lia].
      + apply Z.div_lt_upper_bound; [apply pow2_pos; lia|].
        unfold B. replace (ex - ez) with ((F - ez) + (ex - F)) in HM by lia.
        rewrite pow2_split in HM by lia. lia.
    - rewrite (H2 Hge). pose proof (pow2_pos (ez - F) ltac:(lia)). split; [lia|].
      unfold B. replace (ex - F) with ((ex - ez) + (ez - F)) by lia.
      rewrite pow2_split by lia. nia. }
  assert (0 <= m2 <= B) as Hm2 by lia.
  assert (e3 <= ex) as He3.
  { unfold e3. apply Z.max_lub; auto. rewrite <- Hcan. apply fexp64_mono.
    assert (Zdigits2 m2 <= Zdigits2 B) as Hd by (apply Zdigits2_mono; lia).
    unfold B in Hd. rewrite Zdigits2_shift in Hd by lia. cbn [Zdigits2] in Hd. lia. }
  assert (F <= e3) as HFe3 by (unfold e3; lia).
  assert (0 <= m2 / 2 ^ (e3 - F)) as Hm3
      by (apply Z.div_pos; [lia | apply pow2_pos; lia]).
  assert (e3 = ex -> m2 / 2 ^ (e3 - F) <= Zpos mx) as Hm3le.
  { intros ->. replace (Zpos mx) with (B / 2 ^ (ex - F)).
    - apply Z.div_le_mono; [apply pow2_pos; lia | lia].
    - unfold B. apply Z.div_mul. pose proof (pow2_pos (ex - F) ltac:(lia)). lia. }
  rewrite Hr. unfold FloatShape.finish.
  destruct (m2 / 2 ^ (e3 - F)) as [|p|p] eqn:E; [now left | | lia].
  right. exists p, e3.
  assert ((e3 <=? emax - prec) = true) as -> by (apply Z.leb_le; lia).
  split; auto. destruct (Z.eq_dec e3 ex) as [Heq | Hne]; [right | left; lia].
  split; auto.
Qed.

(** Rounding a mantissa at or above a representable number [mx 2^ex] gives
    a number that is not below it, or overflows. *)
Lemma round_grow s M ez mx ex :
  fexp64 (Zpos (digits2_pos mx) + ex) = ex ->
  ez <= ex ->
  Zpos mx * 2 ^ (ex - ez) <= Zpos M ->
  binary_round prec emax s M ez = S754_infinity s \/
  exists m3 e3,
    binary_round prec emax s M ez = S754_finite s m3 e3 /\
    (ex < e3 \/ (e3 = ex /\ Zpos mx <= Zpos m3)).
Proof.
  intros Hcan Hez HM.
  destruct (binary_round_spec s M ez) as (m1 & m2 & H). cbv zeta in H.
  destruct H as (H1 & _ & Hb & Hr).
  set (F := fexp64 (Zpos (digits2_pos M) + ez)) in *.
  set (e3 := Z.max F (fexp64 (Zdigits2 m2 + F))) in *.
  assert (-1074 <= ex) as Hemin by (rewrite <- Hcan, fexp64_eq; lia).
  assert (ex <= F) as HF.
  { rewrite <- Hcan. apply fexp64_mono.
    assert (Zdigits2 (Zpos mx * 2 ^ (ex - ez)) <= Zdigits2 (Zpos M)) as Hd
        by (apply Zdigits2_mono; pose proof (pow2_pos (ex - ez) ltac:(lia)); nia).
    rewrite Zdigits2_shift in Hd by lia. cbn [Zdigits2] in Hd. lia. }
  rewrite (H1 ltac:(lia)) in Hb.
  assert (0 < Zpos M / 2 ^ (F - ez) /\
          (F = ex -> Zpos mx <= Zpos M / 2 ^ (F - ez))) as [Hm1 Hm1x].
  { destruct (Z.eq_dec F ex) as [-> | Hne].
    - assert (Zpos mx <= Zpos M / 2 ^ (ex - ez)); [|split; auto; lia].
      apply Z.div_le_lower_bound; [apply pow2_pos; lia | lia].
    - split; [|lia].
      assert (F = Zpos (digits2_pos M) + ez - 53) as HFeq
          by (unfold F in *; rewrite fexp64_eq in *; lia).
      assert (2 ^ 52 <= Zpos M / 2 ^ (F - ez)); [|lia].
      apply Z.div_le_lower_bound; [apply pow2_pos; lia|].
      rewrite <- pow2_split by lia.
      replace (F - ez + 52) with (Zpos (digits2_pos M) - 1) by lia.
      apply digits2_pos_bounds. }
  assert (0 < m2) as Hm2 by lia.
  assert (F <= e3) as HFe3 by (unfold e3; lia).
  assert (0 < m2 / 2 ^ (e3 - F) /\ (e3 = F -> m2 / 2 ^ (e3 - F) = m2)) as [Hm3 Hm3eq].
  { destruct (Z.eq_dec e3 F) as [-> | Hne].
    - rewrite Z.sub_diag, Z.pow_0_r, Z.div_1_r. auto.
    - split; [|lia].
      assert (e3 = Zdigits2 m2 + F - 53) as He3eq
          by (unfold e3 in *; rewrite fexp64_eq in *; lia).
      assert (2 ^ 52 <= m2 / 2 ^ (e3 - F)); [|lia].
      apply Z.div_le_lower_bound; [apply pow2_pos; lia|].
      rewrite <- pow2_split by lia.
      replace (e3 - F + 52) with (Zdigits2 m2 - 1) by lia.
      now apply Zdigits2_bounds. }
  rewrite Hr. unfold FloatShape.finish.
  destruct (m2 / 2 ^ (e3 - F)) as [|p|p] eqn:E; try lia.
  destruct (e3 <=? emax - prec); [|now left].
  right. exists p, e3. split; auto.
  destruct (Z.eq_dec e3 ex) as [Heq | Hne]; [right | left; lia].
  split; auto. assert (e3 = F) as HeF by lia.
  specialize (Hm3eq HeF). specialize (Hm1x ltac:(lia)). lia.
Qed.

End Rounding.

(** ** Signs and monotonicity of the arithmetic operators *)

Module FloatArith.

Local Open Scope float_scope.

Lemma Prim2SF_zero : Prim2SF 0 = S754_zero false.
Proof. reflexivity. Qed.

Lemma leb_zero_l c : (0 <=? c) = true <-> FloatShape.nonneg_SF (Prim2SF c).
Proof.
  rewrite leb_spec, Prim2SF_zero. unfold SFleb.
  destruct (Prim2SF c) as [[]|[]| |[] m e]; cbn; split; intros; try tauto; congruence.
Qed.

Lemma leb_zero_r c : (c <=? 0) = true <-> FloatShape.nonpos_SF (Prim2SF c).
Proof.
  rewrite leb_spec, Prim2SF_zero. unfold SFleb.
  destruct (Prim2SF c) as [[]|[]| |[] m e]; cbn; split; intros; try tauto; congruence.
Qed.

Lemma ltb_zero_l d : (0 <? d) = false <-> FloatShape.not_pos_SF (Prim2SF d).
Proof.
  rewrite ltb_spec, Prim2SF_zero. unfold SFltb.
  destruct (Prim2SF d) as [[]|[]| |[] m e]; cbn; split; intros; try tauto; congruence.
Qed.

Lemma ltb_zero_r d : (d <? 0) = false <-> FloatShape.not_neg_SF (Prim2SF d).
Proof.
  rewrite ltb_spec, Prim2SF_zero. unfold SFltb.
  destruct (Prim2SF d) as [[]|[]| |[] m e]; cbn; split; intros; try tauto; congruence.
Qed.


Lemma binary_round_aux_signed s m e l : FloatShape.signed s (binary_round_aux prec emax s m e l).
Proof.
  unfold binary_round_aux.
  destruct (shr_fexp prec emax m e l) as [r1 e1].
  destruct (shr_fexp prec emax _ e1 loc_Exact) as [r2 e2].
  destruct (shr_m r2); cbn; auto. destruct (_ <=? _)%Z; cbn; auto.
Qed.

Lemma binary_round_signed s m e : FloatShape.signed s (binary_round prec emax s m e).
Proof.
  unfold binary_round. destruct (shl_align _ _ _) as [mz ez].
  apply binary_round_aux_signed.
Qed.

Lemma signed_not_pos x : FloatShape.signed true x -> FloatShape.not_pos_SF x.
Proof. destruct x; cbn; auto. Qed.

Lemma signed_not_neg x : FloatShape.signed false x -> FloatShape.not_neg_SF x.
Proof. destruct x; cbn; auto. Qed.

Lemma SFmul_not_pos c x :
  FloatShape.nonneg_SF c -> FloatShape.not_pos_SF x -> FloatShape.not_pos_SF (SF64mul c x).
Proof.
  destruct c as [sc|sc| |sc mc ec], x as [sx|sx| |sx mx ex]; cbn; intros Hc Hx;
    subst; auto; try tauto.
  apply signed_not_pos, binary_round_aux_signed.
Qed.

Lemma SFmul_neg_not_pos c x :
  FloatShape.nonpos_SF c -> FloatShape.not_neg_SF x -> FloatShape.not_pos_SF (SF64mul c x).
Proof.
  destruct c as [sc|sc| |sc mc ec], x as [sx|sx| |sx mx ex]; cbn; intros Hc Hx;
    subst; auto; try tauto.
  apply signed_not_pos, binary_round_aux_signed.
Qed.

Lemma SFadd_not_pos a b :
  FloatShape.not_pos_SF a -> FloatShape.not_pos_SF b -> FloatShape.not_pos_SF (SF64add a b).
Proof.
  destruct a as [sa|sa| |sa ma ea], b as [sb|sb| |sb mb eb]; cbn [FloatShape.not_pos_SF];
    intros Ha Hb; subst; unfold SF64add, SFadd;
    try (destruct sa); try (destruct sb); try exact I; try reflexivity.
  cbn [cond_Zopp Z.opp Z.add binary_normalize].
  apply signed_not_pos, binary_round_signed.
Qed.

Lemma SFsqrt_not_neg x : FloatShape.not_neg_SF (SF64sqrt x).
Proof.
  destruct x as [s|[]| |[] m e]; cbn; auto.
  unfold SF64sqrt, SFsqrt.
  destruct (SFsqrt_core_binary prec emax (Zpos m) e) as [[mz ez] lz].
  apply signed_not_neg, binary_round_aux_signed.
Qed.

Lemma SFopp_nonpos x : FloatShape.nonneg_SF x -> FloatShape.nonpos_SF (SFopp x).
Proof. destruct x as [s|s| |s m e]; cbn; auto; intros ->; reflexivity. Qed.

(** Adding a number that is not positive never gives a larger number. *)
Lemma SFadd_not_above x d :
  valid_binary x = true -> FloatShape.not_pos_SF d -> SFltb x (SF64add x d) = false.
Proof.
  intros Hx Hd.
  destruct d as [sd|sd| |sd md ed]; cbn in Hd; subst.
  - destruct x as [[]|[]| |[] m e], sd; reflexivity || (cbn; unfold SFltb; cbn;
      rewrite ?Z.compare_refl, ?Pos.compare_cont_refl; reflexivity).
  - destruct x as [[]|[]| |[] m e]; reflexivity.
  - destruct x as [[]|[]| |[] m e]; reflexivity.
  - destruct x as [sx|sx| |sx mx ex];
      [destruct sx; reflexivity | destruct sx; reflexivity | reflexivity |].
    cbn in Hx. apply andb_true_iff in Hx. destruct Hx as [Hcan Hmax].
    apply Z.eqb_eq in Hcan. apply Z.leb_le in Hmax.
    unfold SF64add, SFadd.
    set (ez := Z.min ex ed).
    destruct (Rounding.shl_align_spec mx ex ez) as [_ HX].
    destruct (Rounding.shl_align_spec md ed ez) as [_ HY].
    replace (Z.min ex ez) with ez in HX by (unfold ez; lia).
    replace (Z.min ed ez) with ez in HY by (unfold ez; lia).
    assert (0 < 2 ^ (ed - ez))%Z as Hpow by (apply Rounding.pow2_pos; unfold ez; lia).
    set (X' := fst (shl_align mx ex ez)) in *.
    set (Y' := fst (shl_align md ed ez)) in *.
    assert (ez <= ex)%Z as Hez by (unfold ez; lia).
    destruct sx; cbn [cond_Zopp].
    + change (- Zpos X' + - Zpos Y')%Z with (Zneg (X' + Y')).
      cbn [binary_normalize].
      destruct (Rounding.round_grow true (X' + Y') ez mx ex Hcan Hez ltac:(lia))
        as [-> | (m3 & e3 & -> & Hlex)]; [reflexivity|].
      unfold SFltb. cbn [SFcompare].
      destruct Hlex as [Hlt | [-> Hle]].
      * apply Z.compare_lt_iff in Hlt. now rewrite Hlt.
      * rewrite Z.compare_refl. change (Pos.compare_cont Eq mx m3) with (Pos.compare mx m3).
        destruct (Pos.compare_spec mx m3); try reflexivity. lia.
    + destruct (Zpos X' + - Zpos Y')%Z as [|M|M] eqn:E; cbn [binary_normalize].
      * reflexivity.
      * destruct (Rounding.round_shrink false M ez mx ex Hcan Hmax Hez ltac:(lia))
          as [-> | (m3 & e3 & -> & Hlex)]; [reflexivity|].
        unfold SFltb. cbn [SFcompare].
        destruct Hlex as [Hlt | [-> Hle]].
        -- apply Z.compare_gt_iff in Hlt. now rewrite Hlt.
        -- rewrite Z.compare_refl.
           change (Pos.compare_cont Eq mx m3) with (Pos.compare mx m3).
           destruct (Pos.compare_spec mx m3); try reflexivity. lia.
      * pose proof (binary_round_signed true M ez) as Hs.
        destruct (binary_round prec emax true M ez) as [s'|s'| |s' m' e'];
          cbn in Hs; subst; reflexivity.
Qed.

(** *** The same facts on floats *)

Lemma mul_not_pos c x :
  (0 <=? c) = true -> (0 <? x) = false -> (0 <? c * x) = false.
Proof.
  rewrite leb_zero_l, !ltb_zero_l, mul_spec. apply SFmul_not_pos.
Qed.

Lemma mul_neg_not_pos c x :
  (c <=? 0) = true -> (x <? 0) = false -> (0 <? c * x) = false.
Proof.
  rewrite leb_zero_r, ltb_zero_r, ltb_zero_l, mul_spec. apply SFmul_neg_not_pos.
Qed.

Lemma add_not_pos a b :
  (0 <? a) = false -> (0 <? b) = false -> (0 <? a + b) = false.
Proof. rewrite !ltb_zero_l, add_spec. apply SFadd_not_pos. Qed.

Lemma sqrt_not_neg x : (sqrt x <? 0) = false.
Proof. rewrite ltb_zero_r, sqrt_spec. apply SFsqrt_not_neg. Qed.

Lemma opp_nonpos a : (0 <=? a) = true -> (- a <=? 0) = true.
Proof. rewrite leb_zero_l, leb_zero_r, opp_spec. apply SFopp_nonpos. Qed.

Lemma add_not_above x d : (0 <? d) = false -> (x <? x + d) = false.
Proof.
  rewrite ltb_zero_l, ltb_spec, add_spec. apply SFadd_not_above, Prim2SF_valid.
Qed.

(** Adding [+0] changes nothing but the sign of [-0]. *)
Lemma SFadd_zero x :
  SF64add x (S754_zero false) = x \/
  (x = S754_zero true /\ SF64add x (S754_zero false) = S754_zero false).
Proof. destruct x as [[]|[]| |[] m e]; cbn; auto. Qed.

End FloatArith.

(** ** The two clocks

    The time of the simulation and the fill ratio of the sweep evolve by
    repeated addition of a constant, independently of the physics; what the
    program does with them is decided by evaluation. *)

Module Clock.

Import ClockCheck.

Lemma check_spec step P t0 n :
  forall k,
    check step P n k (Nat.iter k (fun t => t + step) t0) = true ->
    forall j, (k <= j < k + n)%nat ->
      P j (Nat.iter j (fun t => t + step) t0)
          (Nat.iter (S j) (fun t => t + step) t0) = true.
Proof.
  induction n as [|n IH]; intros k H j Hj; [lia|].
  simpl in H. apply andb_true_iff in H. destruct H as [H1 H2].
  destruct (Nat.eq_dec j k) as [->|Hne]; [exact H1|].
  apply (IH (S k)); [exact H2 | lia].
Qed.

Lemma ticks_checked : check dt tick_ok max_steps 0 0 = true.
Proof. vm_compute. reflexivity. Qed.

Lemma tick_facts k :
  (k < max_steps)%nat ->
  (tick k <? t_max) = true /\ (tick k <? tick (S k)) = true /\
  emits (tick (S k)) = (bucket (tick k) <? bucket (tick (S k))).
Proof.
  intros Hk.
  pose proof (check_spec dt tick_ok 0 max_steps 0 ticks_checked k) as H.
  specialize (H ltac:(lia)). unfold tick_ok in H.
  apply andb_true_iff in H. destruct H as [H _].
  apply andb_true_iff in H. destruct H as [H H3].
  apply andb_true_iff in H. destruct H as [H1 H2].
  apply Bool.eqb_prop in H3. auto.
Qed.


Lemma tick_end : (tick max_steps <? t_max) = false /\ (t_max <? tick max_steps) = true.
Proof. vm_compute. auto. Qed.

Lemma tick_increasing j k :
  (j < k)%nat -> (k <= max_steps)%nat -> (tick j <? tick k) = true.
Proof.
  induction k as [|k IH]; intros Hjk Hk; [lia|].
  destruct (tick_facts k ltac:(lia)) as (_ & Hstep & _).
  destruct (Nat.eq_dec j k) as [->|Hne]; [exact Hstep|].
  eapply FloatOrder.ltb_trans; [apply IH; lia | exact Hstep].
Qed.

(** The sweep: 45 grid points pass the bound [r <= 0.95], the 46th value
    does not. *)
Lemma grid_checked : check r_step grid_ok grid_size 0 r_first = true.
Proof. vm_compute. reflexivity. Qed.

Lemma grid_inside k : (k < grid_size)%nat -> (grid_point k <=? r_last) = true.
Proof.
  intros Hk.
  exact (check_spec r_step grid_ok r_first grid_size 0 grid_checked k ltac:(lia)).
Qed.

Lemma grid_end : (grid_point grid_size <=? r_last) = false.
Proof. vm_compute. reflexivity. Qed.

End Clock.

(** ** The display clamp and sorted lists *)

Lemma Math_max_not_neg h : (Math_max 0 h <? 0) = false.
Proof.
  unfold Math_max. change (is_nan 0) with false. cbn [orb].
  destruct (is_nan h); [reflexivity|].
  destruct (0 <? h) eqn:E; [now apply FloatOrder.ltb_asym|].
  destruct (h <? 0); reflexivity.
Qed.

Lemma Math_max_clamp h : (h <? 0) = true -> Math_max 0 h = 0.
Proof.
  intros H. unfold Math_max. change (is_nan 0) with false. cbn [orb].
  destruct (FloatOrder.ltb_not_nan _ _ H) as [-> _].
  now rewrite (FloatOrder.ltb_asym _ _ H), H.
Qed.

Lemma Math_max_keep h : (0 <? h) = true -> Math_max 0 h = h.
Proof.
  intros H. unfold Math_max. change (is_nan 0) with false. cbn [orb].
  destruct (FloatOrder.ltb_not_nan _ _ H) as [_ ->].
  now rewrite H.
Qed.

Lemma seq_sorted a n : StronglySorted lt (seq a n).
Proof.
  revert a. induction n as [|n IH]; intros a; cbn [seq]; constructor; auto.
  apply Forall_forall. intros k Hk. apply in_seq in Hk. lia.
Qed.

Lemma filter_sorted {A} (R : A -> A -> Prop) (f : A -> bool) l :
  StronglySorted R l -> StronglySorted R (filter f l).
Proof.
  induction 1 as [|a l Hl IH Ha]; cbn [filter]; [constructor|].
  destruct (f a); auto. constructor; auto.
  apply Forall_forall. intros b Hb. apply filter_In in Hb.
  rewrite Forall_forall in Ha. apply Ha. tauto.
Qed.

(** ** The loop of [runSimulation] *)

Section RunFacts.

Variable Math_pow : float -> float -> float.
Variables fillRatio dragCoefficient pressurePSI : float.

Local Abbreviation body := (sim_body Math_pow fillRatio dragCoefficient pressurePSI).
Local Abbreviation state := (stateAfter Math_pow fillRatio dragCoefficient pressurePSI).
Local Abbreviation loop := (sim_loop Math_pow fillRatio dragCoefficient pressurePSI).

Lemma state_S k : state (S k) = body (state k).
Proof. reflexivity. Qed.

Lemma sim_t_state k : sim_t (state k) = tick k.
Proof.
  induction k as [|k IH]; [reflexivity|].
  rewrite state_S. unfold tick. simpl. fold (tick k). now rewrite <- IH.
Qed.

(** The state vector is advanced by [rk4Step] alone: no other local of the
    loop flows into it. *)
Lemma sim_y_state k :
  sim_y (state (S k)) =
  rk4Step (rocketODEs Math_pow) (sim_t (state k)) (sim_y (state k)) dt
          (params fillRatio dragCoefficient pressurePSI).
Proof. reflexivity. Qed.

Lemma sim_loop_run n :
  forall fuel k,
    (forall j, (j < n)%nat -> sim_cond (state (k + j)) = true) ->
    sim_cond (state (k + n)) = false ->
    (n < fuel)%nat ->
    loop fuel (state k) = Some (state (k + n)).
Proof.
  induction n as [|n IH]; intros fuel k Hlt Hn Hfuel.
  - destruct fuel; [lia|]. rewrite Nat.add_0_r in *. cbn [sim_loop].
    now rewrite Hn.
  - destruct fuel; [lia|]. cbn [sim_loop].
    assert (sim_cond (state k) = true) as ->.
    { rewrite <- (Nat.add_0_r k). apply Hlt. lia. }
    rewrite <- state_S.
    replace (k + S n)%nat with (S k + n)%nat in * by lia.
    apply IH; [|exact Hn|lia].
    intros j Hj. replace (S k + j)%nat with (k + S j)%nat by lia.
    apply Hlt. lia.
Qed.

(** The first index at which a test fails, below an index where it does. *)
Lemma first_failure (c : nat -> bool) n :
  c n = false ->
  exists N, (N <= n)%nat /\ c N = false /\ forall k, (k < N)%nat -> c k = true.
Proof.
  induction n as [n IH] using lt_wf_ind. intros Hn.
  destruct (forallb c (seq 0 n)) eqn:E.
  - exists n. repeat split; auto. intros k Hk.
    rewrite forallb_forall in E. apply E. apply in_seq. lia.
  - assert (exists k, (k < n)%nat /\ c k = false) as (k & Hk & Hck).
    { destruct (existsb (fun k => negb (c k)) (seq 0 n)) eqn:E'.
      - apply existsb_exists in E'. destruct E' as (k & Hin & Hk).
        apply in_seq in Hin. exists k. split; [lia|]. now apply negb_true_iff.
      - exfalso. rewrite <- not_true_iff_false in E. apply E.
        apply forallb_forall. intros k Hin.
        destruct (c k) eqn:Ec; auto.
        rewrite <- not_true_iff_false in E'. exfalso. apply E'.
        apply existsb_exists. exists k. split; auto. now rewrite Ec. }
    destruct (IH k Hk Hck) as (N & HN & HcN & Hbefore).
    exists N. repeat split; auto. lia.
Qed.

Lemma cond_at_start : sim_cond (state 0) = true.
Proof. reflexivity. Qed.

Lemma cond_at_end : sim_cond (state max_steps) = false.
Proof.
  unfold sim_cond. rewrite sim_t_state.
  destruct Clock.tick_end as [-> _]. reflexivity.
Qed.

(** The run: the loop is left after [N] passes, [1 <= N <= 7500], at the
    first state that fails the guard.  In particular the fuel is never
    used up. *)
Lemma run_shape :
  exists N,
    (1 <= N <= max_steps)%nat /\
    simulate Math_pow fillRatio dragCoefficient pressurePSI = Some (state N) /\
    sim_cond (state N) = false /\
    forall k, (k < N)%nat -> sim_cond (state k) = true.
Proof.
  destruct (first_failure (fun k => sim_cond (state k)) max_steps cond_at_end)
    as (N & HN & HcN & Hbefore).
  exists N. repeat split; auto.
  - destruct N; [|lia]. rewrite cond_at_start in HcN. discriminate.
  - unfold simulate. change (sim_init fillRatio) with (state 0).
    apply (sim_loop_run N sim_fuel 0); auto.
    unfold sim_fuel. unfold max_steps in HN. lia.
Qed.

Lemma simulate_returns :
  exists s, simulate Math_pow fillRatio dragCoefficient pressurePSI = Some s.
Proof. destruct run_shape as (N & _ & H & _). eauto. Qed.

Lemma runSimulation_returns :
  exists r, runSimulation Math_pow fillRatio dragCoefficient pressurePSI = Some r.
Proof.
  destruct simulate_returns as (s & Hs). unfold runSimulation. rewrite Hs.
  simpl. eauto.
Qed.


(** *** What one pass records *)

Lemma cond_altitude s : sim_cond s = (sim_t s <? t_max) && (0 <=? altitude s).
Proof. reflexivity. Qed.

Lemma trajectory_body s :
  trajectory (sim_res (body s)) =
  if emits (sim_t (body s))
  then trajectory (sim_res s) ++ [sample_of (body s)]
  else trajectory (sim_res s).
Proof. reflexivity. Qed.

Lemma markers_body s :
  burnout_markers (sim_res (body s)) =
  match burnoutTime (sim_res s) with
  | None =>
      if burnt (body s) then markers_at (body s)
      else (None, burnoutAlt (sim_res s), burnoutVel (sim_res s))
  | Some _ => burnout_markers (sim_res s)
  end.
Proof.
  unfold burnout_markers, burnt, markers_at, waterVolume, altitude, velocity.
  cbn [sim_body sim_res sim_y sim_t burnoutTime burnoutAlt burnoutVel fst snd].
  destruct (burnoutTime (sim_res s)); [reflexivity|].
  destruct (_ <=? 0); reflexivity.
Qed.

Lemma maxH_body s :
  maxH (sim_res (body s)) =
  if maxH (sim_res s) <? altitude (body s) then altitude (body s) else maxH (sim_res s).
Proof.
  unfold altitude. cbn [sim_body sim_res sim_y maxH fst].
  destruct (_ <? _); reflexivity.
Qed.

(** The samples recorded after [j] passes: the initial one, then one for
    each pass whose time passes the sampling test, in order. *)
Lemma trajectory_state j :
  trajectory (sim_res (state j)) =
  first_sample ::
    map (fun k => sample_of (state k))
        (filter (fun k => emits (sim_t (state k))) (seq 1 j)).
Proof.
  induction j as [|j IH]; [reflexivity|].
  rewrite state_S, trajectory_body, <- state_S, IH.
  rewrite seq_S, filter_app, map_app. cbn [filter Nat.add].
  destruct (emits (sim_t (state (S j)))); cbn [map]; [reflexivity|].
  now rewrite !app_nil_r.
Qed.

(** The markers after [j] passes: empty while no pass has ended with the
    water gone, and those of the first such pass afterwards. *)
Lemma markers_state j :
  ((forall k, (1 <= k <= j)%nat -> burnt (state k) = false) /\
   burnout_markers (sim_res (state j)) = no_markers) \/
  (exists k, (1 <= k <= j)%nat /\ burnt (state k) = true /\
             (forall i, (1 <= i < k)%nat -> burnt (state i) = false) /\
             burnout_markers (sim_res (state j)) = markers_at (state k)).
Proof.
  induction j as [|j IH].
  - left. split; [intros k Hk; lia | reflexivity].
  - rewrite state_S, markers_body, <- state_S.
    destruct IH as [[Hnone Hm] | (k & Hk & Hb & Hfirst & Hm)].
    + assert (burnoutTime (sim_res (state j)) = None) as Hbt
          by (unfold burnout_markers, no_markers in Hm; congruence).
      rewrite Hbt. destruct (burnt (state (S j))) eqn:E.
      * right. exists (S j). repeat split; auto; try lia.
        intros i Hi. apply Hnone. lia.
      * left. split.
        -- intros k Hk. destruct (Nat.eq_dec k (S j)) as [->|]; auto.
           apply Hnone. lia.
        -- unfold burnout_markers, no_markers in *. congruence.
    + assert (exists t, burnoutTime (sim_res (state j)) = Some t) as [t Hbt]
          by (unfold burnout_markers, markers_at in Hm; injection Hm; eauto).
      rewrite Hbt. right. exists k. repeat split; auto; lia.
Qed.



(** The altitude maximum is the literal [+0] or a positive number. *)
Lemma maxH_state j :
  maxH (sim_res (state j)) = 0 \/ (0 <? maxH (sim_res (state j))) = true.
Proof.
  induction j as [|j IH]; [now left|].
  rewrite state_S, maxH_body, <- state_S.
  destruct (maxH (sim_res (state j)) <? altitude (state (S j))) eqn:E; auto.
  right. destruct IH as [IH | IH].
  - now rewrite IH in E.
  - eapply FloatOrder.ltb_trans; eauto.
Qed.


(** *** The claims about one run *)


(** C2, as the program has it.  The run takes [N] steps of 2 ms with
    [1 <= N <= 7500]; the state is advanced by [rk4Step] and the clock by
    adding [dt]; every state before the last has time below 15 s and an
    altitude that is [>= 0] (zero included); the loop is left at the first
    state whose altitude is no longer [>= 0] (negative, or NaN) or whose
    time exceeds 15 s, which only step 7500 does; that last state is kept
    as [rk4Step] produced it, below ground or not. *)
Theorem C2_loop_exit :
  exists N,
    (1 <= N <= max_steps)%nat /\
    simulate Math_pow fillRatio dragCoefficient pressurePSI = Some (state N) /\
    runSimulation Math_pow fillRatio dragCoefficient pressurePSI =
      Some (sim_res (state N)) /\
    (forall k, sim_t (state (S k)) = sim_t (state k) + dt /\
               sim_y (state (S k)) =
               rk4Step (rocketODEs Math_pow) (sim_t (state k)) (sim_y (state k)) dt
                       (params fillRatio dragCoefficient pressurePSI)) /\
    (forall k, (k < N)%nat ->
               (sim_t (state k) <? t_max) = true /\ (0 <=? altitude (state k)) = true) /\
    ((0 <=? altitude (state N)) = false \/
     (N = max_steps /\ (t_max <? sim_t (state N)) = true)).
Proof.
  destruct run_shape as (N & HN & Hsim & Hstop & Hbefore).
  exists N. split; [lia|]. split; [exact Hsim|].
  split; [unfold runSimulation; now rewrite Hsim|].
  split; [intros k; split; reflexivity|]. split.
  - intros k Hk. specialize (Hbefore k Hk). rewrite cond_altitude in Hbefore.
    now apply andb_true_iff in Hbefore.
  - rewrite cond_altitude in Hstop. apply andb_false_iff in Hstop.
    destruct Hstop as [Ht | Hh]; auto.
    right. rewrite sim_t_state in *.
    assert (N = max_steps) as ->.
    { destruct (Nat.eq_dec N max_steps); auto.
      destruct (Clock.tick_facts N ltac:(lia)) as (H & _). congruence. }
    split; [reflexivity | apply Clock.tick_end].
Qed.



(** C9.  Every sample after the first is that of a step [k] of the run:
    its time and velocity are those of the state, its altitude is
    [Math.max(0, altitude)], which is 0 for a state below ground and
    never negative.  The state itself is never clamped: each state vector
    is [rk4Step] of the one before, and the guard of the loop reads the
    state's own altitude. *)
Theorem C9_display_clamp :
  exists N,
    runSimulation Math_pow fillRatio dragCoefficient pressurePSI =
      Some (sim_res (state N)) /\
    trajectory (sim_res (state N)) =
      first_sample ::
        map (fun k => {| smp_t := sim_t (state k);
                         smp_h := Math_max 0 (altitude (state k));
                         smp_v := velocity (state k) |})
            (filter (fun k => emits (sim_t (state k))) (seq 1 N)) /\
    Forall (fun smp => (smp_h smp <? 0) = false) (trajectory (sim_res (state N))) /\
    (forall k, (altitude (state k) <? 0) = true ->
               smp_h (sample_of (state k)) = 0) /\
    (forall k, sim_y (state (S k)) =
               rk4Step (rocketODEs Math_pow) (sim_t (state k)) (sim_y (state k)) dt
                       (params fillRatio dragCoefficient pressurePSI)) /\
    (forall s, sim_cond s = (sim_t s <? t_max) && (0 <=? idx (sim_y s) 1)) /\
    (forall k, (k < N)%nat -> (0 <=? altitude (state k)) = true) /\
    ((sim_t (state N) <? t_max) = true -> (0 <=? altitude (state N)) = false).
Proof.
  destruct run_shape as (N & HN & Hsim & Hstop & Hbefore).
  exists N. split; [unfold runSimulation; now rewrite Hsim|].
  split; [apply trajectory_state|]. split; [|split; [|split; [|split; [|split]]]].
  - rewrite trajectory_state. constructor; [reflexivity|].
    apply Forall_forall. intros smp Hin. apply in_map_iff in Hin.
    destruct Hin as (k & <- & _). apply Math_max_not_neg.
  - intros k Hk. now apply Math_max_clamp.
  - reflexivity.
  - reflexivity.
  - intros k Hk. specialize (Hbefore k Hk). rewrite cond_altitude in Hbefore.
    apply andb_true_iff in Hbefore. tauto.
  - intros Ht. rewrite cond_altitude, Ht in Hstop. exact Hstop.
Qed.

End RunFacts.

(** ** The sweep of [findOptimal] *)

Section SweepFacts.

Variable Math_pow : float -> float -> float.
Variables dragCoefficient pressurePSI : float.

Local Abbreviation sweep := (sweepAfter Math_pow dragCoefficient pressurePSI).
Local Abbreviation run r := (runSimulation Math_pow r dragCoefficient pressurePSI).

Lemma opt_body_step s :
  exists res,
    run (opt_r s) = Some res /\
    (maxH res = 0 \/ (0 <? maxH res) = true) /\
    opt_body Math_pow dragCoefficient pressurePSI s =
      Some {| opt_r := opt_r s + r_step;
              opt_best := record_point (opt_best s) (opt_r s) (maxH res) |}.
Proof.
  destruct (run_shape Math_pow (opt_r s) dragCoefficient pressurePSI)
    as (N & _ & Hsim & _).
  exists (sim_res (stateAfter Math_pow (opt_r s) dragCoefficient pressurePSI N)).
  assert (run (opt_r s) =
          Some (sim_res (stateAfter Math_pow (opt_r s) dragCoefficient pressurePSI N)))
    as Hrun by (unfold runSimulation; now rewrite Hsim).
  split; [exact Hrun|]. split; [apply maxH_state|].
  unfold opt_body. rewrite Hrun. unfold record_point.
  destruct (_ <? _); reflexivity.
Qed.

Lemma sweep_S k :
  exists res,
    run (opt_r (sweep k)) = Some res /\
    (maxH res = 0 \/ (0 <? maxH res) = true) /\
    opt_body Math_pow dragCoefficient pressurePSI (sweep k) = Some (sweep (S k)) /\
    sweep (S k) =
      {| opt_r := opt_r (sweep k) + r_step;
         opt_best := record_point (opt_best (sweep k)) (opt_r (sweep k)) (maxH res) |}.
Proof.
  destruct (opt_body_step (sweep k)) as (res & Hrun & Hh & Hbody).
  exists res. split; [exact Hrun|]. split; [exact Hh|].
  assert (sweep (S k) =
          {| opt_r := opt_r (sweep k) + r_step;
             opt_best := record_point (opt_best (sweep k)) (opt_r (sweep k)) (maxH res) |})
    as E.
  { change (sweep (S k)) with (opt_step Math_pow dragCoefficient pressurePSI (sweep k)).
    unfold opt_step. now rewrite Hbody. }
  split; [now rewrite E | exact E].
Qed.

Lemma opt_r_sweep k : opt_r (sweep k) = grid_point k.
Proof.
  induction k as [|k IH]; [reflexivity|].
  destruct (sweep_S k) as (res & _ & _ & _ & ->). cbn [opt_r].
  rewrite IH. reflexivity.
Qed.

Lemma opt_loop_run n :
  forall fuel k,
    (forall j, (j < n)%nat -> (opt_r (sweep (k + j)) <=? r_last) = true) ->
    (opt_r (sweep (k + n)) <=? r_last) = false ->
    (n < fuel)%nat ->
    opt_loop Math_pow dragCoefficient pressurePSI fuel (sweep k) = Some (sweep (k + n)).
Proof.
  induction n as [|n IH]; intros fuel k Hlt Hn Hfuel.
  - destruct fuel; [lia|]. rewrite Nat.add_0_r in *. cbn [opt_loop].
    now rewrite Hn.
  - destruct fuel; [lia|]. cbn [opt_loop].
    assert ((opt_r (sweep k) <=? r_last) = true) as ->.
    { rewrite <- (Nat.add_0_r k). apply Hlt. lia. }
    destruct (sweep_S k) as (res & _ & _ & -> & _).
    replace (k + S n)%nat with (S k + n)%nat in * by lia.
    apply IH; [|exact Hn|lia].
    intros j Hj. replace (S k + j)%nat with (k + S j)%nat by lia.
    apply Hlt. lia.
Qed.

(** The sweep makes exactly 45 passes. *)
Lemma findOptimal_run :
  findOptimal Math_pow dragCoefficient pressurePSI = Some (opt_best (sweep grid_size)).
Proof.
  unfold findOptimal. change opt_init with (sweep 0).
  rewrite (opt_loop_run grid_size opt_fuel 0); [reflexivity| | |unfold opt_fuel, grid_size; lia].
  - intros j Hj. cbn [Nat.add]. rewrite opt_r_sweep. now apply Clock.grid_inside.
  - cbn [Nat.add]. rewrite opt_r_sweep. apply Clock.grid_end.
Qed.

Lemma findOptimal_returns :
  exists res, findOptimal Math_pow dragCoefficient pressurePSI = Some res.
Proof. rewrite findOptimal_run. eauto. Qed.

(** The curve after [k] passes: one point per grid value, in order, each
    with the altitude [runSimulation] reports there. *)
Lemma data_sweep k :
  map ratio (data (opt_best (sweep k))) = map grid_point (seq 0 k) /\
  Forall (fun p => exists res, run (ratio p) = Some res /\ gp_maxH p = maxH res)
         (data (opt_best (sweep k))).
Proof.
  induction k as [|k [IH1 IH2]]; [split; [reflexivity | constructor]|].
  destruct (sweep_S k) as (res & Hrun & _ & _ & ->).
  cbn [opt_best record_point data]. split.
  - rewrite map_app, IH1, seq_S, map_app. cbn [map ratio Nat.add].
    now rewrite opt_r_sweep.
  - apply Forall_app. split; auto. constructor; [|constructor].
    exists res. auto.
Qed.

Lemma best_inv_record b r h :
  best_inv b -> (h = 0 \/ (0 <? h) = true) -> best_inv (record_point b r h).
Proof.
  intros (Hpos & Hle & Hcase) Hh.
  assert (is_nan h = false) as Hnum.
  { destruct Hh as [-> | Hh]; [reflexivity|]. apply (FloatOrder.ltb_not_nan _ _ Hh). }
  assert (is_nan (bestH b) = false) as Hnumb by apply (FloatOrder.leb_not_nan _ _ Hpos).
  unfold best_inv, record_point. cbn [bestH bestRatio data].
  destruct (bestH b <? h) eqn:E.
  - assert ((0 <? h) = true) as Hhpos by (eapply FloatOrder.leb_ltb_trans; eauto).
    split; [now apply FloatOrder.ltb_leb|]. split.
    + apply Forall_app. split.
      * eapply Forall_impl; [|exact Hle]. cbv beta. intros p Hp.
        apply FloatOrder.ltb_leb. eapply FloatOrder.leb_ltb_trans; eauto.
      * constructor; [|constructor]. now apply FloatOrder.leb_refl.
    + right. split; auto. exists (data b), []. split; auto.
      eapply Forall_impl; [|exact Hle]. cbv beta. intros p Hp.
      eapply FloatOrder.leb_ltb_trans; eauto.
  - assert ((h <=? bestH b) = true) as Hhle by now apply FloatOrder.not_ltb_leb.
    split; auto. split.
    + apply Forall_app. split; auto.
    + destruct Hcase as [(Hz & Hr & Hall) | (Hbpos & d1 & d2 & Hd & Hd1)].
      * left. repeat split; auto. apply Forall_app. split; auto.
        constructor; [|constructor]. cbn [gp_maxH].
        destruct Hh as [-> | Hh]; auto. rewrite Hz in E. congruence.
      * right. split; auto. exists d1, (d2 ++ [{| ratio := r; gp_maxH := h |}]).
        split; auto. rewrite Hd at 1. now rewrite <- app_assoc.
Qed.

Lemma best_inv_sweep k : best_inv (opt_best (sweep k)).
Proof.
  induction k as [|k IH].
  - split; [reflexivity|]. split; [constructor|].
    left. repeat split. constructor.
  - destruct (sweep_S k) as (res & _ & Hh & _ & ->). cbn [opt_best].
    now apply best_inv_record.
Qed.

Lemma first_attaining_found h r d1 d2 :
  is_nan h = false ->
  Forall (fun p => (gp_maxH p <? h) = true) d1 ->
  first_attaining h (d1 ++ {| ratio := r; gp_maxH := h |} :: d2) = Some r.
Proof.
  intros Hnum. induction 1 as [|p d1 Hp Hd1 IH]; cbn [app first_attaining gp_maxH ratio].
  - unfold is_nan in Hnum. apply negb_false_iff in Hnum. now rewrite Hnum.
  - assert ((gp_maxH p =? h) = false) as ->; auto.
    apply not_true_is_false. intros Heq. apply FloatOrder.eqb_cmp in Heq.
    apply FloatOrder.ltb_cmp in Hp. congruence.
Qed.

(** *** The claims about the sweep *)

(** The three claims are first settled for any result [b] that has the
    shape the sweep gives it. *)

Lemma best_of_curve b :
  map ratio (data b) = map grid_point (seq 0 grid_size) ->
  best_inv b ->
  length (data b) = grid_size /\
  In (bestH b) (map gp_maxH (data b)) /\
  Forall (fun p => (gp_maxH p <=? bestH b) = true) (data b) /\
  ((0 <? bestH b) = true -> first_attaining (bestH b) (data b) = Some (bestRatio b)) /\
  ((0 <? bestH b) = false ->
   bestH b = 0 /\ bestRatio b = bestRatio_default /\
   Forall (fun p => gp_maxH p = 0) (data b) /\
   first_attaining (bestH b) (data b) = Some r_first).
Proof.
  intros Hratio (Hpos & Hle & Hcase).
  assert (length (data b) = grid_size) as Hlen.
  { rewrite <- (length_map ratio), Hratio, length_map, length_seq. reflexivity. }
  assert (is_nan (bestH b) = false) as Hnum by apply (FloatOrder.leb_not_nan _ _ Hpos).
  split; [exact Hlen|].
  destruct (data b) as [|p0 d] eqn:Hd; [discriminate Hlen|].
  assert (ratio p0 = r_first) as Hp0.
  { change (map grid_point (seq 0 grid_size))
      with (r_first :: map grid_point (seq 1 (grid_size - 1))) in Hratio.
    cbn [map] in Hratio. congruence. }
  destruct Hcase as [(Hz & Hr & Hall) | (Hbpos & d1 & d2 & Hd12 & Hd1)].
  - split; [|split; [exact Hle|split]].
    + left. rewrite Hz. now inversion Hall.
    + intros H. rewrite Hz in H. discriminate.
    + intros _. repeat split; auto. rewrite Hz. cbn [first_attaining].
      inversion Hall as [|? ? H0 _]. rewrite H0. now rewrite Hp0.
  - split; [|split; [exact Hle|split]].
    + rewrite Hd12, map_app. apply in_or_app. right. now left.
    + intros _. rewrite Hd12. now apply first_attaining_found.
    + intros H. congruence.
Qed.

Lemma grid_of_curve (l : list float) :
  l = map grid_point (seq 0 grid_size) ->
  length l = 45%nat /\
  hd_error l = Some 0.05 /\
  last l 0 = 0.9300000000000005 /\
  (r_last <? grid_point grid_size) = true /\
  existsb (fun r => r =? 0.95) l = false /\
  nth_error l 14 = Some bestRatio_default.
Proof. intros ->. vm_compute. repeat split. Qed.

Lemma zero_curve_default b :
  best_inv b ->
  Forall (fun p => (gp_maxH p =? 0) = true) (data b) ->
  bestH b = 0 /\ bestRatio b = bestRatio_default.
Proof.
  intros (_ & _ & Hcase) Hzero.
  destruct Hcase as [(Hz & Hr & _) | (Hbpos & d1 & d2 & Hd12 & _)]; auto.
  exfalso. rewrite Hd12 in Hzero. apply Forall_app in Hzero.
  destruct Hzero as [_ Hzero]. apply Forall_inv in Hzero. cbn [gp_maxH] in Hzero.
  apply FloatOrder.eqb_leb in Hzero. apply FloatOrder.leb_not_ltb in Hzero. congruence.
Qed.

Lemma maxH_not_negative fillRatio :
  exists r, run fillRatio = Some r /\
            (0 <=? maxH r) = true /\ (maxH r = 0 \/ (0 <? maxH r) = true).
Proof.
  destruct (run_shape Math_pow fillRatio dragCoefficient pressurePSI)
    as (N & _ & Hsim & _).
  pose proof (maxH_state Math_pow fillRatio dragCoefficient pressurePSI N) as H.
  revert Hsim H.
  generalize (stateAfter Math_pow fillRatio dragCoefficient pressurePSI N).
  intros st Hsim H. exists (sim_res st).
  split; [unfold runSimulation; now rewrite Hsim|].
  split; auto. destruct H as [-> | H]; [reflexivity|]. now apply FloatOrder.ltb_leb.
Qed.

(** C6, as the program has it.  The best altitude is the maximum of the
    recorded curve: it is the altitude of one of the 45 samples and no
    sample is above it.  When it is positive, the best ratio is the ratio
    of the first sample attaining it (strict [>]: the first maximum wins).
    When it is not, every sample has altitude 0, no sample ever replaced
    the initial pair, and the best ratio is the initial 0.33 and not the
    ratio of the first sample. *)
Theorem C6_best_is_grid_maximum :
  exists res,
    findOptimal Math_pow dragCoefficient pressurePSI = Some res /\
    length (data res) = grid_size /\
    In (bestH res) (map gp_maxH (data res)) /\
    Forall (fun p => (gp_maxH p <=? bestH res) = true) (data res) /\
    ((0 <? bestH res) = true ->
     first_attaining (bestH res) (data res) = Some (bestRatio res)) /\
    ((0 <? bestH res) = false ->
     bestH res = 0 /\ bestRatio res = bestRatio_default /\
     Forall (fun p => gp_maxH p = 0) (data res) /\
     first_attaining (bestH res) (data res) = Some r_first).
Proof.
  exists (opt_best (sweep grid_size)).
  exact (conj findOptimal_run
           (best_of_curve _ (proj1 (data_sweep grid_size)) (best_inv_sweep grid_size))).
Qed.

(** C7, as the program runs.  [findOptimal] makes one simulation per value
    of the accumulated ratio [0.05, 0.05 + 0.02, (0.05 + 0.02) + 0.02, ...]
    that passes [r <= 0.95]: there are 45 of them.  The first is 0.05; the
    last is 0.9300000000000005, and the next value 0.9500000000000005 fails
    the bound, so no sample has ratio 0.95. *)
Theorem C7_grid_evaluated :
  exists res,
    findOptimal Math_pow dragCoefficient pressurePSI = Some res /\
    map ratio (data res) = map grid_point (seq 0 grid_size) /\
    Forall (fun p => exists r, run (ratio p) = Some r /\ gp_maxH p = maxH r) (data res) /\
    length (map ratio (data res)) = 45%nat /\
    hd_error (map ratio (data res)) = Some 0.05 /\
    last (map ratio (data res)) 0 = 0.9300000000000005 /\
    (r_last <? grid_point grid_size) = true /\
    existsb (fun r => r =? 0.95) (map ratio (data res)) = false.
Proof.
  exists (opt_best (sweep grid_size)).
  pose proof (grid_of_curve _ (proj1 (data_sweep grid_size)))
    as (H1 & H2 & H3 & H4 & H5 & _).
  exact (conj findOptimal_run
           (conj (proj1 (data_sweep grid_size))
              (conj (proj2 (data_sweep grid_size))
                 (conj H1 (conj H2 (conj H3 (conj H4 H5))))))).
Qed.

(** C10, as the program has it.  When every recorded altitude is 0 the
    result keeps the initial pair: best altitude 0 and best ratio 0.33.
    That default is also the 15th value of the swept grid,
    [0.05 + 14 * 0.02] accumulated.  The altitude [runSimulation] reports is
    never negative: it is [+0] or positive. *)
Theorem C10_all_zero_default :
  exists res,
    findOptimal Math_pow dragCoefficient pressurePSI = Some res /\
    (Forall (fun p => (gp_maxH p =? 0) = true) (data res) ->
     bestH res = 0 /\ bestRatio res = bestRatio_default) /\
    nth_error (map ratio (data res)) 14 = Some bestRatio_default /\
    (forall fillRatio,
       exists r, run fillRatio = Some r /\
                 (0 <=? maxH r) = true /\ (maxH r = 0 \/ (0 <? maxH r) = true)).
Proof.
  exists (opt_best (sweep grid_size)).
  pose proof (grid_of_curve _ (proj1 (data_sweep grid_size)))
    as (_ & _ & _ & _ & _ & H6).
  exact (conj findOptimal_run
           (conj (zero_curve_default _ (best_inv_sweep grid_size))
              (conj H6 maxH_not_negative))).
Qed.

End SweepFacts.

(** ** The integrator *)

Lemma length_map_from {A B} (f : A -> nat -> B) l : forall n, length (map_from f n l) = length l.
Proof. induction l as [|a l IH]; intros n; cbn [map_from length]; auto. Qed.

Lemma nth_map_from {A B} (f : A -> nat -> B) (da : A) (db : B) l :
  forall n i, (i < length l)%nat ->
    nth i (map_from f n l) db = f (nth i l da) (n + i)%nat.
Proof.
  induction l as [|a l IH]; intros n i Hi; cbn [length] in Hi; [lia|].
  destruct i as [|i]; cbn [map_from nth].
  - now rewrite Nat.add_0_r.
  - rewrite IH by lia. f_equal. lia.
Qed.

Lemma idx_map_index f y i :
  (i < length y)%nat -> idx (map_index f y) i = f (idx y i) i.
Proof. intros Hi. unfold idx, map_index. now rewrite (nth_map_from f nan nan). Qed.

Lemma length_map_index {A B} (f : A -> nat -> B) l : length (map_index f l) = length l.
Proof. apply length_map_from. Qed.

Lemma length_vzip f a : forall b, length b = length a -> length (RK4Spec.vzip f a b) = length a.
Proof.
  induction a as [|x a IH]; intros [|y b] H; cbn [RK4Spec.vzip length] in *; auto;
    try discriminate.
Qed.

Lemma idx_vzip f a :
  forall b i, (i < length a)%nat -> (i < length b)%nat ->
    idx (RK4Spec.vzip f a b) i = f (idx a i) (idx b i).
Proof.
  unfold idx. induction a as [|x a IH]; intros [|y b] i Ha Hb; cbn [length] in *; try lia.
  destruct i as [|i]; cbn [RK4Spec.vzip nth]; [reflexivity|]. apply IH; lia.
Qed.

Lemma length_vadd a b : length b = length a -> length (RK4Spec.vadd a b) = length a.
Proof. apply length_vzip. Qed.

Lemma idx_vadd a b i :
  (i < length a)%nat -> (i < length b)%nat ->
  idx (RK4Spec.vadd a b) i = idx a i + idx b i.
Proof. apply idx_vzip. Qed.

Lemma length_vscale c a : length (RK4Spec.vscale c a) = length a.
Proof. apply length_map. Qed.

Lemma idx_vscale c a i :
  (i < length a)%nat -> idx (RK4Spec.vscale c a) i = c * idx a i.
Proof.
  intros Hi. unfold idx, RK4Spec.vscale.
  rewrite (nth_indep _ nan (c * nan)) by now rewrite length_map.
  apply map_nth.
Qed.

Lemma idx_ext a b :
  length a = length b ->
  (forall i, (i < length a)%nat -> idx a i = idx b i) -> a = b.
Proof. intros Hl H. apply (nth_ext a b nan nan); auto. Qed.

(** A stage argument of the program is the vector sum of the specification. *)
Lemma stage_vector y k c :
  length k = length y ->
  map_index (fun yi i => yi + c * idx k i) y = RK4Spec.vadd y (RK4Spec.vscale c k).
Proof.
  intros Hk. apply idx_ext.
  - rewrite length_map_index.
    now rewrite length_vadd by now rewrite length_vscale.
  - intros i Hi. rewrite length_map_index in Hi.
    rewrite idx_map_index by auto.
    rewrite idx_vadd by (rewrite ?length_vscale; lia).
    now rewrite idx_vscale by lia.
Qed.

(** C1.  For a derivative function [f] that returns vectors of the length
    of the state ([n], any), [rk4Step f t y h params] is the vector
    [y + h/6 (k1 + 2 k2 + 2 k3 + k4)] of the classical method, with
    [k1 = f(t, y)], [k2 = f(t + h/2, y + h/2 k1)], [k3 = f(t + h/2, y + h/2 k2)],
    [k4 = f(t + h, y + h k3)], all vector operations element-wise and the
    same parameter bundle handed to each call of [f]; it has the length of
    [y], and being a function it depends on nothing else. *)
Theorem C1_rk4Step_formula {P : Type} (f : float -> list float -> P -> list float)
    (t : float) (y : list float) (h : float) (params : P) :
  (forall t' y', length y' = length y -> length (f t' y' params) = length y) ->
  rk4Step f t y h params = RK4Spec.rk4_formula f t y h params /\
  length (rk4Step f t y h params) = length y.
Proof.
  intros Hf. split; [|apply length_map_index].
  unfold rk4Step, RK4Spec.rk4_formula.
  assert (length (f t y params) = length y) as H1 by now apply Hf.
  rewrite (stage_vector y (f t y params)) by exact H1.
  set (k1 := f t y params) in *.
  set (k2 := f (t + h / 2) _ params).
  assert (length k2 = length y) as H2
      by (apply Hf, length_vadd; now rewrite length_vscale).
  rewrite (stage_vector y k2) by exact H2.
  set (k3 := f (t + h / 2) _ params).
  assert (length k3 = length y) as H3
      by (apply Hf, length_vadd; now rewrite length_vscale).
  rewrite (stage_vector y k3) by exact H3.
  set (k4 := f (t + h) _ params).
  assert (length k4 = length y) as H4
      by (apply Hf, length_vadd; now rewrite length_vscale).
  assert (length (RK4Spec.vadd k1 (RK4Spec.vscale 2 k2)) = length y) as H12
      by (rewrite length_vadd; rewrite ?length_vscale; congruence).
  assert (length (RK4Spec.vadd (RK4Spec.vadd k1 (RK4Spec.vscale 2 k2))
                               (RK4Spec.vscale 2 k3)) = length y) as H123
      by (rewrite length_vadd; rewrite ?length_vscale; congruence).
  set (K := RK4Spec.vadd (RK4Spec.vadd (RK4Spec.vadd k1 (RK4Spec.vscale 2 k2))
                                        (RK4Spec.vscale 2 k3)) k4).
  assert (length K = length y) as HK
      by (unfold K; rewrite length_vadd; congruence).
  rewrite <- (stage_vector y K) by exact HK.
  apply idx_ext; [now rewrite !length_map_index|].
  intros i Hi. rewrite length_map_index in Hi.
  rewrite !idx_map_index by auto. do 2 f_equal.
  unfold K.
  rewrite idx_vadd by (rewrite ?H123, ?H4; lia).
  rewrite idx_vadd by (rewrite ?H12, ?length_vscale, ?H3; lia).
  rewrite idx_vadd by (rewrite ?H1, ?length_vscale, ?H2; lia).
  now rewrite !idx_vscale by lia.
Qed.

Lemma rocketODEs_length pw t y p : length (rocketODEs pw t y p) = 4%nat.
Proof.
  unfold rocketODEs. destruct (_ <=? 0); [reflexivity|].
  destruct (_ <=? 0); reflexivity.
Qed.

(** The integrator on the first step of the default flight. *)
Lemma C1_witness :
  rk4Step (rocketODEs pow_ref) 0 [0; 0; 0.3405; 2.64e-4] dt (params 0.33 0.4 60) =
  RK4Spec.rk4_formula (rocketODEs pow_ref) 0 [0; 0; 0.3405; 2.64e-4] dt (params 0.33 0.4 60) /\
  length (rk4Step (rocketODEs pow_ref) 0 [0; 0; 0.3405; 2.64e-4] dt (params 0.33 0.4 60)) =
  length [0; 0; 0.3405; 2.64e-4].
Proof.
  apply (C1_rk4Step_formula (rocketODEs pow_ref)).
  intros t' y' _. apply rocketODEs_length.
Defined.

(** ** Water and mass along a run *)

Lemma same_number_refl x : same_number x x = true.
Proof. unfold same_number, is_nan. destruct (x =? x); reflexivity. Qed.

Lemma same_number_eqb x y : same_number x y = true -> is_nan y = false -> (x =? y) = true.
Proof.
  unfold same_number. intros H Hy. apply orb_true_iff in H. destruct H as [H | H]; auto.
  apply andb_true_iff in H. destruct H as [_ H]. congruence.
Qed.

Lemma same_number_trans x y z :
  same_number x y = true -> same_number y z = true -> same_number x z = true.
Proof.
  unfold same_number. intros Hxy Hyz.
  apply orb_true_iff in Hxy. apply orb_true_iff in Hyz. apply orb_true_iff.
  destruct Hxy as [Hxy | Hxy], Hyz as [Hyz | Hyz].
  - left. apply FloatOrder.eqb_cmp in Hxy, Hyz. apply FloatOrder.eqb_cmp.
    eapply FloatOrder.SFcompare_eq_trans; eauto.
  - apply FloatOrder.eqb_leb, FloatOrder.leb_not_nan in Hxy.
    apply andb_true_iff in Hyz. destruct Hxy, Hyz. congruence.
  - apply FloatOrder.eqb_leb, FloatOrder.leb_not_nan in Hyz.
    apply andb_true_iff in Hxy. destruct Hxy, Hyz. congruence.
  - right. apply andb_true_iff in Hxy, Hyz. apply andb_true_iff. tauto.
Qed.

Lemma add_zero_cases x :
  x + 0 = x \/ (Prim2SF x = S754_zero true /\ Prim2SF (x + 0) = S754_zero false).
Proof.
  destruct (FloatArith.SFadd_zero (Prim2SF x)) as [H | [H1 H2]].
  - left. apply Prim2SF_inj. now rewrite add_spec, FloatArith.Prim2SF_zero.
  - right. split; auto. now rewrite add_spec, FloatArith.Prim2SF_zero.
Qed.

Lemma add_zero_same x : same_number (x + 0) x = true.
Proof.
  destruct (add_zero_cases x) as [-> | [H1 H2]]; [apply same_number_refl|].
  unfold same_number. rewrite eqb_spec, H1, H2. reflexivity.
Qed.

Lemma add_zero_leb x : (x <=? 0) = true -> (x + 0 <=? 0) = true.
Proof.
  destruct (add_zero_cases x) as [-> | [H1 H2]]; auto.
  intros _. rewrite leb_spec, H2. reflexivity.
Qed.

(** A component whose derivative is never positive never grows in a step. *)
Lemma rk4Step_not_above {P : Type} (f : float -> list float -> P -> list float)
    t y h (p : P) i :
  (i < length y)%nat ->
  (0 <=? h / 6) = true ->
  (forall t' y', (0 <? idx (f t' y' p) i) = false) ->
  (idx y i <? idx (rk4Step f t y h p) i) = false.
Proof.
  intros Hi Hh Hf. unfold rk4Step. rewrite idx_map_index by exact Hi.
  apply FloatArith.add_not_above, FloatArith.mul_not_pos; [exact Hh|].
  repeat apply FloatArith.add_not_pos;
    try (apply FloatArith.mul_not_pos; [reflexivity|]); apply Hf.
Qed.

Section FlightFacts.

Variable Math_pow : float -> float -> float.
Variables fillRatio dragCoefficient pressurePSI : float.

Local Abbreviation state := (stateAfter Math_pow fillRatio dragCoefficient pressurePSI).
Local Abbreviation odes := (rocketODEs Math_pow).

(** With the water gone, mass and water volume have derivative [0]. *)
Lemma ode_burnt t y p :
  (idx y 3 <=? 0) = true -> idx (odes t y p) 2 = 0 /\ idx (odes t y p) 3 = 0.
Proof. intros H. unfold rocketODEs. rewrite H. split; reflexivity. Qed.

(** In every regime the derivatives of mass and water volume are not
    positive: they are [0], or a positive constant times [-A_nozzle] times
    a square root. *)
Lemma ode_rates t y p :
  (0 <=? A_nozzle Math_pow) = true ->
  (0 <? idx (odes t y p) 2) = false /\ (0 <? idx (odes t y p) 3) = false.
Proof.
  intros HA. unfold rocketODEs.
  destruct (idx y 3 <=? 0); [split; reflexivity|].
  destruct (_ <=? 0); [split; reflexivity|].
  unfold idx at 1 6. cbn [nth].
  match goal with
  | |- _ /\ (0 <? ?dV) = false =>
      assert ((0 <? dV) = false) as H
  end.
  { apply FloatArith.mul_neg_not_pos; [now apply FloatArith.opp_nonpos|].
    apply FloatArith.sqrt_not_neg. }
  split; [|exact H]. apply FloatArith.mul_not_pos; [reflexivity | exact H].
Qed.

(** A step that starts with the water gone adds [0] to mass and water
    volume: all four stages are in the free-flight regime. *)
Lemma rk4Step_frozen t y p :
  length y = 4%nat -> (idx y 3 <=? 0) = true ->
  idx (rk4Step odes t y dt p) 2 = idx y 2 + 0 /\
  idx (rk4Step odes t y dt p) 3 = idx y 3 + 0.
Proof.
  intros Hl Hb. unfold rk4Step. cbv zeta. rewrite !idx_map_index by lia.
  destruct (ode_burnt t y p Hb) as [H12 H13].
  set (k1 := odes t y p) in *.
  set (y2 := map_index (fun yi i => yi + dt / 2 * idx k1 i) y).
  assert ((idx y2 3 <=? 0) = true) as Hb2.
  { unfold y2. rewrite idx_map_index by lia. rewrite H13.
    change (dt / 2 * 0) with 0. now apply add_zero_leb. }
  destruct (ode_burnt (t + dt / 2) y2 p Hb2) as [H22 H23].
  set (k2 := odes (t + dt / 2) y2 p) in *.
  set (y3 := map_index (fun yi i => yi + dt / 2 * idx k2 i) y).
  assert ((idx y3 3 <=? 0) = true) as Hb3.
  { unfold y3. rewrite idx_map_index by lia. rewrite H23.
    change (dt / 2 * 0) with 0. now apply add_zero_leb. }
  destruct (ode_burnt (t + dt / 2) y3 p Hb3) as [H32 H33].
  set (k3 := odes (t + dt / 2) y3 p) in *.
  set (y4 := map_index (fun yi i => yi + dt * idx k3 i) y).
  assert ((idx y4 3 <=? 0) = true) as Hb4.
  { unfold y4. rewrite idx_map_index by lia. rewrite H33.
    change (dt * 0) with 0. now apply add_zero_leb. }
  destruct (ode_burnt (t + dt) y4 p Hb4) as [H42 H43].
  set (k4 := odes (t + dt) y4 p) in *.
  rewrite H12, H13, H22, H23, H32, H33, H42, H43.
  split; reflexivity.
Qed.

Lemma length_state k : length (sim_y (state k)) = 4%nat.
Proof.
  induction k as [|k IH]; [reflexivity|].
  rewrite sim_y_state. unfold rk4Step. now rewrite length_map_index.
Qed.

Lemma water_step k :
  (0 <=? A_nozzle Math_pow) = true ->
  (waterVolume (state k) <? waterVolume (state (S k))) = false /\
  (mass (state k) <? mass (state (S k))) = false.
Proof.
  intros HA. unfold waterVolume, mass. rewrite sim_y_state.
  split; apply rk4Step_not_above; try reflexivity;
    try (rewrite length_state; lia); intros t' y'; now apply ode_rates.
Qed.

Lemma frozen_step k :
  burnt (state k) = true ->
  waterVolume (state (S k)) = waterVolume (state k) + 0 /\
  mass (state (S k)) = mass (state k) + 0.
Proof.
  intros Hb. unfold waterVolume, mass. rewrite sim_y_state.
  destruct (rk4Step_frozen (sim_t (state k)) (sim_y (state k))
              (params fillRatio dragCoefficient pressurePSI)
              (length_state k) Hb) as [H2 H3].
  auto.
Qed.

Lemma frozen_from k j :
  (k <= j)%nat -> burnt (state k) = true ->
  burnt (state j) = true /\
  same_number (waterVolume (state j)) (waterVolume (state k)) = true /\
  same_number (mass (state j)) (mass (state k)) = true.
Proof.
  intros Hkj Hb. induction j as [|j IH].
  - assert (k = 0)%nat as -> by lia. auto using same_number_refl.
  - destruct (Nat.eq_dec k (S j)) as [-> | Hne]; [auto using same_number_refl|].
    destruct (IH ltac:(lia)) as (Hbj & Hw & Hm).
    destruct (frozen_step j Hbj) as [HW HM].
    split; [|split].
    + unfold burnt. rewrite HW. now apply add_zero_leb.
    + rewrite HW. eapply same_number_trans; [apply add_zero_same | exact Hw].
    + rewrite HM. eapply same_number_trans; [apply add_zero_same | exact Hm].
Qed.

(** In every regime the mass rate is the density of water times the rate
    of the water volume. *)
Lemma ode_mass_rate t y p :
  idx (odes t y p) 2 = CONSTANTS.rho_water * idx (odes t y p) 3.
Proof.
  unfold rocketODEs. destruct (idx y 3 <=? 0); [reflexivity|].
  destruct (_ <=? 0); reflexivity.
Qed.

(** A step advances the water volume by the combination of four stage
    rates, and the mass by the same combination of the same rates, each
    multiplied by the density of water. *)
Lemma mass_follows_water k :
  (0 <=? A_nozzle Math_pow) = true ->
  exists w1 w2 w3 w4,
    (0 <? w1) = false /\ (0 <? w2) = false /\ (0 <? w3) = false /\ (0 <? w4) = false /\
    waterVolume (state (S k)) =
      waterVolume (state k) + dt / 6 * (w1 + 2 * w2 + 2 * w3 + w4) /\
    mass (state (S k)) =
      mass (state k) +
      dt / 6 * (CONSTANTS.rho_water * w1 + 2 * (CONSTANTS.rho_water * w2) +
                2 * (CONSTANTS.rho_water * w3) + CONSTANTS.rho_water * w4).
Proof.
  intros HA. unfold waterVolume, mass. rewrite sim_y_state.
  unfold rk4Step. cbv zeta. rewrite !idx_map_index by (rewrite length_state; lia).
  rewrite !ode_mass_rate.
  eexists _, _, _, _.
  split; [|split; [|split; [|split; [|split; reflexivity]]]]; now apply ode_rates.
Qed.

(** C3, as the program has it.  The mass starts at the empty mass plus the
    mass of the water and never increases from a step to the next.  Every
    step advances the water volume by [dt/6 (w1 + 2 w2 + 2 w3 + w4)] for
    four stage rates that are not positive, and the mass by the same
    combination of the same rates, each multiplied by the density of
    water: the mass follows the water volume, below zero too.  From a step
    that ends with [waterVolume <= 0] on, the mass keeps the value it has
    at that step; nothing makes that value the empty mass. *)
Theorem C3_mass_monotone_then_frozen :
  (0 <=? A_nozzle Math_pow) = true ->
  exists N,
    simulate Math_pow fillRatio dragCoefficient pressurePSI = Some (state N) /\
    runSimulation Math_pow fillRatio dragCoefficient pressurePSI =
      Some (sim_res (state N)) /\
    mass (state 0) =
      CONSTANTS.mass_empty + CONSTANTS.rho_water * (fillRatio * CONSTANTS.tank_volume) /\
    (forall k, (k < N)%nat -> (mass (state k) <? mass (state (S k))) = false) /\
    (forall k j, (k <= j <= N)%nat -> (waterVolume (state k) <=? 0) = true ->
       same_number (mass (state j)) (mass (state k)) = true) /\
    (forall k, (k < N)%nat ->
       exists w1 w2 w3 w4,
         (0 <? w1) = false /\ (0 <? w2) = false /\
         (0 <? w3) = false /\ (0 <? w4) = false /\
         waterVolume (state (S k)) =
           waterVolume (state k) + dt / 6 * (w1 + 2 * w2 + 2 * w3 + w4) /\
         mass (state (S k)) =
           mass (state k) +
           dt / 6 * (CONSTANTS.rho_water * w1 + 2 * (CONSTANTS.rho_water * w2) +
                     2 * (CONSTANTS.rho_water * w3) + CONSTANTS.rho_water * w4)).
Proof.
  intros HA.
  destruct (run_shape Math_pow fillRatio dragCoefficient pressurePSI)
    as (N & _ & Hsim & _).
  exists N. split; [exact Hsim|].
  split; [unfold runSimulation; now rewrite Hsim|]. split; [reflexivity|].
  split; [|split].
  - intros k _. now apply water_step.
  - intros k j Hkj Hb. apply (frozen_from k j); [lia | exact Hb].
  - intros k _. now apply mass_follows_water.
Qed.

(** C4, as the program has it.  The water volume never increases from a
    step to the next; from a step that ends with [waterVolume <= 0] on, it
    stays [<= 0] and keeps the value it has at that step -- the value the
    last powered step overshot to, negative in general, not 0. *)
Theorem C4_water_monotone_then_frozen :
  (0 <=? A_nozzle Math_pow) = true ->
  exists N,
    simulate Math_pow fillRatio dragCoefficient pressurePSI = Some (state N) /\
    runSimulation Math_pow fillRatio dragCoefficient pressurePSI =
      Some (sim_res (state N)) /\
    waterVolume (state 0) = fillRatio * CONSTANTS.tank_volume /\
    (forall k, (k < N)%nat ->
       (waterVolume (state k) <? waterVolume (state (S k))) = false) /\
    (forall k j, (k <= j <= N)%nat -> (waterVolume (state k) <=? 0) = true ->
       (waterVolume (state j) <=? 0) = true /\
       (waterVolume (state j) =? waterVolume (state k)) = true).
Proof.
  intros HA.
  destruct (run_shape Math_pow fillRatio dragCoefficient pressurePSI)
    as (N & _ & Hsim & _).
  exists N. split; [exact Hsim|].
  split; [unfold runSimulation; now rewrite Hsim|]. split; [reflexivity|]. split.
  - intros k _. now apply water_step.
  - intros k j Hkj Hb.
    destruct (frozen_from k j ltac:(lia) Hb) as (Hbj & Hw & _).
    split; [exact Hbj|]. apply same_number_eqb; [exact Hw|].
    apply (FloatOrder.leb_not_nan _ _ Hb).
Qed.

End FlightFacts.

(** ** Runs evaluated with the reference [Math.pow] *)

(** C2 as stated fails on a full bottle.  With [fillRatio = 1] the initial air
    volume is [8e-4 - 8e-4 = 0], the first pressure ratio is [0/0], and the
    first step yields NaN in every component.  The loop is left after that
    single step, at time 0.002: the altitude is not [<= 0] and the time does
    not exceed 15 s.  Nor does the loop wait for a liftoff: at 0.1 psi the
    rocket never rises, the altitude is negative after the first step, and
    the run stops there. *)
Lemma C2_counterexample :
  simulate pow_ref 1 0.4 60 = Some (stateAfter pow_ref 1 0.4 60 1) /\
  sim_y (stateAfter pow_ref 1 0.4 60 1) = [nan; nan; nan; nan] /\
  (altitude (stateAfter pow_ref 1 0.4 60 1) <=? 0) = false /\
  sim_t (stateAfter pow_ref 1 0.4 60 1) = 0.002 /\
  (t_max <? sim_t (stateAfter pow_ref 1 0.4 60 1)) = false /\
  simulate pow_ref 0.33 0.4 0.1 = Some (stateAfter pow_ref 0.33 0.4 0.1 1) /\
  (altitude (stateAfter pow_ref 0.33 0.4 0.1 1) <? 0) = true /\
  maxH (sim_res (stateAfter pow_ref 0.33 0.4 0.1 1)) = 0.
Proof. vm_compute. repeat split. Qed.

(** C3 as stated fails on the default flight (fill ratio 0.33, drag
    coefficient 0.4, 60 psi).  The run has 2716 steps.  Step 11 is the
    first that ends with the water gone: the last powered step overshoots
    to a negative water volume, and the mass, which follows the water, ends
    below 0.07 kg, under the empty mass of 0.0765 kg, where it stays to the
    end of the run.  It is the empty mass plus the density of water times
    that negative volume to within [1e-16] kg, and not exactly. *)
Lemma C3_counterexample :
  simulate pow_ref 0.33 0.4 60 = Some (stateAfter pow_ref 0.33 0.4 60 2716) /\
  (waterVolume (stateAfter pow_ref 0.33 0.4 60 10) <=? 0) = false /\
  (waterVolume (stateAfter pow_ref 0.33 0.4 60 11) <=? 0) = true /\
  (mass (stateAfter pow_ref 0.33 0.4 60 11) <? 0.07) = true /\
  (mass (stateAfter pow_ref 0.33 0.4 60 11) <? CONSTANTS.mass_empty) = true /\
  mass (stateAfter pow_ref 0.33 0.4 60 12) = mass (stateAfter pow_ref 0.33 0.4 60 11) /\
  mass (stateAfter pow_ref 0.33 0.4 60 2716) = mass (stateAfter pow_ref 0.33 0.4 60 11) /\
  (Math_abs (mass (stateAfter pow_ref 0.33 0.4 60 11) -
             (CONSTANTS.mass_empty +
              CONSTANTS.rho_water * waterVolume (stateAfter pow_ref 0.33 0.4 60 11)))
   <? 1e-16) = true /\
  (mass (stateAfter pow_ref 0.33 0.4 60 11) =?
   CONSTANTS.mass_empty +
   CONSTANTS.rho_water * waterVolume (stateAfter pow_ref 0.33 0.4 60 11)) = false.
Proof. vm_compute. repeat split. Qed.

(** C4 as stated fails on the same flight: the water volume goes from
    more than [1e-5] at step 10 to less than [-6e-6] at step 11 without ever
    being 0, and keeps that negative value at every later step. *)
Lemma C4_counterexample :
  simulate pow_ref 0.33 0.4 60 = Some (stateAfter pow_ref 0.33 0.4 60 2716) /\
  (1e-5 <? waterVolume (stateAfter pow_ref 0.33 0.4 60 10)) = true /\
  (waterVolume (stateAfter pow_ref 0.33 0.4 60 11) <? -6e-6) = true /\
  (waterVolume (stateAfter pow_ref 0.33 0.4 60 11) =? 0) = false /\
  waterVolume (stateAfter pow_ref 0.33 0.4 60 12) =
    waterVolume (stateAfter pow_ref 0.33 0.4 60 11) /\
  waterVolume (stateAfter pow_ref 0.33 0.4 60 2716) =
    waterVolume (stateAfter pow_ref 0.33 0.4 60 11).
Proof. vm_compute. repeat split. Qed.

(** C6 as stated fails at 0.1 psi (drag coefficient 0.4): the thrust never
    exceeds the weight, every simulation of the sweep ends after one step
    with maximum altitude 0, and the result is the initial pair: ratio 0.33,
    not the ratio 0.05 of the first sample attaining the maximum 0. *)
Lemma C6_counterexample :
  exists res,
    findOptimal pow_ref 0.4 0.1 = Some res /\
    bestH res = 0 /\
    forallb (fun p => gp_maxH p =? 0) (data res) = true /\
    first_attaining (bestH res) (data res) = Some 0.05 /\
    bestRatio res = 0.33 /\
    (0.05 =? 0.33) = false.
Proof. eexists. vm_compute. repeat split. Qed.

(** C10 as stated fails on its side remark: at 0.1 psi every altitude of
    the curve is 0 and the best ratio is the default 0.33, and 0.33 is a
    point of the swept grid -- the ratio of the 15th sample. *)
Lemma C10_counterexample :
  exists res,
    findOptimal pow_ref 0.4 0.1 = Some res /\
    forallb (fun p => gp_maxH p =? 0) (data res) = true /\
    bestRatio res = 0.33 /\
    option_map ratio (nth_error (data res) 14) = Some 0.33 /\
    existsb (fun p => ratio p =? bestRatio res) (data res) = true.
Proof. eexists. vm_compute. repeat split. Qed.

(** The default flight satisfies the hypothesis of C3 and C4: with the
    reference [Math.pow] the nozzle area is 5.3e-4. *)
Lemma C3_witness :
  exists N,
    simulate pow_ref 0.33 0.4 60 = Some (stateAfter pow_ref 0.33 0.4 60 N) /\
    runSimulation pow_ref 0.33 0.4 60 = Some (sim_res (stateAfter pow_ref 0.33 0.4 60 N)) /\
    mass (stateAfter pow_ref 0.33 0.4 60 0) =
      CONSTANTS.mass_empty + CONSTANTS.rho_water * (0.33 * CONSTANTS.tank_volume) /\
    (forall k, (k < N)%nat ->
       (mass (stateAfter pow_ref 0.33 0.4 60 k) <?
        mass (stateAfter pow_ref 0.33 0.4 60 (S k))) = false) /\
    (forall k j, (k <= j <= N)%nat ->
       (waterVolume (stateAfter pow_ref 0.33 0.4 60 k) <=? 0) = true ->
       same_number (mass (stateAfter pow_ref 0.33 0.4 60 j))
                   (mass (stateAfter pow_ref 0.33 0.4 60 k)) = true) /\
    (forall k, (k < N)%nat ->
       exists w1 w2 w3 w4,
         (0 <? w1) = false /\ (0 <? w2) = false /\
         (0 <? w3) = false /\ (0 <? w4) = false /\
         waterVolume (stateAfter pow_ref 0.33 0.4 60 (S k)) =
           waterVolume (stateAfter pow_ref 0.33 0.4 60 k) +
           dt / 6 * (w1 + 2 * w2 + 2 * w3 + w4) /\
         mass (stateAfter pow_ref 0.33 0.4 60 (S k)) =
           mass (stateAfter pow_ref 0.33 0.4 60 k) +
           dt / 6 * (CONSTANTS.rho_water * w1 + 2 * (CONSTANTS.rho_water * w2) +
                     2 * (CONSTANTS.rho_water * w3) + CONSTANTS.rho_water * w4)).
Proof.
  apply (C3_mass_monotone_then_frozen pow_ref 0.33 0.4 60).
  vm_compute. reflexivity.
Defined.

Lemma C4_witness :
  exists N,
    simulate pow_ref 0.33 0.4 60 = Some (stateAfter pow_ref 0.33 0.4 60 N) /\
    runSimulation pow_ref 0.33 0.4 60 = Some (sim_res (stateAfter pow_ref 0.33 0.4 60 N)) /\
    waterVolume (stateAfter pow_ref 0.33 0.4 60 0) = 0.33 * CONSTANTS.tank_volume /\
    (forall k, (k < N)%nat ->
       (waterVolume (stateAfter pow_ref 0.33 0.4 60 k) <?
        waterVolume (stateAfter pow_ref 0.33 0.4 60 (S k))) = false) /\
    (forall k j, (k <= j <= N)%nat ->
       (waterVolume (stateAfter pow_ref 0.33 0.4 60 k) <=? 0) = true ->
       (waterVolume (stateAfter pow_ref 0.33 0.4 60 j) <=? 0) = true /\
       (waterVolume (stateAfter pow_ref 0.33 0.4 60 j) =?
        waterVolume (stateAfter pow_ref 0.33 0.4 60 k)) = true).
Proof.
  apply (C4_water_monotone_then_frozen pow_ref 0.33 0.4 60).
  vm_compute. reflexivity.
Defined.

(** * The rest of the program

    Facts about what the claims do not cover: the bookkeeping of a run, the
    forces of the flight model, the result of the sweep, and the scales,
    paths and curve the component computes for its two plots. *)

(** ** More binary64 arithmetic: NaN, signs of products and quotients *)

Module FloatMore.

Local Open Scope float_scope.

Import FloatShape.

(** *** NaN is absorbing *)

Lemma nan_of_SF x : Prim2SF x = S754_nan -> x = nan.
Proof. intros H. apply Prim2SF_inj. rewrite H. reflexivity. Qed.

Lemma add_nan_l x : nan + x = nan.
Proof. apply nan_of_SF. rewrite add_spec. reflexivity. Qed.

Lemma add_nan_r x : x + nan = nan.
Proof.
  apply nan_of_SF. rewrite add_spec. change (Prim2SF nan) with S754_nan.
  destruct (Prim2SF x) as [[]|[]| |[] m e]; reflexivity.
Qed.

Lemma mul_nan_r x : x * nan = nan.
Proof.
  apply nan_of_SF. rewrite mul_spec. change (Prim2SF nan) with S754_nan.
  destruct (Prim2SF x) as [[]|[]| |[] m e]; reflexivity.
Qed.

(** *** Signs of products and quotients *)

Lemma ltb_zero_pos m : (0 <? m) = true <-> pos_SF (Prim2SF m).
Proof.
  rewrite ltb_spec, FloatArith.Prim2SF_zero. unfold SFltb.
  destruct (Prim2SF m) as [[]|[]| |[] p e]; cbn; split; intros; try tauto; congruence.
Qed.

Lemma SFmul_np_nn x y :
  not_pos_SF x -> not_neg_SF y -> not_pos_SF (SF64mul x y).
Proof.
  destruct x as [sx|sx| |sx mx ex], y as [sy|sy| |sy my ey]; cbn; intros Hx Hy;
    subst; auto.
  apply FloatArith.signed_not_pos, FloatArith.binary_round_aux_signed.
Qed.

Lemma SFmul_np_np x y :
  not_pos_SF x -> not_pos_SF y -> not_neg_SF (SF64mul x y).
Proof.
  destruct x as [sx|sx| |sx mx ex], y as [sy|sy| |sy my ey]; cbn; intros Hx Hy;
    subst; auto.
  apply FloatArith.signed_not_neg, FloatArith.binary_round_aux_signed.
Qed.

Lemma SFmul_nn_nn x y :
  not_neg_SF x -> not_neg_SF y -> not_neg_SF (SF64mul x y).
Proof.
  destruct x as [sx|sx| |sx mx ex], y as [sy|sy| |sy my ey]; cbn; intros Hx Hy;
    subst; auto.
  apply FloatArith.signed_not_neg, FloatArith.binary_round_aux_signed.
Qed.

Lemma SFdiv_signed s x y :
  match x, y with
  | S754_finite sx _ _, S754_finite sy _ _ => xorb sx sy = s
  | _, _ => True
  end ->
  match x, y with
  | S754_finite _ _ _, S754_finite _ _ _ => signed s (SF64div x y)
  | _, _ => True
  end.
Proof.
  destruct x as [sx|sx| |sx mx ex], y as [sy|sy| |sy my ey]; auto.
  intros <-. unfold SF64div, SFdiv.
  destruct (SFdiv_core_binary _ _ _ _ _ _) as [[mz ez] lz].
  apply FloatArith.binary_round_aux_signed.
Qed.

Lemma SFdiv_np x m : not_pos_SF x -> pos_SF m -> not_pos_SF (SF64div x m).
Proof.
  destruct x as [sx|sx| |sx mx ex], m as [sm|sm| |sm mm em]; cbn; intros Hx Hm;
    subst; auto; try tauto.
  apply FloatArith.signed_not_pos.
  exact (SFdiv_signed true (S754_finite true mx ex) (S754_finite false mm em) eq_refl).
Qed.

Lemma SFdiv_nn x m : not_neg_SF x -> pos_SF m -> not_neg_SF (SF64div x m).
Proof.
  destruct x as [sx|sx| |sx mx ex], m as [sm|sm| |sm mm em]; cbn; intros Hx Hm;
    subst; auto; try tauto.
  apply FloatArith.signed_not_neg.
  exact (SFdiv_signed false (S754_finite false mx ex) (S754_finite false mm em) eq_refl).
Qed.

Lemma SFabs_nn x : not_neg_SF (SFabs x).
Proof. destruct x; cbn; auto. Qed.

Lemma mul_np_nn x y : (0 <? x) = false -> (y <? 0) = false -> (0 <? x * y) = false.
Proof.
  rewrite !FloatArith.ltb_zero_l, FloatArith.ltb_zero_r, mul_spec. apply SFmul_np_nn.
Qed.

Lemma mul_np_np x y : (0 <? x) = false -> (0 <? y) = false -> (x * y <? 0) = false.
Proof.
  rewrite !FloatArith.ltb_zero_l, FloatArith.ltb_zero_r, mul_spec. apply SFmul_np_np.
Qed.

Lemma mul_nn_nn x y : (x <? 0) = false -> (y <? 0) = false -> (x * y <? 0) = false.
Proof. rewrite !FloatArith.ltb_zero_r, mul_spec. apply SFmul_nn_nn. Qed.

Lemma div_np x m : (0 <? x) = false -> (0 <? m) = true -> (0 <? x / m) = false.
Proof. rewrite !FloatArith.ltb_zero_l, ltb_zero_pos, div_spec. apply SFdiv_np. Qed.

Lemma div_nn x m : (x <? 0) = false -> (0 <? m) = true -> (x / m <? 0) = false.
Proof. rewrite !FloatArith.ltb_zero_r, ltb_zero_pos, div_spec. apply SFdiv_nn. Qed.

Lemma abs_nn x : (abs x <? 0) = false.
Proof. rewrite FloatArith.ltb_zero_r, abs_spec. apply SFabs_nn. Qed.

(** *** Adding a number that is not negative *)

Lemma SFadd_not_below x d :
  valid_binary x = true -> not_neg_SF d -> SFltb (SF64add x d) x = false.
Proof.
  intros Hx Hd.
  destruct d as [sd|sd| |sd md ed]; cbn in Hd; subst.
  - destruct x as [[]|[]| |[] m e], sd; reflexivity || (cbn; unfold SFltb; cbn;
      rewrite ?Z.compare_refl, ?Pos.compare_cont_refl; reflexivity).
  - destruct x as [[]|[]| |[] m e]; reflexivity.
  - destruct x as [[]|[]| |[] m e]; reflexivity.
  - destruct x as [sx|sx| |sx mx ex];
      [destruct sx; reflexivity | destruct sx; reflexivity | reflexivity |].
    cbn in Hx. apply andb_true_iff in Hx. destruct Hx as [Hcan Hmax].
    apply Z.eqb_eq in Hcan. apply Z.leb_le in Hmax.
    unfold SF64add, SFadd.
    set (ez := Z.min ex ed).
    destruct (Rounding.shl_align_spec mx ex ez) as [_ HX].
    destruct (Rounding.shl_align_spec md ed ez) as [_ HY].
    replace (Z.min ex ez) with ez in HX by (unfold ez; lia).
    replace (Z.min ed ez) with ez in HY by (unfold ez; lia).
    assert (0 < 2 ^ (ed - ez))%Z as Hpow by (apply Rounding.pow2_pos; unfold ez; lia).
    set (X' := fst (shl_align mx ex ez)) in *.
    set (Y' := fst (shl_align md ed ez)) in *.
    assert (ez <= ex)%Z as Hez by (unfold ez; lia).
    destruct sx; cbn [cond_Zopp].
    + destruct (- Zpos X' + Zpos Y')%Z as [|M|M] eqn:E; cbn [binary_normalize].
      * reflexivity.
      * pose proof (FloatArith.binary_round_signed false M ez) as Hs.
        destruct (binary_round prec emax false M ez) as [s'|s'| |s' m' e'];
          cbn in Hs; subst; reflexivity.
      * destruct (Rounding.round_shrink true M ez mx ex Hcan Hmax Hez ltac:(lia))
          as [-> | (m3 & e3 & -> & Hlex)]; [reflexivity|].
        unfold SFltb. cbn [SFcompare].
        destruct Hlex as [Hlt | [-> Hle]].
        -- apply Z.compare_lt_iff in Hlt. now rewrite Hlt.
        -- rewrite Z.compare_refl.
           change (Pos.compare_cont Eq m3 mx) with (Pos.compare m3 mx).
           destruct (Pos.compare_spec m3 mx); try reflexivity. lia.
    + change (Zpos X' + Zpos Y')%Z with (Zpos (X' + Y')).
      cbn [binary_normalize].
      destruct (Rounding.round_grow false (X' + Y') ez mx ex Hcan Hez ltac:(lia))
        as [-> | (m3 & e3 & -> & Hlex)]; [reflexivity|].
      unfold SFltb. cbn [SFcompare].
      destruct Hlex as [Hlt | [-> Hle]].
      * apply Z.compare_gt_iff in Hlt. now rewrite Hlt.
      * rewrite Z.compare_refl. change (Pos.compare_cont Eq m3 mx) with (Pos.compare m3 mx).
        destruct (Pos.compare_spec m3 mx); try reflexivity. lia.
Qed.

Lemma add_not_below x d : (d <? 0) = false -> (x + d <? x) = false.
Proof.
  rewrite FloatArith.ltb_zero_r, ltb_spec, add_spec. apply SFadd_not_below, Prim2SF_valid.
Qed.

End FloatMore.

(** ** Rounding a mantissa with a location

    [round_shrink] and [round_grow] for [binary_round_aux], which products
    and quotients are rounded with. *)

Module RoundAux.
Import Rounding.
Local Open Scope Z_scope.

Lemma aux_shrink s M ez l mx ex :
  fexp64 (Zpos (digits2_pos mx) + ex) = ex ->
  ex <= emax - prec ->
  ez <= ex ->
  Zpos M < Zpos mx * 2 ^ (ex - ez) ->
  binary_round_aux prec emax s (Zpos M) ez l = S754_zero s \/
  exists m3 e3,
    binary_round_aux prec emax s (Zpos M) ez l = S754_finite s m3 e3 /\
    (e3 < ex \/ (e3 = ex /\ Zpos m3 <= Zpos mx)).
Proof.
  intros Hcan Hmax Hez HM.
  destruct (binary_round_aux_spec s (Zpos M) ez l ltac:(lia)) as (m2 & H). cbv zeta in H.
  destruct H as (Hb & Hr).
  set (F := Z.max ez (fexp64 (Zdigits2 (Zpos M) + ez))) in *.
  set (e3 := Z.max F (fexp64 (Zdigits2 m2 + F))) in *.
  assert (F <= ex) as HF.
  { unfold F. apply Z.max_lub; [exact Hez|].
    rewrite <- Hcan. apply fexp64_mono.
    assert (Zdigits2 (Zpos M) <= Zdigits2 (Zpos mx * 2 ^ (ex - ez))) as Hd
        by (apply Zdigits2_mono; lia).
    rewrite Zdigits2_shift in Hd by lia. cbn [Zdigits2] in *. lia. }
  assert (ez <= F) as HezF by (unfold F; lia).
  set (B := Zpos mx * 2 ^ (ex - F)).
  set (m1 := Zpos M / 2 ^ (F - ez)) in *.
  assert (0 <= m1 < B) as Hm1.
  { unfold m1. split.
    + apply Z.div_pos; [lia | apply pow2_pos; lia].
    + apply Z.div_lt_upper_bound; [apply pow2_pos; lia|].
      unfold B. replace (ex - ez) with ((F - ez) + (ex - F)) in HM by lia.
      rewrite pow2_split in HM by lia. lia. }
  assert (0 <= m2 <= B) as Hm2 by lia.
  assert (e3 <= ex) as He3.
  { unfold e3. apply Z.max_lub; auto. rewrite <- Hcan. apply fexp64_mono.
    assert (Zdigits2 m2 <= Zdigits2 B) as Hd by (apply Zdigits2_mono; lia).
    unfold B in Hd. rewrite Zdigits2_shift in Hd by lia. cbn [Zdigits2] in Hd. lia. }
  assert (F <= e3) as HFe3 by (unfold e3; lia).
  assert (0 <= m2 / 2 ^ (e3 - F)) as Hm3
      by (apply Z.div_pos; [lia | apply pow2_pos; lia]).
  assert (e3 = ex -> m2 / 2 ^ (e3 - F) <= Zpos mx) as Hm3le.
  { intros ->. replace (Zpos mx) with (B / 2 ^ (ex - F)).
    - apply Z.div_le_mono; [apply pow2_pos; lia | lia].
    - unfold B. apply Z.div_mul. pose proof (pow2_pos (ex - F) ltac:(lia)). lia. }
  rewrite Hr. unfold FloatShape.finish.
  destruct (m2 / 2 ^ (e3 - F)) as [|p|p] eqn:E; [now left | | lia].
  right. exists p, e3.
  assert ((e3 <=? emax - prec) = true) as -> by (apply Z.leb_le; lia).
  split; auto. destruct (Z.eq_dec e3 ex) as [Heq | Hne]; [right | left; lia].
  split; auto.
Qed.

Lemma aux_grow s M ez l mx ex :
  fexp64 (Zpos (digits2_pos mx) + ex) = ex ->
  ez <= ex ->
  Zpos mx * 2 ^ (ex - ez) <= Zpos M ->
  binary_round_aux prec emax s (Zpos M) ez l = S754_infinity s \/
  exists m3 e3,
    binary_round_aux prec emax s (Zpos M) ez l = S754_finite s m3 e3 /\
    (ex < e3 \/ (e3 = ex /\ Zpos mx <= Zpos m3)).
Proof.
  intros Hcan Hez HM.
  destruct (binary_round_aux_spec s (Zpos M) ez l ltac:(lia)) as (m2 & H). cbv zeta in H.
  destruct H as (Hb & Hr).
  set (F := Z.max ez (fexp64 (Zdigits2 (Zpos M) + ez))) in *.
  set (e3 := Z.max F (fexp64 (Zdigits2 m2 + F))) in *.
  assert (-1074 <= ex) as Hemin by (rewrite <- Hcan, fexp64_eq; lia).
  assert (ex <= F) as HF.
  { transitivity (fexp64 (Zdigits2 (Zpos M) + ez)); [|unfold F; lia].
    rewrite <- Hcan. apply fexp64_mono.
    assert (Zdigits2 (Zpos mx * 2 ^ (ex - ez)) <= Zdigits2 (Zpos M)) as Hd
        by (apply Zdigits2_mono; pose proof (pow2_pos (ex - ez) ltac:(lia)); nia).
    rewrite Zdigits2_shift in Hd by lia. cbn [Zdigits2] in *. lia. }
  assert (0 < Zpos M / 2 ^ (F - ez) /\
          (F = ex -> Zpos mx <= Zpos M / 2 ^ (F - ez))) as [Hm1 Hm1x].
  { destruct (Z.eq_dec F ex) as [HFx | Hne].
    - rewrite HFx.
      assert (Zpos mx <= Zpos M / 2 ^ (ex - ez)); [|split; auto; lia].
      apply Z.div_le_lower_bound; [apply pow2_pos; lia | lia].
    - split; [|lia].
      assert (F = Zpos (digits2_pos M) + ez - 53) as HFeq.
      { unfold F in *. cbn [Zdigits2] in *. rewrite fexp64_eq in *. lia. }
      assert (2 ^ 52 <= Zpos M / 2 ^ (F - ez)); [|lia].
      apply Z.div_le_lower_bound; [apply pow2_pos; lia|].
      rewrite <- pow2_split by lia.
      replace (F - ez + 52) with (Zpos (digits2_pos M) - 1) by lia.
      apply digits2_pos_bounds. }
  assert (0 < m2) as Hm2 by lia.
  assert (F <= e3) as HFe3 by (unfold e3; lia).
  assert (0 < m2 / 2 ^ (e3 - F) /\ (e3 = F -> m2 / 2 ^ (e3 - F) = m2)) as [Hm3 Hm3eq].
  { destruct (Z.eq_dec e3 F) as [HeF | Hne].
    - rewrite HeF, Z.sub_diag, Z.pow_0_r, Z.div_1_r. auto.
    - split; [|lia].
      assert (e3 = Zdigits2 m2 + F - 53) as He3eq
          by (unfold e3 in *; rewrite fexp64_eq in *; lia).
      assert (2 ^ 52 <= m2 / 2 ^ (e3 - F)); [|lia].
      apply Z.div_le_lower_bound; [apply pow2_pos; lia|].
      rewrite <- pow2_split by lia.
      replace (e3 - F + 52) with (Zdigits2 m2 - 1) by lia.
      now apply Zdigits2_bounds. }
  rewrite Hr. unfold FloatShape.finish.
  destruct (m2 / 2 ^ (e3 - F)) as [|p|p] eqn:E; try lia.
  destruct (e3 <=? emax - prec); [|now left].
  right. exists p, e3. split; auto.
  destruct (Z.eq_dec e3 ex) as [Heq | Hne]; [right | left; lia].
  split; auto. assert (e3 = F) as HeF by lia.
  specialize (Hm3eq HeF). specialize (Hm1x ltac:(lia)). lia.
Qed.

End RoundAux.

(** ** Bounds of quotients, products, sums and differences *)

Module FloatBounds.

Import FloatShape Rounding.
Local Open Scope Z_scope.

Lemma canonical_bounds m e :
  fexp64 (Zpos (digits2_pos m) + e) = e ->
  -1074 <= e /\ Zpos m < 2 ^ 53 /\ (-1074 < e -> 2 ^ 52 <= Zpos m).
Proof.
  intros H. rewrite fexp64_eq in H.
  pose proof (digits2_pos_bounds m) as [Hlo Hhi].
  set (d := Zpos (digits2_pos m)) in *.
  assert (0 < d) by (unfold d; lia).
  split; [lia|]. split.
  - apply Z.lt_le_trans with (2 ^ d); [exact Hhi|]. apply Z.pow_le_mono_r; lia.
  - intros He. assert (d = 53) as Hd by lia. rewrite Hd in Hlo. exact Hlo.
Qed.

Lemma lt_values mx ex my ey :
  fexp64 (Zpos (digits2_pos mx) + ex) = ex ->
  fexp64 (Zpos (digits2_pos my) + ey) = ey ->
  ex < ey \/ (ex = ey /\ Zpos mx < Zpos my) ->
  ex <= ey /\ Zpos mx < Zpos my * 2 ^ (ey - ex).
Proof.
  intros Hx Hy [Hlt | [-> Hlt]].
  - destruct (canonical_bounds mx ex Hx) as (Hmin & Hhi & _).
    destruct (canonical_bounds my ey Hy) as (_ & _ & Hlo). specialize (Hlo ltac:(lia)).
    split; [lia|].
    assert (2 ^ 1 <= 2 ^ (ey - ex)) by (apply Z.pow_le_mono_r; lia).
    assert (2 ^ 53 = 2 ^ 52 * 2 ^ 1) as E by reflexivity.
    rewrite E in Hhi. nia.
  - split; [lia|]. rewrite Z.sub_diag, Z.pow_0_r. lia.
Qed.

Lemma le_values mx ex my ey :
  fexp64 (Zpos (digits2_pos mx) + ex) = ex ->
  fexp64 (Zpos (digits2_pos my) + ey) = ey ->
  ex < ey \/ (ex = ey /\ Zpos mx <= Zpos my) ->
  ex <= ey /\ Zpos mx <= Zpos my * 2 ^ (ey - ex).
Proof.
  intros Hx Hy [Hlt | [-> Hle]].
  - destruct (lt_values mx ex my ey Hx Hy (or_introl Hlt)). lia.
  - split; [lia|]. rewrite Z.sub_diag, Z.pow_0_r. lia.
Qed.

(** Two positive numbers compared: equal, or in the order of their
    exponents and then of their mantissas. *)
Lemma not_above_cases mx ex my ey :
  SFltb (S754_finite false my ey) (S754_finite false mx ex) = false ->
  (ex = ey /\ mx = my) \/ ex < ey \/ (ex = ey /\ Zpos mx < Zpos my).
Proof.
  unfold SFltb, SFcompare.
  change (Pos.compare_cont Eq my mx) with (Pos.compare my mx).
  destruct (Z.compare_spec ey ex); [|intros; discriminate | intros; lia].
  destruct (Pos.compare_spec my mx); [auto | intros; discriminate | intros; lia].
Qed.

Lemma below_cases mx ex my ey :
  ex < ey \/ (ex = ey /\ Zpos mx <= Zpos my) ->
  SFltb (S754_finite false my ey) (S754_finite false mx ex) = false.
Proof.
  unfold SFltb, SFcompare.
  change (Pos.compare_cont Eq my mx) with (Pos.compare my mx).
  destruct (Z.compare_spec ey ex); try lia; auto.
  destruct (Pos.compare_spec my mx); try lia; auto.
Qed.

Lemma div_eucl_div a b : Z.div_eucl a b = (a / b, a mod b).
Proof. unfold Z.div, Z.modulo. destruct (Z.div_eucl a b); reflexivity. Qed.

(** [x / x = 1] for a finite [x] that is not zero. *)
Lemma SFdiv_self m e :
  SF64div (S754_finite false m e) (S754_finite false m e) = SF_one.
Proof.
  unfold SF64div, SFdiv, SFdiv_core_binary.
  replace (Zdigits2 (Zpos m) + e - (Zdigits2 (Zpos m) + e)) with 0 by lia.
  rewrite Z.sub_diag.
  change (Z.min (fexp prec emax 0) 0) with (-53).
  change (0 - -53) with 53. cbv iota beta zeta.
  rewrite Z.shiftl_mul_pow2 by lia.
  rewrite div_eucl_div, (Z.mul_comm (Zpos m)), Z.div_mul, Z.mod_mul by lia.
  unfold new_location. destruct (Z.even (Zpos m)); reflexivity.
Qed.

(** A quotient of positive numbers, the smaller by the larger, is not
    above one. *)
Lemma SFdiv_below_one mt et md ed :
  fexp64 (Zpos (digits2_pos mt) + et) = et ->
  fexp64 (Zpos (digits2_pos md) + ed) = ed ->
  et <= ed -> Zpos mt < Zpos md * 2 ^ (ed - et) ->
  SFltb SF_one (SF64div (S754_finite false mt et) (S754_finite false md ed)) = false.
Proof.
  intros Ht Hd Hle Hlt.
  unfold SF64div, SFdiv, SFdiv_core_binary. cbn [xorb].
  set (d1 := Zdigits2 (Zpos mt)). set (d2 := Zdigits2 (Zpos md)).
  set (e' := Z.min (fexp prec emax (d1 + et - (d2 + ed))) (et - ed)).
  set (s := et - ed - e').
  assert (d1 + et <= d2 + ed) as Hdig.
  { assert (Zdigits2 (Zpos mt) <= Zdigits2 (Zpos md * 2 ^ (ed - et))) as H
        by (apply Zdigits2_mono; lia).
    rewrite Zdigits2_shift in H by lia. unfold d1, d2. lia. }
  assert (e' <= -53) as He'.
  { unfold e'. etransitivity; [apply Z.le_min_l|].
    change (-53) with (fexp64 0). apply fexp64_mono. lia. }
  assert (0 <= s) as Hs by (unfold s, e'; lia).
  set (m' := match s with
             | 0 => Zpos mt
             | Zpos _ => Z.shiftl (Zpos mt) s
             | Zneg _ => 0
             end).
  assert (m' = Zpos mt * 2 ^ s) as Hm'.
  { unfold m'. destruct s eqn:Es;
      [now rewrite Z.mul_1_r | now rewrite Z.shiftl_mul_pow2 by lia | lia]. }
  rewrite div_eucl_div.
  set (l := new_location _ _).
  pose proof (pow2_pos s Hs) as Hpow.
  assert (0 <= m' / Zpos md < 2 ^ (- e')) as Hq.
  { split; [apply Z.div_pos; lia|].
    apply Z.div_lt_upper_bound; [lia|]. rewrite Hm'.
    replace (- e') with ((ed - et) + s) by (unfold s; lia).
    rewrite pow2_split by lia. nia. }
  destruct (m' / Zpos md) as [|M|M] eqn:Eq; [| |lia].
  - destruct (binary_round_aux_spec false 0 e' l ltac:(lia)) as (m2 & Hb & Hr).
    cbv zeta in Hb, Hr. rewrite Hr. clear Hr.
    change (Zdigits2 0) with 0 in *. rewrite Z.div_0_l in Hb
      by (apply Z.pow_nonzero; lia).
    set (E := Z.max e' (fexp64 (0 + e'))) in *.
    assert (-1074 <= E <= -53) as HE by (unfold E; rewrite fexp64_eq; lia).
    assert (m2 = 0 \/ m2 = 1) as [-> | ->] by lia.
    + rewrite Z.div_0_l by (apply Z.pow_nonzero; lia). reflexivity.
    + change (Zdigits2 1) with 1.
      assert (Z.max E (fexp64 (1 + E)) = E) as -> by (rewrite fexp64_eq; lia).
      rewrite Z.sub_diag. change (1 / 2 ^ 0) with 1. unfold finish.
      assert ((E <=? emax - prec) = true) as -> by (apply Z.leb_le; unfold emax, prec; lia).
      apply below_cases. lia.
  - destruct (RoundAux.aux_shrink false M e' l 4503599627370496 (-52) eq_refl
                ltac:(unfold emax, prec; lia) ltac:(lia))
      as [-> | (m3 & e3 & -> & Hlex)]; [|reflexivity|].
    + replace (-52 - e') with (- e' - 52) by lia.
      assert (2 ^ (- e') = 2 ^ 52 * 2 ^ (- e' - 52)) as E'
          by (rewrite <- pow2_split by lia; f_equal; lia).
      change (Zpos 4503599627370496) with (2 ^ 52). lia.
    + apply below_cases. lia.
Qed.

Lemma SFdiv_unit T D :
  valid_binary T = true -> valid_binary D = true ->
  not_neg_SF T -> pos_SF D -> SFltb D T = false ->
  SFltb SF_one (SF64div T D) = false.
Proof.
  intros HvT HvD HT HD Hle.
  destruct T as [[]|[]| |[] mt et], D as [[]|[]| |[] md ed]; cbn in HT, HD;
    try tauto; try reflexivity; try discriminate.
  cbn in HvT, HvD.
  {
    apply andb_true_iff in HvT. destruct HvT as [Hct _]. apply Z.eqb_eq in Hct.
    apply andb_true_iff in HvD. destruct HvD as [Hcd _]. apply Z.eqb_eq in Hcd.
    destruct (not_above_cases mt et md ed Hle) as [[-> ->] | Hlt].
    + rewrite SFdiv_self. reflexivity.
    + destruct (lt_values mt et md ed Hct Hcd Hlt) as [H1 H2].
      now apply SFdiv_below_one. }
Qed.

(** A product of a number between zero and one with a positive number is
    not above that number. *)
Lemma SFmul_unit Q mc ec :
  valid_binary Q = true -> not_neg_SF Q -> SFltb SF_one Q = false ->
  fexp64 (Zpos (digits2_pos mc) + ec) = ec -> ec <= emax - prec ->
  SF64mul SF_one (S754_finite false mc ec) = S754_finite false mc ec ->
  SFltb (S754_finite false mc ec) (SF64mul Q (S754_finite false mc ec)) = false.
Proof.
  intros HvQ HQ Hle Hcc Hmax Hone.
  destruct Q as [[]|[]| |[] mq eq]; cbn in HQ; try reflexivity; try discriminate.
  { cbn in HvQ. apply andb_true_iff in HvQ. destruct HvQ as [Hcq _].
    apply Z.eqb_eq in Hcq.
    destruct (not_above_cases mq eq _ _ Hle) as [[-> ->] | Hlt].
    + fold SF_one. rewrite Hone. apply below_cases. lia.
    + destruct (lt_values mq eq 4503599627370496%positive (-52) Hcq eq_refl Hlt) as [H1 H2].
      unfold SF64mul, SFmul. cbn [xorb].
      destruct (RoundAux.aux_shrink false (mq * mc) (eq + ec) loc_Exact mc ec Hcc Hmax
                  ltac:(lia))
        as [-> | (m3 & e3 & -> & Hlex)]; [|reflexivity|].
      * replace (ec - (eq + ec)) with (- eq) by lia.
        assert (2 ^ (- eq) = 2 ^ 52 * 2 ^ (-52 - eq)) as E'
            by (rewrite <- pow2_split by lia; f_equal; lia).
        change (Zpos 4503599627370496) with (2 ^ 52) in H2.
        rewrite Pos2Z.inj_mul. nia.
      * apply below_cases. lia. }
Qed.

Lemma pow2_shift a b c : c <= b -> b <= a -> 2 ^ (a - c) = 2 ^ (a - b) * 2 ^ (b - c).
Proof. intros. rewrite <- pow2_split by lia. f_equal. lia. Qed.

(** A sum [a + p] with [p] not above [b] is not above the number [a + b],
    when that sum is exact. *)
Lemma SFadd_bound ma ea mb eb ms es P :
  fexp64 (Zpos (digits2_pos ms) + es) = es -> es <= emax - prec ->
  fexp64 (Zpos (digits2_pos mb) + eb) = eb ->
  Z.min ea eb <= es ->
  Zpos ma * 2 ^ (ea - Z.min ea eb) + Zpos mb * 2 ^ (eb - Z.min ea eb) =
    Zpos ms * 2 ^ (es - Z.min ea eb) ->
  SFltb (S754_finite false ms es) (S754_finite false ma ea) = false ->
  SF64add (S754_finite false ma ea) (S754_finite false mb eb) = S754_finite false ms es ->
  valid_binary P = true -> not_neg_SF P ->
  SFltb (S754_finite false mb eb) P = false ->
  SFltb (S754_finite false ms es) (SF64add (S754_finite false ma ea) P) = false.
Proof.
  intros Hcs Hmax Hcb He1 Hsum HaS Hexact HvP HP Hle.
  destruct P as [[]|[]| |[] mp ep]; cbn in HP; try exact HaS; try reflexivity;
    try discriminate.
  cbn in HvP. apply andb_true_iff in HvP. destruct HvP as [Hcp _]. apply Z.eqb_eq in Hcp.
  destruct (not_above_cases mp ep mb eb Hle) as [[-> ->] | Hlt].
  - rewrite Hexact. apply below_cases. lia.
  - destruct (lt_values mp ep mb eb Hcp Hcb Hlt) as [H1 H2].
    unfold SF64add, SFadd.
    set (e1 := Z.min ea eb) in *.
    set (ez := Z.min ea ep).
    destruct (shl_align_spec ma ea ez) as [_ HX].
    destruct (shl_align_spec mp ep ez) as [_ HY].
    replace (Z.min ea ez) with ez in HX by (unfold ez; lia).
    replace (Z.min ep ez) with ez in HY by (unfold ez; lia).
    set (X' := fst (shl_align ma ea ez)) in *.
    set (Y' := fst (shl_align mp ep ez)) in *.
    cbn [cond_Zopp]. change (Zpos X' + Zpos Y') with (Zpos (X' + Y')).
    cbn [binary_normalize].
    assert (ez <= e1) as Hez by (unfold ez, e1; lia).
    assert (ez <= ea /\ ez <= ep /\ e1 <= ea /\ e1 <= eb) as (? & ? & ? & ?)
        by (unfold ez, e1; lia).
    pose proof (pow2_pos (e1 - ez) ltac:(lia)) as Hk.
    pose proof (pow2_pos (ep - ez) ltac:(lia)) as Hk'.
    assert (Zpos (X' + Y') < Zpos ms * 2 ^ (es - ez)) as Hbound.
    { rewrite Pos2Z.inj_add, HX, HY.
      rewrite (pow2_shift es e1 ez), (pow2_shift ea e1 ez) by lia.
      assert (Zpos mp * 2 ^ (ep - ez) < Zpos mb * 2 ^ (eb - e1) * 2 ^ (e1 - ez)) as Hp.
      { rewrite <- Z.mul_assoc, <- pow2_shift by lia.
        rewrite (pow2_shift eb ep ez) by lia. nia. }
      nia. }
    destruct (round_shrink false (X' + Y') ez ms es Hcs Hmax ltac:(lia) Hbound)
      as [-> | (m3 & e3 & -> & Hlex)]; [reflexivity|].
    apply below_cases. lia.
Qed.

End FloatBounds.

Module FloatBounds2.

Import FloatShape Rounding FloatBounds.
Local Open Scope Z_scope.

(** [round_grow] for a mantissa given at any exponent. *)
Lemma round_grow_gen s M ez mx ex :
  fexp64 (Zpos (digits2_pos mx) + ex) = ex ->
  Zpos mx * 2 ^ (ex - Z.min ex ez) <= Zpos M * 2 ^ (ez - Z.min ex ez) ->
  binary_round prec emax s M ez = S754_infinity s \/
  exists m3 e3,
    binary_round prec emax s M ez = S754_finite s m3 e3 /\
    (ex < e3 \/ (e3 = ex /\ Zpos mx <= Zpos m3)).
Proof.
  intros Hcan HM.
  destruct (Z.le_gt_cases ez ex) as [Hle | Hgt].
  { apply round_grow; auto.
    replace (Z.min ex ez) with ez in HM by lia.
    now rewrite Z.sub_diag, Z.pow_0_r, Z.mul_1_r in HM. }
  replace (Z.min ex ez) with ex in HM by lia.
  rewrite Z.sub_diag, Z.pow_0_r, Z.mul_1_r in HM.
  destruct (binary_round_spec s M ez) as (m1 & m2 & H). cbv zeta in H.
  destruct H as (H1 & H2 & Hb & Hr).
  set (F := fexp64 (Zpos (digits2_pos M) + ez)) in *.
  set (e3 := Z.max F (fexp64 (Zdigits2 m2 + F))) in *.
  assert (-1074 <= ex) as Hemin by (rewrite <- Hcan, fexp64_eq; lia).
  assert (ex <= F) as HF.
  { rewrite <- Hcan. apply fexp64_mono.
    assert (Zdigits2 (Zpos mx) <= Zdigits2 (Zpos M * 2 ^ (ez - ex))) as Hd
        by (apply Zdigits2_mono; lia).
    rewrite Zdigits2_shift in Hd by lia. cbn [Zdigits2] in Hd. lia. }
  assert (0 < m1 /\ (F = ex -> Zpos mx <= m1)) as [Hm1 Hm1x].
  { destruct (Z.le_gt_cases ez F) as [HeF | HFe].
    - rewrite (H1 HeF). split; [|lia].
      assert (F = Zpos (digits2_pos M) + ez - 53) as HFeq
          by (unfold F in *; rewrite fexp64_eq in *; lia).
      assert (2 ^ 52 <= Zpos M / 2 ^ (F - ez)); [|lia].
      apply Z.div_le_lower_bound; [apply pow2_pos; lia|].
      rewrite <- pow2_split by lia.
      replace (F - ez + 52) with (Zpos (digits2_pos M) - 1) by lia.
      apply digits2_pos_bounds.
    - rewrite (H2 ltac:(lia)). pose proof (pow2_pos (ez - F) ltac:(lia)).
      split; [nia|]. intros ->. exact HM. }
  assert (0 < m2) as Hm2 by lia.
  assert (F <= e3) as HFe3 by (unfold e3; lia).
  assert (0 < m2 / 2 ^ (e3 - F) /\ (e3 = F -> m2 / 2 ^ (e3 - F) = m2)) as [Hm3 Hm3eq].
  { destruct (Z.eq_dec e3 F) as [HeF | Hne].
    - rewrite HeF, Z.sub_diag, Z.pow_0_r, Z.div_1_r. auto.
    - split; [|lia].
      assert (e3 = Zdigits2 m2 + F - 53) as He3eq
          by (unfold e3 in *; rewrite fexp64_eq in *; lia).
      assert (2 ^ 52 <= m2 / 2 ^ (e3 - F)); [|lia].
      apply Z.div_le_lower_bound; [apply pow2_pos; lia|].
      rewrite <- pow2_split by lia.
      replace (e3 - F + 52) with (Zdigits2 m2 - 1) by lia.
      now apply Zdigits2_bounds. }
  rewrite Hr. unfold FloatShape.finish.
  destruct (m2 / 2 ^ (e3 - F)) as [|p|p] eqn:E; try lia.
  destruct (e3 <=? emax - prec); [|now left].
  right. exists p, e3. split; auto.
  destruct (Z.eq_dec e3 ex) as [Heq | Hne]; [right | left; lia].
  split; auto. assert (e3 = F) as HeF by lia.
  specialize (Hm3eq HeF). specialize (Hm1x ltac:(lia)). lia.
Qed.

Lemma above_cases mx ex my ey :
  ex < ey \/ (ex = ey /\ Zpos mx <= Zpos my) ->
  SFltb (S754_finite false my ey) (S754_finite false mx ex) = false.
Proof. apply below_cases. Qed.

(** A difference [a - p] with [p] not above [b] is not below the number
    [a - b], when that difference is exact. *)
Lemma SFsub_bound ma ea mb eb ml el P :
  fexp64 (Zpos (digits2_pos ml) + el) = el ->
  fexp64 (Zpos (digits2_pos mb) + eb) = eb ->
  Zpos ma * 2 ^ (ea - Z.min (Z.min ea eb) el) =
    Zpos mb * 2 ^ (eb - Z.min (Z.min ea eb) el) +
    Zpos ml * 2 ^ (el - Z.min (Z.min ea eb) el) ->
  SFltb (S754_finite false ma ea) (S754_finite false ml el) = false ->
  SF64sub (S754_finite false ma ea) (S754_finite false mb eb) = S754_finite false ml el ->
  valid_binary P = true -> not_neg_SF P ->
  SFltb (S754_finite false mb eb) P = false ->
  SFltb (SF64sub (S754_finite false ma ea) P) (S754_finite false ml el) = false.
Proof.
  intros Hcl Hcb Hdiff HLa Hexact HvP HP Hle.
  destruct P as [[]|[]| |[] mp ep]; cbn in HP; try exact HLa; try reflexivity;
    try discriminate.
  cbn in HvP. apply andb_true_iff in HvP. destruct HvP as [Hcp _]. apply Z.eqb_eq in Hcp.
  destruct (not_above_cases mp ep mb eb Hle) as [[-> ->] | Hlt].
  - rewrite Hexact. apply below_cases. lia.
  - destruct (lt_values mp ep mb eb Hcp Hcb Hlt) as [H1 H2].
    unfold SF64sub, SFsub.
    set (e1 := Z.min (Z.min ea eb) el) in *.
    set (ez := Z.min ea ep).
    destruct (shl_align_spec ma ea ez) as [_ HX].
    destruct (shl_align_spec mp ep ez) as [_ HY].
    replace (Z.min ea ez) with ez in HX by (unfold ez; lia).
    replace (Z.min ep ez) with ez in HY by (unfold ez; lia).
    set (X' := fst (shl_align ma ea ez)) in *.
    set (Y' := fst (shl_align mp ep ez)) in *.
    cbn [cond_Zopp].
    set (e0 := Z.min el ez).
    set (e00 := Z.min e1 ez).
    assert (ez <= ea /\ ez <= ep) as [? ?] by (unfold ez; lia).
    assert (e1 <= ea /\ e1 <= eb /\ e1 <= el) as (? & ? & ?) by (unfold e1; lia).
    assert (e0 <= el /\ e0 <= ez) as [? ?] by (unfold e0; lia).
    assert (e00 <= e1 /\ e00 <= ez) as [? ?] by (unfold e00; lia).
    assert (e00 <= e0) by (unfold e00, e0; lia).
    pose proof (pow2_pos (e1 - e00) ltac:(lia)) as Hk1.
    pose proof (pow2_pos (ez - e00) ltac:(lia)) as Hk2.
    pose proof (pow2_pos (e0 - e00) ltac:(lia)) as Hk3.
    pose proof (pow2_pos (ep - e00) ltac:(lia)) as Hk4.
    assert (Zpos ml * 2 ^ (el - e00) <
            (Zpos X' - Zpos Y') * 2 ^ (ez - e00)) as Hbound.
    { rewrite HX, HY, Z.mul_sub_distr_r.
      rewrite <- !Z.mul_assoc, <- !pow2_shift by lia.
      assert (Zpos mp * 2 ^ (ep - e00) < Zpos mb * 2 ^ (eb - e00)) as Hp.
      { rewrite (pow2_shift eb ep e00), Z.mul_assoc by lia.
        apply Z.mul_lt_mono_pos_r; [exact Hk4 | exact H2]. }
      assert (Zpos ma * 2 ^ (ea - e00) =
              Zpos mb * 2 ^ (eb - e00) + Zpos ml * 2 ^ (el - e00)) as Hd.
      { rewrite (pow2_shift ea e1 e00), (pow2_shift eb e1 e00), (pow2_shift el e1 e00)
          by lia.
        rewrite !Z.mul_assoc, Hdiff. ring. }
      lia. }
    assert (0 < Zpos X' - Zpos Y') as Hpos.
    { apply (Z.mul_pos_cancel_r _ (2 ^ (ez - e00)) Hk2).
      pose proof (Z.mul_pos_pos (Zpos ml) (2 ^ (el - e00)) ltac:(lia)
                    (pow2_pos (el - e00) ltac:(lia))).
      lia. }
    destruct (Zpos X' - Zpos Y') as [|M|M] eqn:E; try lia.
    cbn [binary_normalize].
    assert (Zpos ml * 2 ^ (el - e0) <= Zpos M * 2 ^ (ez - e0)) as HV.
    { rewrite (pow2_shift el e0 e00), (pow2_shift ez e0 e00), !Z.mul_assoc in Hbound
        by lia.
      apply Z.mul_lt_mono_pos_r in Hbound; [lia | exact Hk3]. }
    destruct (round_grow_gen false M ez ml el Hcl HV)
      as [-> | (m3 & e3 & -> & Hlex)]; [reflexivity|].
    apply below_cases. lia.
Qed.

Lemma SFsub_add_opp x y : SF64sub x y = SF64add x (SFopp y).
Proof.
  destruct x as [[]|[]| |[] mx ex], y as [[]|[]| |[] my ey]; reflexivity.
Qed.

End FloatBounds2.

(** ** The same bounds on floats, and [Math.max] *)

Module FloatFrame.

Import FloatShape FloatBounds FloatBounds2.

Lemma valid_finite x s m e :
  Prim2SF x = S754_finite s m e ->
  fexp64 (Zpos (digits2_pos m) + e) = e /\ (e <= emax - prec)%Z.
Proof.
  intros H. pose proof (Prim2SF_valid x) as Hv. rewrite H in Hv. cbn in Hv.
  apply andb_true_iff in Hv. destruct Hv as [H1 H2].
  apply Z.eqb_eq in H1. apply Z.leb_le in H2. auto.
Qed.

Lemma div_unit t d :
  (t <? 0) = false -> (d <? t) = false -> (0 <? d) = true ->
  (t / d <? 0) = false /\ (1 <? t / d) = false.
Proof.
  intros Ht Hle Hd. split; [now apply FloatMore.div_nn|].
  rewrite ltb_spec, div_spec. change (Prim2SF 1) with SF_one.
  apply SFdiv_unit; try apply Prim2SF_valid.
  - now apply FloatArith.ltb_zero_r.
  - now apply FloatMore.ltb_zero_pos.
  - now rewrite <- ltb_spec.
Qed.

Lemma mul_unit q c mc ec :
  Prim2SF c = S754_finite false mc ec -> 1 * c = c ->
  (q <? 0) = false -> (1 <? q) = false ->
  (q * c <? 0) = false /\ (c <? q * c) = false.
Proof.
  intros Hc H1 Hq Hle. destruct (valid_finite c _ _ _ Hc) as [Hcc Hmax]. split.
  - apply FloatMore.mul_nn_nn; [exact Hq|].
    rewrite FloatArith.ltb_zero_r, Hc. reflexivity.
  - rewrite ltb_spec, mul_spec, Hc.
    apply SFmul_unit; auto; try apply Prim2SF_valid.
    + now apply FloatArith.ltb_zero_r.
    + change SF_one with (Prim2SF 1). now rewrite <- ltb_spec.
    + change SF_one with (Prim2SF 1). now rewrite <- Hc, <- mul_spec, H1.
Qed.

Lemma add_bound a b s p ma ea mb eb ms es :
  Prim2SF a = S754_finite false ma ea ->
  Prim2SF b = S754_finite false mb eb ->
  Prim2SF s = S754_finite false ms es ->
  a + b = s -> (s <? a) = false ->
  (Z.min ea eb <= es)%Z ->
  (Zpos ma * 2 ^ (ea - Z.min ea eb) + Zpos mb * 2 ^ (eb - Z.min ea eb) =
   Zpos ms * 2 ^ (es - Z.min ea eb))%Z ->
  (p <? 0) = false -> (b <? p) = false -> (s <? a + p) = false.
Proof.
  intros Ha Hb Hs Hsum Hsa He Heq Hp Hle.
  destruct (valid_finite s _ _ _ Hs) as [Hcs Hmax].
  destruct (valid_finite b _ _ _ Hb) as [Hcb _].
  rewrite ltb_spec, add_spec, Hs, Ha.
  apply (SFadd_bound ma ea mb eb ms es); auto; try apply Prim2SF_valid.
  - rewrite <- Hs, <- Ha, <- ltb_spec. exact Hsa.
  - rewrite <- Hs, <- Ha, <- Hb, <- add_spec, Hsum. reflexivity.
  - now apply FloatArith.ltb_zero_r.
  - rewrite <- Hb, <- ltb_spec. exact Hle.
Qed.

Lemma sub_bound a b l p ma ea mb eb ml el :
  Prim2SF a = S754_finite false ma ea ->
  Prim2SF b = S754_finite false mb eb ->
  Prim2SF l = S754_finite false ml el ->
  a - b = l -> (a <? l) = false ->
  (Zpos ma * 2 ^ (ea - Z.min (Z.min ea eb) el) =
   Zpos mb * 2 ^ (eb - Z.min (Z.min ea eb) el) +
   Zpos ml * 2 ^ (el - Z.min (Z.min ea eb) el))%Z ->
  (p <? 0) = false -> (b <? p) = false -> (a - p <? l) = false.
Proof.
  intros Ha Hb Hl Hdiff Hal Heq Hp Hle.
  destruct (valid_finite l _ _ _ Hl) as [Hcl _].
  destruct (valid_finite b _ _ _ Hb) as [Hcb _].
  rewrite ltb_spec, sub_spec, Hl, Ha.
  apply (SFsub_bound ma ea mb eb ml el); auto; try apply Prim2SF_valid.
  - rewrite <- Hl, <- Ha, <- ltb_spec. exact Hal.
  - rewrite <- Hl, <- Ha, <- Hb, <- sub_spec, Hdiff. reflexivity.
  - now apply FloatArith.ltb_zero_r.
  - rewrite <- Hb, <- ltb_spec. exact Hle.
Qed.

Lemma SFopp_not_pos P : not_neg_SF P -> not_pos_SF (SFopp P).
Proof. destruct P as [[]|[]| |[] m e]; cbn; auto; discriminate. Qed.

Lemma sub_not_above x p : (p <? 0) = false -> (x <? x - p) = false.
Proof.
  rewrite FloatArith.ltb_zero_r, ltb_spec, sub_spec, SFsub_add_opp. intros Hp.
  apply FloatArith.SFadd_not_above; [apply Prim2SF_valid | now apply SFopp_not_pos].
Qed.

(** A product with a factor at least one is not below the other factor. *)
Lemma SFmul_grow X mc ec :
  valid_binary X = true -> nonneg_SF X ->
  (ec <= 0)%Z -> (2 ^ (- ec) <= Zpos mc)%Z ->
  SFleb X (SF64mul X (S754_finite false mc ec)) = true.
Proof.
  intros Hv HX Hec Hmc.
  destruct X as [[]|[]| |[] mx ex]; cbn in HX; try discriminate; try tauto;
    try reflexivity.
  cbn in Hv. apply andb_true_iff in Hv. destruct Hv as [Hcan _]. apply Z.eqb_eq in Hcan.
  unfold SF64mul, SFmul. cbn [xorb].
  destruct (RoundAux.aux_grow false (mx * mc) (ex + ec) loc_Exact mx ex Hcan
              ltac:(lia))
    as [-> | (m3 & e3 & -> & Hlex)]; [|reflexivity|].
  - replace (ex - (ex + ec))%Z with (- ec)%Z by lia. rewrite Pos2Z.inj_mul. nia.
  - unfold SFleb, SFcompare.
    change (Pos.compare_cont Eq mx m3) with (Pos.compare mx m3).
    destruct (Z.compare_spec ex e3); try lia; auto.
    destruct (Pos.compare_spec mx m3); try lia; auto.
Qed.

Lemma mul_grow x c mc ec :
  Prim2SF c = S754_finite false mc ec ->
  (ec <= 0)%Z -> (2 ^ (- ec) <= Zpos mc)%Z ->
  (0 <=? x) = true -> (x <=? x * c) = true.
Proof.
  intros Hc Hec Hmc Hx. rewrite leb_spec, mul_spec, Hc.
  apply SFmul_grow; auto; [apply Prim2SF_valid | now apply FloatArith.leb_zero_l].
Qed.

(** [0 / d = 0] for a positive [d]. *)
Lemma div_zero d : (0 <? d) = true -> 0 / d = 0.
Proof.
  intros Hd. apply Prim2SF_inj. rewrite div_spec.
  apply FloatMore.ltb_zero_pos in Hd.
  change (Prim2SF 0) with (S754_zero false).
  destruct (Prim2SF d) as [[]|[]| |[] m e]; cbn in Hd; try tauto; try discriminate;
    reflexivity.
Qed.

(** *** [Math.max] *)

Lemma Math_max_ge a b :
  is_nan a = false -> is_nan b = false ->
  is_nan (Math_max a b) = false /\
  (a <=? Math_max a b) = true /\ (b <=? Math_max a b) = true.
Proof.
  intros Ha Hb. unfold Math_max. rewrite Ha, Hb. cbn [orb].
  destruct (a <? b) eqn:E1.
  - repeat split; auto using FloatOrder.ltb_leb, FloatOrder.leb_refl.
  - destruct (b <? a) eqn:E2.
    + repeat split; auto using FloatOrder.ltb_leb, FloatOrder.leb_refl.
    + pose proof (FloatOrder.not_ltb_leb _ _ Ha Hb E1).
      pose proof (FloatOrder.not_ltb_leb _ _ Hb Ha E2).
      destruct (get_sign a); repeat split; auto using FloatOrder.leb_refl.
Qed.

Lemma Math_max_le a b c :
  (a <=? c) = true -> (b <=? c) = true -> (Math_max a b <=? c) = true.
Proof.
  intros Ha Hb. unfold Math_max.
  destruct (FloatOrder.leb_not_nan _ _ Ha) as [-> _].
  destruct (FloatOrder.leb_not_nan _ _ Hb) as [-> _]. cbn [orb].
  destruct (a <? b); auto. destruct (b <? a); auto. destruct (get_sign a); auto.
Qed.

Lemma Math_max_list_ge l :
  forall acc,
    is_nan acc = false -> Forall (fun x => is_nan x = false) l ->
    is_nan (fold_left Math_max l acc) = false /\
    (acc <=? fold_left Math_max l acc) = true /\
    Forall (fun x => (x <=? fold_left Math_max l acc) = true) l.
Proof.
  induction l as [|x l IH]; intros acc Hacc Hl; cbn [fold_left].
  - repeat split; auto using FloatOrder.leb_refl.
  - inversion Hl as [|? ? Hx Hl']; subst.
    destruct (Math_max_ge acc x Hacc Hx) as (Hn & H1 & H2).
    destruct (IH (Math_max acc x) Hn Hl') as (Hn' & H3 & H4).
    repeat split; auto.
    + eapply FloatOrder.leb_trans; eauto.
    + constructor; auto. eapply FloatOrder.leb_trans; eauto.
Qed.

Lemma Math_max_list_le l c :
  forall acc,
    (acc <=? c) = true -> Forall (fun x => (x <=? c) = true) l ->
    (fold_left Math_max l acc <=? c) = true.
Proof.
  induction l as [|x l IH]; intros acc Hacc Hl; cbn [fold_left]; auto.
  inversion Hl; subst. apply IH; auto. now apply Math_max_le.
Qed.

End FloatFrame.

(** ** The bookkeeping of a run *)

Lemma Math_max_cases a b : Math_max a b = nan \/ Math_max a b = a \/ Math_max a b = b.
Proof.
  unfold Math_max. destruct (is_nan a || is_nan b); auto.
  destruct (a <? b); auto. destruct (b <? a); auto. destruct (get_sign a); auto.
Qed.

Lemma ltb_nan_r x : (x <? nan) = false.
Proof.
  rewrite ltb_spec. change (Prim2SF nan) with S754_nan. unfold SFltb.
  destruct (Prim2SF x) as [[]|[]| |[] m e]; reflexivity.
Qed.

Lemma truthy_pos t : (0 <? t) = true -> truthy t = true.
Proof.
  intros H. unfold truthy.
  destruct (FloatOrder.ltb_not_nan _ _ H) as [_ ->]. cbn [orb].
  destruct (t =? 0) eqn:E; [|reflexivity].
  apply FloatOrder.eqb_leb in E.
  rewrite (FloatOrder.leb_not_ltb _ _ E) in H. discriminate.
Qed.




Section ApogeeFacts.

Variable Math_pow : float -> float -> float.
Variables fillRatio dragCoefficient pressurePSI : float.

Local Abbreviation body := (sim_body Math_pow fillRatio dragCoefficient pressurePSI).
Local Abbreviation state := (stateAfter Math_pow fillRatio dragCoefficient pressurePSI).

Lemma maxHTime_body s :
  maxHTime (sim_res (body s)) =
  if maxH (sim_res s) <? altitude (body s) then sim_t (body s) else maxHTime (sim_res s).
Proof.
  unfold altitude. cbn [sim_body sim_res sim_y sim_t maxH maxHTime fst snd].
  destruct (_ <? _); reflexivity.
Qed.

Lemma maxH_not_nan j : is_nan (maxH (sim_res (state j))) = false.
Proof.
  destruct (maxH_state Math_pow fillRatio dragCoefficient pressurePSI j) as [-> | H];
    [reflexivity|].
  now destruct (FloatOrder.ltb_not_nan _ _ H).
Qed.

Lemma maxH_not_neg j : (0 <=? maxH (sim_res (state j))) = true.
Proof.
  destruct (maxH_state Math_pow fillRatio dragCoefficient pressurePSI j) as [-> | H];
    [reflexivity|].
  now apply FloatOrder.ltb_leb.
Qed.

Lemma altitude_not_nan k : sim_cond (state k) = true -> is_nan (altitude (state k)) = false.
Proof.
  rewrite cond_altitude. intros H. apply andb_true_iff in H. destruct H as [_ H].
  now destruct (FloatOrder.leb_not_nan _ _ H).
Qed.

Lemma apogee_state j :
  (forall i, (i < j)%nat -> sim_cond (state i) = true) ->
  (forall k, (k <= j)%nat -> (maxH (sim_res (state j)) <? altitude (state k)) = false) /\
  ((maxH (sim_res (state j)) = 0 /\ maxHTime (sim_res (state j)) = 0 /\
    forall k, (k <= j)%nat -> (0 <? altitude (state k)) = false) \/
   (exists k, (1 <= k <= j)%nat /\
      maxH (sim_res (state j)) = altitude (state k) /\
      maxHTime (sim_res (state j)) = sim_t (state k) /\
      (0 <? altitude (state k)) = true /\
      forall i, (i < k)%nat -> (altitude (state i) <? altitude (state k)) = true)).
Proof.
  induction j as [|j IH]; intros Hc.
  - split; [intros k Hk | left; repeat split; intros k Hk];
      replace k with 0%nat by lia; reflexivity.
  - destruct (IH ltac:(intros; apply Hc; lia)) as [Hmax Hwhich]. clear IH.
    assert (maxH (sim_res (state (S j))) =
            if maxH (sim_res (state j)) <? altitude (state (S j))
            then altitude (state (S j)) else maxH (sim_res (state j))) as Hb1
        by (rewrite state_S; apply maxH_body).
    assert (maxHTime (sim_res (state (S j))) =
            if maxH (sim_res (state j)) <? altitude (state (S j))
            then sim_t (state (S j)) else maxHTime (sim_res (state j))) as Hb2
        by (rewrite state_S; apply maxHTime_body).
    destruct (maxH (sim_res (state j)) <? altitude (state (S j))) eqn:E;
      rewrite Hb1, Hb2.
    + assert (forall i, (i <= j)%nat ->
                (altitude (state i) <? altitude (state (S j))) = true) as Hlow.
      { intros i Hi.
        eapply FloatOrder.leb_ltb_trans; [|exact E].
        apply FloatOrder.not_ltb_leb; [apply maxH_not_nan | | now apply Hmax].
        apply altitude_not_nan, Hc. lia. }
      split.
      * intros k Hk. destruct (Nat.eq_dec k (S j)) as [->|Hne];
          [apply FloatOrder.ltb_irrefl|].
        apply FloatOrder.ltb_asym, Hlow. lia.
      * right. exists (S j). repeat split; auto; try lia.
        -- eapply FloatOrder.leb_ltb_trans; [apply (maxH_not_neg j) | exact E].
        -- intros i Hi. apply Hlow. lia.
    + split.
      * intros k Hk. destruct (Nat.eq_dec k (S j)) as [->|Hne]; [exact E|].
        apply Hmax. lia.
      * destruct Hwhich as [(H0 & Ht & Hall) | (k & Hk & H1 & H2 & H3 & H4)].
        -- left. repeat split; auto. intros k Hk.
           destruct (Nat.eq_dec k (S j)) as [->|Hne]; [now rewrite <- H0|].
           apply Hall. lia.
        -- right. exists k. repeat split; auto; lia.
Qed.


(** X2.  No sample of the trajectory is higher than the altitude maximum
    reported with it: the peak marker at [maxH] is never below a point of
    the path. *)
Theorem X2_samples_below_apogee :
  exists r,
    runSimulation Math_pow fillRatio dragCoefficient pressurePSI = Some r /\
    Forall (fun smp => (maxH r <? smp_h smp) = false) (trajectory r).
Proof.
  destruct (run_shape Math_pow fillRatio dragCoefficient pressurePSI)
    as (N & HN & Hrun & _ & Hbefore).
  exists (sim_res (state N)). split; [unfold runSimulation; now rewrite Hrun|].
  destruct (apogee_state N Hbefore) as [Hmax _].
  rewrite (trajectory_state Math_pow fillRatio dragCoefficient pressurePSI).
  constructor.
  - exact (Hmax 0%nat ltac:(lia)).
  - apply Forall_forall. intros smp Hin. apply in_map_iff in Hin.
    destruct Hin as (k & <- & Hk). apply filter_In in Hk. destruct Hk as [Hk _].
    apply in_seq in Hk. cbn [sample_of smp_h].
    destruct (Math_max_cases 0 (altitude (state k))) as [-> | [-> | ->]].
    + apply ltb_nan_r.
    + exact (Hmax 0%nat ltac:(lia)).
    + apply Hmax. lia.
Qed.

(** X3.  The three burnout markers are set together or not at all, and a
    burnout time that is set is a strictly positive number.  So the test
    [simResult.burnoutTime && ...] of the component, which takes [null],
    [0] and NaN alike for "no burnout", shows the marker exactly when a
    burnout was recorded. *)
Theorem X3_burnout_shown :
  exists N,
    (1 <= N <= max_steps)%nat /\
    runSimulation Math_pow fillRatio dragCoefficient pressurePSI =
      Some (sim_res (state N)) /\
    ((burnout_markers (sim_res (state N)) = no_markers /\
      truthy_opt (burnoutTime (sim_res (state N))) = false) \/
     (exists k, (1 <= k <= N)%nat /\
        burnout_markers (sim_res (state N)) = markers_at (state k) /\
        (0 <? sim_t (state k)) = true /\
        truthy_opt (burnoutTime (sim_res (state N))) = true)).
Proof.
  destruct (run_shape Math_pow fillRatio dragCoefficient pressurePSI)
    as (N & HN & Hrun & _ & _).
  exists N. split; [exact HN|]. split; [unfold runSimulation; now rewrite Hrun|].
  destruct (markers_state Math_pow fillRatio dragCoefficient pressurePSI N)
    as [[_ Hm] | (k & Hk & _ & _ & Hm)].
  - left. split; [exact Hm|].
    unfold burnout_markers, no_markers in Hm.
    injection Hm as -> _ _. reflexivity.
  - right. exists k.
    assert ((0 <? sim_t (state k)) = true) as Hpos.
    { rewrite (sim_t_state Math_pow fillRatio dragCoefficient pressurePSI).
      apply (Clock.tick_increasing 0 k); lia. }
    repeat split; auto; try lia.
    unfold burnout_markers, markers_at in Hm. injection Hm as -> _ _.
    cbn [truthy_opt]. now apply truthy_pos.
Qed.


End ApogeeFacts.

(** ** The integrator and the forces *)

(** X5.  [rk4Step] returns a vector of the length of [y] whatever the
    derivative function returns, and it does not reject a derivative that
    is too short: a component of [y] for which the first stage has no
    derivative comes back as NaN. *)
Theorem X5_rk4Step_short_derivative {P : Type}
    (odes : float -> list float -> P -> list float)
    (t : float) (y : list float) (h : float) (params : P) :
  length (rk4Step odes t y h params) = length y /\
  forall i, (length (odes t y params) <= i < length y)%nat ->
    idx (rk4Step odes t y h params) i = nan.
Proof.
  split; [apply length_map_index|].
  intros i [Hshort Hi]. unfold rk4Step. cbv zeta.
  rewrite idx_map_index by exact Hi.
  assert (idx (odes t y params) i = nan) as -> by (apply nth_overflow; exact Hshort).
  now rewrite !FloatMore.add_nan_l, FloatMore.mul_nan_r, FloatMore.add_nan_r.
Qed.

Section Forces.

Variable Math_pow : float -> float -> float.

Lemma drag_not_pos y p :
  (C_d p <? 0) = false -> (A_bottle Math_pow <? 0) = false -> (0 <? idx y 2) = true ->
  (idx y 0 <? 0) = false -> (0 <? drag_accel Math_pow y p) = false.
Proof.
  intros HC HA Hm Hv. unfold drag_accel.
  apply FloatMore.div_np; [|exact Hm].
  apply FloatMore.mul_np_nn; [|apply FloatMore.abs_nn].
  apply FloatMore.mul_np_nn; [|exact Hv].
  apply FloatMore.mul_np_nn; [|exact HA].
  apply FloatMore.mul_np_nn; [reflexivity | exact HC].
Qed.

Lemma drag_not_neg y p :
  (C_d p <? 0) = false -> (A_bottle Math_pow <? 0) = false -> (0 <? idx y 2) = true ->
  (0 <? idx y 0) = false -> (drag_accel Math_pow y p <? 0) = false.
Proof.
  intros HC HA Hm Hv. unfold drag_accel.
  apply FloatMore.div_nn; [|exact Hm].
  apply FloatMore.mul_nn_nn; [|apply FloatMore.abs_nn].
  apply FloatMore.mul_np_np; [|exact Hv].
  apply FloatMore.mul_np_nn; [|exact HA].
  apply FloatMore.mul_np_nn; [reflexivity | exact HC].
Qed.

Lemma free_flight t y p :
  (idx y 3 <=? 0) = true ->
  idx (rocketODEs Math_pow t y p) 0 = - CONSTANTS.g + drag_accel Math_pow y p.
Proof. intros H. unfold rocketODEs. rewrite H. reflexivity. Qed.

(** X6.  For a drag coefficient and a bottle cross-section that are not
    negative and a positive mass, the drag acceleration of [rocketODEs]
    opposes the motion: it is not positive when the velocity is not
    negative, and not negative when the velocity is not positive.  With the
    water gone the velocity derivative is [-g + drag], so a rising rocket
    decelerates at least at [g] and a falling one at most at [g]. *)
Theorem X6_drag_opposes_motion (t : float) (y : list float) (p : Params)
    (HC : (C_d p <? 0) = false)
    (HA : (A_bottle Math_pow <? 0) = false)
    (Hm : (0 <? idx y 2) = true) :
  ((idx y 0 <? 0) = false -> (0 <? drag_accel Math_pow y p) = false) /\
  ((0 <? idx y 0) = false -> (drag_accel Math_pow y p <? 0) = false) /\
  ((idx y 3 <=? 0) = true ->
   idx (rocketODEs Math_pow t y p) 0 = - CONSTANTS.g + drag_accel Math_pow y p /\
   ((idx y 0 <? 0) = false ->
    (- CONSTANTS.g <? idx (rocketODEs Math_pow t y p) 0) = false) /\
   ((0 <? idx y 0) = false ->
    (idx (rocketODEs Math_pow t y p) 0 <? - CONSTANTS.g) = false)).
Proof.
  split; [now apply drag_not_pos|]. split; [now apply drag_not_neg|].
  intros Hb. rewrite (free_flight t y p Hb). split; [reflexivity|]. split; intros Hv.
  - apply FloatArith.add_not_above. now apply drag_not_pos.
  - apply FloatMore.add_not_below. now apply drag_not_neg.
Qed.

(** X7.  For a nozzle cross-section that is not negative and a positive
    mass: in every regime the mass derivative is [rho_water] times the
    water-volume derivative; and the velocity derivative is either the
    free-flight [-g + drag] with no outflow, or [thrust - g + drag] for an
    exhaust speed [v_e] that is not negative (or NaN), with a thrust
    acceleration that is not negative and the outflow [-A_nozzle v_e]. *)
Theorem X7_thrust_not_negative (t : float) (y : list float) (p : Params)
    (HA : (A_nozzle Math_pow <? 0) = false)
    (Hm : (0 <? idx y 2) = true) :
  idx (rocketODEs Math_pow t y p) 2 = CONSTANTS.rho_water * idx (rocketODEs Math_pow t y p) 3 /\
  ((idx (rocketODEs Math_pow t y p) 0 = - CONSTANTS.g + drag_accel Math_pow y p /\
    idx (rocketODEs Math_pow t y p) 3 = 0) \/
   (exists v_e,
      (v_e <? 0) = false /\
      (thrust_accel Math_pow y v_e <? 0) = false /\
      idx (rocketODEs Math_pow t y p) 0 =
        thrust_accel Math_pow y v_e - CONSTANTS.g + drag_accel Math_pow y p /\
      idx (rocketODEs Math_pow t y p) 3 = - A_nozzle Math_pow * v_e)).
Proof.
  unfold rocketODEs.
  destruct (idx y 3 <=? 0); [split; [reflexivity | left; split; reflexivity]|].
  destruct (_ <=? 0); [split; [reflexivity | left; split; reflexivity]|].
  split; [reflexivity|]. right.
  match goal with
  | |- context [Math_sqrt ?a] => set (v_e := Math_sqrt a)
  end.
  exists v_e.
  assert ((v_e <? 0) = false) as Hve by apply FloatArith.sqrt_not_neg.
  split; [exact Hve|]. split; [|split; reflexivity].
  unfold thrust_accel. apply FloatMore.div_nn; [|exact Hm].
  apply FloatMore.mul_nn_nn; [|exact Hve].
  apply FloatMore.mul_nn_nn; [|exact Hve].
  apply FloatMore.mul_nn_nn; [reflexivity | exact HA].
Qed.

End Forces.

(** ** What the plot relies on in a run *)

Lemma nth_error_last {A} (l : list A) :
  forall a d, nth_error (a :: l) (length l) = Some (last (a :: l) d).
Proof.
  induction l as [|b l IH]; intros a d; [reflexivity|].
  cbn [length nth_error]. rewrite (IH b d). reflexivity.
Qed.

Lemma last_cons_map {A B} (g : A -> B) (d : A) l :
  forall b b', l <> [] -> last (b :: map g l) b' = g (last l d).
Proof.
  induction l as [|x l IH]; intros b b' Hl; [congruence|].
  destruct l as [|y l]; [reflexivity|].
  specialize (IH (g x) b' ltac:(discriminate)).
  cbn [map last] in *. exact IH.
Qed.

Lemma sorted_le_last l :
  StronglySorted lt l -> forall k, In k l -> (k <= last l 0)%nat.
Proof.
  induction 1 as [|a l Hl IH Ha]; intros k Hk; [destruct Hk|].
  destruct l as [|b l]; [destruct Hk as [<-|[]]; cbn; lia|].
  change (last (a :: b :: l) 0%nat) with (last (b :: l) 0%nat).
  destruct Hk as [<- | Hk]; [|now apply IH].
  rewrite Forall_forall in Ha.
  pose proof (Ha b (or_introl eq_refl)).
  pose proof (IH b (or_introl eq_refl)). lia.
Qed.

Lemma last_in (l : list nat) : l <> [] -> In (last l 0%nat) l.
Proof.
  induction l as [|a l IH]; [congruence|]. intros _.
  destruct l as [|b l]; [now left|]. right. apply IH. discriminate.
Qed.

Lemma tick_not_nan j : (j <= max_steps)%nat -> is_nan (tick j) = false.
Proof.
  intros Hj. destruct j as [|j]; [reflexivity|].
  pose proof (Clock.tick_increasing 0 (S j) ltac:(lia) Hj) as H.
  now destruct (FloatOrder.ltb_not_nan _ _ H).
Qed.

Lemma tick_le i j : (i <= j <= max_steps)%nat -> (tick i <=? tick j) = true.
Proof.
  intros Hij. destruct (Nat.eq_dec i j) as [->|Hne].
  - apply FloatOrder.leb_refl, tick_not_nan. lia.
  - apply FloatOrder.ltb_leb, Clock.tick_increasing; lia.
Qed.

Lemma not_above_trans b c h :
  (b <? h) = false -> (b <=? c) = true -> (c <? h) = false.
Proof.
  intros Hbh Hbc. destruct (is_nan h) eqn:Hn.
  - apply FloatOrder.is_nan_SF in Hn. rewrite ltb_spec, Hn. unfold SFltb.
    destruct (Prim2SF c) as [[]|[]| |[] m e]; reflexivity.
  - apply FloatOrder.leb_not_ltb. eapply FloatOrder.leb_trans; [|exact Hbc].
    apply FloatOrder.not_ltb_leb; auto. now destruct (FloatOrder.leb_not_nan _ _ Hbc).
Qed.

Section RunPlottable.

Variable Math_pow : float -> float -> float.
Variables fillRatio dragCoefficient pressurePSI : float.

Local Abbreviation state := (stateAfter Math_pow fillRatio dragCoefficient pressurePSI).

Lemma span_state N :
  (N <= max_steps)%nat ->
  exists j, (j <= N)%nat /\
    last_t (trajectory (sim_res (state N))) = Some (tick j) /\
    Forall (fun smp =>
              exists i, (i <= j)%nat /\
                smp = (if Nat.eqb i 0 then first_sample else sample_of (state i)))
           (trajectory (sim_res (state N))).
Proof.
  intros HN.
  rewrite (trajectory_state Math_pow fillRatio dragCoefficient pressurePSI).
  set (l := filter (fun k => emits (sim_t (state k))) (seq 1 N)).
  assert (StronglySorted lt l) as Hs by apply filter_sorted, seq_sorted.
  assert (forall k, In k l -> (1 <= k <= N)%nat) as Hin.
  { intros k Hk. apply filter_In in Hk. destruct Hk as [Hk _]. apply in_seq in Hk. lia. }
  exists (last l 0%nat). split; [|split].
  - destruct l as [|a l'] eqn:El; [cbn; lia|].
    assert (In (last (a :: l') 0%nat) (a :: l')) as H by (apply last_in; discriminate).
    apply Hin in H. lia.
  - unfold last_t. cbn [length]. rewrite Nat.sub_succ, Nat.sub_0_r.
    rewrite (nth_error_last _ _ first_sample). cbn [option_map]. f_equal.
    destruct l as [|a l'] eqn:El; [reflexivity|].
    rewrite (last_cons_map _ 0%nat) by discriminate.
    cbn [sample_of smp_t].
    apply (sim_t_state Math_pow fillRatio dragCoefficient pressurePSI).
  - constructor; [exists 0%nat; split; [lia | reflexivity]|].
    apply Forall_forall. intros smp Hsmp. apply in_map_iff in Hsmp.
    destruct Hsmp as (k & <- & Hk). exists k. split; [now apply sorted_le_last|].
    apply Hin in Hk. destruct k; [lia | reflexivity].
Qed.

Lemma run_plottable :
  exists r, runSimulation Math_pow fillRatio dragCoefficient pressurePSI = Some r /\
            plottable r.
Proof.
  destruct (run_shape Math_pow fillRatio dragCoefficient pressurePSI)
    as (N & HN & Hrun & _ & Hbefore).
  exists (sim_res (state N)). split; [unfold runSimulation; now rewrite Hrun|].
  destruct (span_state N ltac:(lia)) as (j & Hj & Hlast & Hall).
  destruct (apogee_state Math_pow fillRatio dragCoefficient pressurePSI N Hbefore)
    as [Hmax _].
  assert ((0 <? span (sim_res (state N))) = true /\
          (span (sim_res (state N)) <=? tick max_steps) = true /\
          forall i, (i <= j)%nat -> (tick i <=? span (sim_res (state N))) = true)
    as (Hpos & Hup & Hle).
  { unfold span. rewrite Hlast. cbn [or_else].
    destruct j as [|j].
    - change (tick 0) with 0. change (truthy 0) with false. cbv iota.
      split; [reflexivity|]. split; [vm_compute; reflexivity|].
      intros i Hi. replace i with 0%nat by lia. reflexivity.
    - pose proof (Clock.tick_increasing 0 (S j) ltac:(lia) ltac:(lia)) as Hp.
      change (tick 0) with 0 in Hp. rewrite (truthy_pos _ Hp).
      split; [exact Hp|]. split; [apply tick_le; lia|].
      intros i Hi. apply tick_le. lia. }
  split; [exact Hpos|]. split; [exact Hup|].
  split; [apply (maxH_not_neg Math_pow fillRatio dragCoefficient pressurePSI)|].
  split; [now rewrite (trajectory_state Math_pow fillRatio dragCoefficient pressurePSI)|].
  eapply Forall_impl; [|exact Hall]. cbv beta.
  intros smp (i & Hi & ->).
  destruct i as [|i]; cbn [Nat.eqb].
  - cbn [first_sample smp_t smp_h]. repeat split; try reflexivity.
    + exact (Hle 0%nat ltac:(lia)).
    + exact (Hmax 0%nat ltac:(lia)).
  - cbn [sample_of smp_t smp_h].
    rewrite (sim_t_state Math_pow fillRatio dragCoefficient pressurePSI).
    split; [apply (tick_le 0); lia|]. split; [apply Hle; lia|].
    split; [apply Math_max_not_neg|].
    destruct (Math_max_cases 0 (altitude (state (S i)))) as [-> | [-> | ->]].
    + apply ltb_nan_r.
    + exact (Hmax 0%nat ltac:(lia)).
    + apply Hmax. lia.
Qed.

End RunPlottable.

(** ** The scales of the trajectory plot *)

Lemma leb_not_nan_l x y : (x <=? y) = true -> is_nan x = false.
Proof. intros H. now destruct (FloatOrder.leb_not_nan _ _ H). Qed.

Lemma leb_not_nan_r x y : (x <=? y) = true -> is_nan y = false.
Proof. intros H. now destruct (FloatOrder.leb_not_nan _ _ H). Qed.

Lemma ltb_not_nan_r x y : (x <? y) = true -> is_nan y = false.
Proof. intros H. now destruct (FloatOrder.ltb_not_nan _ _ H). Qed.

Lemma grow_11 x : (0 <=? x) = true -> (x <=? x * 1.1) = true.
Proof.
  apply (FloatFrame.mul_grow x 1.1 4953959590107546 (-52)); [reflexivity | lia|].
  vm_compute. discriminate.
Qed.

Section ScaleFacts.

Variable compareMode : bool.
Variable simResult : SimulationResult.
Variable compared : list BottleRocketSim.Comparison.

Hypothesis Hmain : plottable simResult.
Hypothesis Hcompared : Forall (fun c => plottable (BottleRocketSim.cmp_run c)) compared.

Local Abbreviation maxT := (BottleRocketSim.maxT compareMode simResult compared).
Local Abbreviation maxHs := (BottleRocketSim.maxH compareMode simResult compared).
Local Abbreviation scaleX := (BottleRocketSim.scaleX compareMode simResult compared).
Local Abbreviation scaleY := (BottleRocketSim.scaleY compareMode simResult compared).

Lemma plotted_plottable :
  Forall plottable (BottleRocketSim.plotted compareMode simResult compared).
Proof.
  unfold BottleRocketSim.plotted. destruct compareMode; [|constructor; auto].
  apply Forall_map. exact Hcompared.
Qed.

Lemma maxT_facts :
  (5 <=? maxT) = true /\ (maxT <=? tick max_steps) = true /\
  Forall (fun run => (span run <=? maxT) = true)
         (BottleRocketSim.plotted compareMode simResult compared).
Proof.
  unfold BottleRocketSim.maxT, BottleRocketSim.plotted. destruct compareMode.
  - unfold Math_max_list.
    set (l := map (fun r => or_else (last_t (trajectory (BottleRocketSim.cmp_run r))) 5)
                  compared).
    assert (Forall (fun x => is_nan x = false /\ (x <=? tick max_steps) = true) l) as Hl.
    { unfold l. apply Forall_map. eapply Forall_impl; [|exact Hcompared].
      intros c (Hpos & Hup & _). split; [|exact Hup].
      exact (ltb_not_nan_r _ _ Hpos). }
    destruct (FloatFrame.Math_max_list_ge (l ++ [5]) neg_infinity eq_refl)
      as (_ & _ & Hge).
    { apply Forall_app. split; [|constructor; [reflexivity | constructor]].
      eapply Forall_impl; [|exact Hl]. now intros x [H _]. }
    apply Forall_app in Hge. destruct Hge as [Hge H5].
    inversion H5 as [|? ? H5' _]; subst. split; [exact H5'|]. split.
    + apply FloatFrame.Math_max_list_le; [vm_compute; reflexivity|].
      apply Forall_app. split; [|constructor; [vm_compute; reflexivity | constructor]].
      eapply Forall_impl; [|exact Hl]. now intros x [_ H].
    + apply Forall_map. unfold l in Hge. rewrite Forall_map in Hge. exact Hge.
  - destruct Hmain as (Hpos & Hup & _).
    destruct (FloatFrame.Math_max_ge (span simResult) 5 (ltb_not_nan_r _ _ Hpos) eq_refl)
      as (_ & H1 & H2).
    split; [exact H2|]. split.
    + apply FloatFrame.Math_max_le; [exact Hup | vm_compute; reflexivity].
    + constructor; [exact H1 | constructor].
Qed.

Lemma maxH_facts :
  (10 <=? maxHs) = true /\
  Forall (fun run => (maxH run <=? maxHs) = true)
         (BottleRocketSim.plotted compareMode simResult compared).
Proof.
  unfold BottleRocketSim.maxH, BottleRocketSim.plotted. destruct compareMode.
  - unfold Math_max_list.
    set (l := map (fun r => maxH (BottleRocketSim.cmp_run r)) compared).
    destruct (FloatFrame.Math_max_list_ge (l ++ [10]) neg_infinity eq_refl)
      as (_ & _ & Hge).
    { apply Forall_app. split; [|constructor; [reflexivity | constructor]].
      unfold l. apply Forall_map. eapply Forall_impl; [|exact Hcompared].
      intros c (_ & _ & H & _). exact (leb_not_nan_r _ _ H). }
    apply Forall_app in Hge. destruct Hge as [Hge H10].
    inversion H10 as [|? ? H10' _]; subst.
    set (M := fold_left Math_max (l ++ [10]) neg_infinity) in *.
    assert ((M <=? M * 1.1) = true) as Hgrow.
    { apply grow_11. eapply FloatOrder.leb_trans; [|exact H10']. reflexivity. }
    split; [eapply FloatOrder.leb_trans; eauto|].
    apply Forall_map. unfold l in Hge. rewrite Forall_map in Hge.
    eapply Forall_impl; [|exact Hge]. cbv beta. intros c Hc.
    eapply FloatOrder.leb_trans; eauto.
  - destruct Hmain as (_ & _ & Hh & _).
    pose proof (grow_11 _ Hh) as Hgrow.
    destruct (FloatFrame.Math_max_ge (maxH simResult * 1.1) 10
                (leb_not_nan_r _ _ Hgrow) eq_refl) as (_ & H1 & H2).
    split; [exact H2|]. constructor; [|constructor].
    eapply FloatOrder.leb_trans; eauto.
Qed.

Lemma maxT_pos : (0 <? maxT) = true.
Proof.
  destruct maxT_facts as (H & _).
  eapply FloatOrder.ltb_leb_trans; [|exact H]. reflexivity.
Qed.

Lemma maxH_pos : (0 <? maxHs) = true.
Proof.
  destruct maxH_facts as (H & _).
  eapply FloatOrder.ltb_leb_trans; [|exact H]. reflexivity.
Qed.

Lemma scaleX_frame t :
  (t <? 0) = false -> (maxT <? t) = false -> in_frame_x (scaleX t).
Proof.
  intros Ht Hle. unfold BottleRocketSim.scaleX.
  destruct (FloatFrame.div_unit t maxT Ht Hle maxT_pos) as [Hq0 Hq1].
  destruct (FloatFrame.mul_unit (t / maxT) BottleRocketSim.plotW
              5365616743546880 (-43) eq_refl eq_refl Hq0 Hq1) as [Hp0 Hp1].
  split.
  - now apply FloatMore.add_not_below.
  - apply (FloatFrame.add_bound BottleRocketSim.padding_left BottleRocketSim.plotW
             (BottleRocketSim.padding_left + BottleRocketSim.plotW) _
             8444249301319680 (-47) 5365616743546880 (-43) 5893382324879360 (-43));
      try reflexivity; auto. vm_compute. discriminate.
Qed.

Lemma scaleY_frame h :
  (h <? 0) = false -> (maxHs <? h) = false -> in_frame_y (scaleY h).
Proof.
  intros Hh Hle. unfold BottleRocketSim.scaleY.
  destruct (FloatFrame.div_unit h maxHs Hh Hle maxH_pos) as [Hq0 Hq1].
  destruct (FloatFrame.mul_unit (h / maxHs) BottleRocketSim.plotH
              5629499534213120 (-44) eq_refl eq_refl Hq0 Hq1) as [Hp0 Hp1].
  split.
  - apply (FloatFrame.sub_bound (BottleRocketSim.padding_top + BottleRocketSim.plotH)
             BottleRocketSim.plotH BottleRocketSim.padding_top _
             6157265115545600 (-44) 5629499534213120 (-44) 8444249301319680 (-48));
      try reflexivity; auto.
  - now apply FloatFrame.sub_not_above.
Qed.

End ScaleFacts.

Section ComponentFacts.

Variable Math_pow : float -> float -> float.
Variables fillRatio dragCoeff pressure : float.
Variable compareMode : bool.
Variable compareRatios : list float.

Lemma compare_all_runs ratios :
  exists l,
    BottleRocketSim.compare_all Math_pow dragCoeff pressure ratios = Some l /\
    map BottleRocketSim.cmp_ratio l = ratios /\
    Forall (fun c => runSimulation Math_pow (BottleRocketSim.cmp_ratio c) dragCoeff pressure =
                     Some (BottleRocketSim.cmp_run c)) l /\
    Forall (fun c => plottable (BottleRocketSim.cmp_run c)) l.
Proof.
  induction ratios as [|r rs IH].
  - exists []. repeat split; constructor.
  - destruct IH as (l & Hl & Hmap & Hruns & Hplot).
    destruct (run_plottable Math_pow r dragCoeff pressure) as (res & Hres & Hp).
    exists ({| BottleRocketSim.cmp_ratio := r; BottleRocketSim.cmp_run := res |} :: l).
    cbn [BottleRocketSim.compare_all]. rewrite Hres, Hl.
    split; [reflexivity|]. split; [cbn [map BottleRocketSim.cmp_ratio]; congruence|].
    split; constructor; auto.
Qed.

Lemma component_runs :
  exists simResult compared,
    runSimulation Math_pow fillRatio dragCoeff pressure = Some simResult /\
    BottleRocketSim.compareResults Math_pow compareMode compareRatios dragCoeff pressure =
      Some compared /\
    map BottleRocketSim.cmp_ratio compared = (if compareMode then compareRatios else []) /\
    Forall (fun c => runSimulation Math_pow (BottleRocketSim.cmp_ratio c) dragCoeff pressure =
                     Some (BottleRocketSim.cmp_run c)) compared /\
    plottable simResult /\
    Forall (fun c => plottable (BottleRocketSim.cmp_run c)) compared.
Proof.
  destruct (run_plottable Math_pow fillRatio dragCoeff pressure) as (res & Hres & Hp).
  unfold BottleRocketSim.compareResults. destruct compareMode; cbn [negb].
  - destruct (compare_all_runs compareRatios) as (l & Hl & Hmap & Hruns & Hplot).
    exists res, l. split; [exact Hres|]. split; [exact Hl|]. split; [exact Hmap|].
    split; [exact Hruns|]. split; [exact Hp | exact Hplot].
  - exists res, []. split; [exact Hres|]. split; [reflexivity|]. split; [reflexivity|].
    split; [constructor|]. split; [exact Hp | constructor].
Qed.

(** X9.  The scales of the trajectory plot, with the comparison on or
    off: the horizontal one spans at least 5 s and at most the last tick of
    the clock, the vertical one at least 10 m, so that neither [scaleX] nor
    [scaleY] divides by zero or NaN; and every run that is drawn fits, its
    altitude maximum not above [maxH] and its sample times not above
    [maxT]. *)
Theorem X9_plot_scales :
  exists simResult compared,
    runSimulation Math_pow fillRatio dragCoeff pressure = Some simResult /\
    BottleRocketSim.compareResults Math_pow compareMode compareRatios dragCoeff pressure =
      Some compared /\
    map BottleRocketSim.cmp_ratio compared = (if compareMode then compareRatios else []) /\
    Forall (fun c => runSimulation Math_pow (BottleRocketSim.cmp_ratio c) dragCoeff pressure =
                     Some (BottleRocketSim.cmp_run c)) compared /\
    (5 <=? BottleRocketSim.maxT compareMode simResult compared) = true /\
    (BottleRocketSim.maxT compareMode simResult compared <=? tick max_steps) = true /\
    (10 <=? BottleRocketSim.maxH compareMode simResult compared) = true /\
    Forall (fun run =>
              (maxH run <=? BottleRocketSim.maxH compareMode simResult compared) = true /\
              Forall (fun smp =>
                        (smp_t smp <=? BottleRocketSim.maxT compareMode simResult compared)
                        = true)
                     (trajectory run))
           (BottleRocketSim.plotted compareMode simResult compared).
Proof.
  destruct component_runs as (r & cs & Hr & Hcs & Hmap & Hruns & Hp & Hps).
  exists r, cs. do 4 (split; [assumption|]).
  destruct (maxT_facts compareMode r cs Hp Hps) as (HT1 & HT2 & HT3).
  destruct (maxH_facts compareMode r cs Hp Hps) as (HH1 & HH2).
  do 3 (split; [assumption|]).
  pose proof (plotted_plottable compareMode r cs Hp Hps) as Hall.
  apply Forall_forall. intros run Hrun.
  rewrite Forall_forall in HT3, HH2, Hall. split; [now apply HH2|].
  destruct (Hall run Hrun) as (_ & _ & _ & _ & Hs).
  eapply Forall_impl; [|exact Hs]. cbv beta. intros smp (_ & Ht & _).
  eapply FloatOrder.leb_trans; [exact Ht | now apply HT3].
Qed.

(** X11.  Every point of every trajectory that is drawn lies inside the
    plot area -- [scaleX] of its time between [padding.left] and
    [padding.left + plotW], [scaleY] of its altitude between [padding.top]
    and [padding.top + plotH] -- and so does the ordinate of the peak
    marker, or the coordinate is NaN. *)
Theorem X11_trajectory_in_frame :
  exists simResult compared,
    runSimulation Math_pow fillRatio dragCoeff pressure = Some simResult /\
    BottleRocketSim.compareResults Math_pow compareMode compareRatios dragCoeff pressure =
      Some compared /\
    Forall (fun run =>
              Forall (fun smp =>
                        in_frame_x (BottleRocketSim.scaleX compareMode simResult compared
                                      (smp_t smp)) /\
                        in_frame_y (BottleRocketSim.scaleY compareMode simResult compared
                                      (smp_h smp)))
                     (trajectory run) /\
              in_frame_y (BottleRocketSim.scaleY compareMode simResult compared (maxH run)))
           (BottleRocketSim.plotted compareMode simResult compared).
Proof.
  destruct component_runs as (r & cs & Hr & Hcs & _ & _ & Hp & Hps).
  exists r, cs. do 2 (split; [assumption|]).
  destruct (maxT_facts compareMode r cs Hp Hps) as (_ & _ & HT).
  destruct (maxH_facts compareMode r cs Hp Hps) as (_ & HH).
  pose proof (plotted_plottable compareMode r cs Hp Hps) as Hall.
  apply Forall_forall. intros run Hrun.
  rewrite Forall_forall in HT, HH, Hall.
  destruct (Hall run Hrun) as (_ & _ & Hh & _ & Hs).
  specialize (HT run Hrun). specialize (HH run Hrun). cbv beta in HT, HH.
  split.
  - eapply Forall_impl; [|exact Hs]. cbv beta. intros smp (Ht0 & Ht & Hh0 & Hhm). split.
    + apply scaleX_frame; auto.
      * now apply FloatOrder.leb_not_ltb.
      * apply FloatOrder.leb_not_ltb. eapply FloatOrder.leb_trans; eauto.
    + apply scaleY_frame; auto. eapply not_above_trans; eauto.
  - apply scaleY_frame; auto.
    + now apply FloatOrder.leb_not_ltb.
    + now apply FloatOrder.leb_not_ltb.
Qed.

End ComponentFacts.

Module PathFacts.

Import String.

Lemma append_empty_r (s : string) : append s EmptyString = s.
Proof. induction s as [|c s IH]; cbn; congruence. Qed.

Section Path.

Variable Math_pow : float -> float -> float.
Variables fillRatio dragCoeff pressure : float.
Variable compareMode : bool.
Variable compareRatios : list float.
Variable Number_toString : float -> string.

(** X10.  [scaleX 0] is [padding.left] and [scaleY 0] is
    [padding.top + plotH], exactly; the trajectory of a run is never empty
    and starts with the sample [(0, 0)], so the path of every run that is
    drawn is not the empty string and starts with a move to the origin of
    the plot, whatever the conversion of numbers to strings. *)
Theorem X10_path_starts_at_origin :
  exists simResult compared,
    runSimulation Math_pow fillRatio dragCoeff pressure = Some simResult /\
    BottleRocketSim.compareResults Math_pow compareMode compareRatios dragCoeff pressure =
      Some compared /\
    BottleRocketSim.scaleX compareMode simResult compared 0 = BottleRocketSim.padding_left /\
    BottleRocketSim.scaleY compareMode simResult compared 0 =
      BottleRocketSim.padding_top + BottleRocketSim.plotH /\
    Forall (fun run =>
              exists rest,
                BottleRocketSim.pathD compareMode simResult compared Number_toString
                  (trajectory run) =
                append
                  (append "M "
                     (append (Number_toString BottleRocketSim.padding_left)
                        (append " "
                           (Number_toString
                              (BottleRocketSim.padding_top + BottleRocketSim.plotH)))))
                  rest)
           (BottleRocketSim.plotted compareMode simResult compared).
Proof.
  destruct (component_runs Math_pow fillRatio dragCoeff pressure compareMode compareRatios)
    as (r & cs & Hr & Hcs & _ & _ & Hp & Hps).
  exists r, cs. do 2 (split; [assumption|]).
  assert (BottleRocketSim.scaleX compareMode r cs 0 = BottleRocketSim.padding_left) as HX.
  { unfold BottleRocketSim.scaleX.
    rewrite (FloatFrame.div_zero _ (maxT_pos compareMode r cs Hp Hps)). reflexivity. }
  assert (BottleRocketSim.scaleY compareMode r cs 0 =
          BottleRocketSim.padding_top + BottleRocketSim.plotH) as HY.
  { unfold BottleRocketSim.scaleY.
    rewrite (FloatFrame.div_zero _ (maxH_pos compareMode r cs Hp Hps)). reflexivity. }
  do 2 (split; [assumption|]).
  pose proof (plotted_plottable compareMode r cs Hp Hps) as Hall.
  eapply Forall_impl; [|exact Hall]. cbv beta.
  intros run (_ & _ & _ & Hhd & _).
  destruct (trajectory run) as [|s0 tl]; [discriminate|].
  injection Hhd as ->.
  unfold BottleRocketSim.pathD, map_index.
  cbn [List.length Nat.eqb map_from first_sample smp_t smp_h].
  rewrite HX, HY.
  destruct tl as [|s1 tl].
  - exists EmptyString. cbn [map_from concat]. now rewrite append_empty_r.
  - eexists. cbn [map_from concat]. reflexivity.
Qed.

End Path.

End PathFacts.

(** ** The panel "altitude vs fill ratio" *)

Lemma grid_checks (l : list float) :
  l = map grid_point (seq 0 grid_size) ->
  forallb ratio_ok l = true /\ increasing l = true /\
  increasing (map BottleRocketSim.curveX l) = true /\
  nth_error l 14 = Some bestRatio_default.
Proof. intros ->. vm_compute. auto. Qed.

Lemma div_self x : (0 <? x) = true -> (x <? infinity) = true -> x / x = 1.
Proof.
  intros H0 Hinf. apply Prim2SF_inj. rewrite div_spec.
  rewrite ltb_spec in H0, Hinf. change (Prim2SF 0) with (S754_zero false) in H0.
  change (Prim2SF infinity) with (S754_infinity false) in Hinf.
  destruct (Prim2SF x) as [[]|[]| |[] m e]; try discriminate.
  apply FloatBounds.SFdiv_self.
Qed.

Lemma curveY_frame res h :
  (0 <? bestH res) = true -> (h <? 0) = false -> (bestH res <? h) = false ->
  (BottleRocketSim.curveY res h <? 30) = false /\
  (160 <? BottleRocketSim.curveY res h) = false.
Proof.
  intros Hb Hh Hle. unfold BottleRocketSim.curveY.
  destruct (FloatFrame.div_unit h (bestH res) Hh Hle Hb) as [Hq0 Hq1].
  destruct (FloatFrame.mul_unit (h / bestH res) 130
              4573968371548160 (-45) eq_refl eq_refl Hq0 Hq1) as [Hp0 Hp1].
  split.
  - apply (FloatFrame.sub_bound 160 130 30 _
             5629499534213120 (-45) 4573968371548160 (-45) 8444249301319680 (-48));
      try reflexivity; auto.
  - now apply FloatFrame.sub_not_above.
Qed.

Section CurveFacts.

Variable Math_pow : float -> float -> float.
Variables dragCoefficient pressurePSI : float.

Local Abbreviation run r := (runSimulation Math_pow r dragCoefficient pressurePSI).

(** What the sweep guarantees of its result. *)
Lemma best_pair_of_curve b :
  map ratio (data b) = map grid_point (seq 0 grid_size) ->
  Forall (fun p => exists res, run (ratio p) = Some res /\ gp_maxH p = maxH res) (data b) ->
  best_inv b ->
  In (bestRatio b) (map ratio (data b)) /\
  exists r, run (bestRatio b) = Some r /\ maxH r = bestH b.
Proof.
  intros Hgrid Hruns (_ & _ & [(H0 & Hdef & Hall) | (Hpos & d1 & d2 & Hd & _)]).
  - destruct (grid_checks _ Hgrid) as (_ & _ & _ & H14).
    rewrite nth_error_map in H14.
    destruct (nth_error (data b) 14) as [p|] eqn:Ep; [|discriminate].
    injection H14 as Hp. apply nth_error_In in Ep.
    rewrite Forall_forall in Hruns, Hall.
    destruct (Hruns p Ep) as (res & Hres & Hh). split.
    + rewrite Hdef, <- Hp. now apply in_map.
    + exists res. rewrite Hdef, <- Hp. split; [exact Hres|].
      rewrite <- Hh, H0. now apply Hall.
  - assert (In {| ratio := bestRatio b; gp_maxH := bestH b |} (data b)) as Hin
        by (rewrite Hd; apply in_elt).
    rewrite Forall_forall in Hruns. destruct (Hruns _ Hin) as (res & Hres & Hh).
    split; [exact (in_map ratio _ _ Hin)|].
    exists res. cbn [ratio gp_maxH] in *. split; congruence.
Qed.

Lemma ratios_of_curve b :
  map ratio (data b) = map grid_point (seq 0 grid_size) ->
  In (bestRatio b) (map ratio (data b)) ->
  increasing (map ratio (data b)) = true /\
  (r_first <=? bestRatio b) = true /\ (bestRatio b <=? r_last) = true /\
  increasing (map BottleRocketSim.curveX (map ratio (data b))) = true /\
  Forall (fun p => in_frame_x (BottleRocketSim.curveX (ratio p))) (data b) /\
  in_frame_x (BottleRocketSim.curveX (bestRatio b)).
Proof.
  intros Hgrid Hin.
  destruct (grid_checks _ Hgrid) as (Hok & Hinc & Hincx & _).
  rewrite forallb_forall in Hok.
  assert (forall r, In r (map ratio (data b)) ->
            (r_first <=? r) = true /\ (r <=? r_last) = true /\
            in_frame_x (BottleRocketSim.curveX r)) as Hr.
  { intros r Hr. specialize (Hok r Hr). unfold ratio_ok, curve_x_ok in Hok.
    apply andb_true_iff in Hok. destruct Hok as [Hok H3].
    apply andb_true_iff in Hok. destruct Hok as [H1 H2].
    apply andb_true_iff in H3. destruct H3 as [H3 H4].
    apply negb_true_iff in H3, H4. repeat split; auto. }
  split; [exact Hinc|].
  destruct (Hr _ Hin) as (H1 & H2 & H3).
  split; [exact H1|]. split; [exact H2|]. split; [exact Hincx|]. split; [|exact H3].
  apply Forall_forall. intros p Hp. apply (Hr (ratio p)). now apply in_map.
Qed.

End CurveFacts.

Lemma div_by_zero h : (0 <? h) = true -> h / 0 = infinity.
Proof.
  intros H. apply Prim2SF_inj. rewrite div_spec.
  apply FloatMore.ltb_zero_pos in H. change (Prim2SF 0) with (S754_zero false).
  destruct (Prim2SF h) as [[]|[]| |[] m e]; cbn in H; try tauto; try discriminate;
    reflexivity.
Qed.

Lemma flat_curve b :
  best_inv b -> (0 <? bestH b) = false ->
  bestH b = 0 /\
  Forall (fun p => BottleRocketSim.curveY b (gp_maxH p) = nan) (data b) /\
  forall h, (0 <? h) = true -> BottleRocketSim.curveY b h = neg_infinity.
Proof.
  intros (_ & _ & [(H0 & _ & Hall) | (Hpos & _)]) Hflat; [|congruence].
  split; [exact H0|]. split.
  - eapply Forall_impl; [|exact Hall]. cbv beta. intros p Hp.
    unfold BottleRocketSim.curveY. rewrite H0, Hp. reflexivity.
  - intros h Hh. unfold BottleRocketSim.curveY. rewrite H0, (div_by_zero h Hh).
    reflexivity.
Qed.

Lemma flat_curve_of b res :
  Some b = Some res -> best_inv b -> (0 <? bestH res) = false ->
  bestH res = 0 /\
  Forall (fun p => BottleRocketSim.curveY res (gp_maxH p) = nan) (data res) /\
  forall h, (0 <? h) = true -> BottleRocketSim.curveY res h = neg_infinity.
Proof. intros E. injection E as ->. apply flat_curve. Qed.

Section SweepPlot.

Variable Math_pow : float -> float -> float.
Variables dragCoefficient pressurePSI : float.

Local Abbreviation sweep := (sweepAfter Math_pow dragCoefficient pressurePSI).
Local Abbreviation run r := (runSimulation Math_pow r dragCoefficient pressurePSI).

Lemma curve_heights b :
  Forall (fun p => exists res, run (ratio p) = Some res /\ gp_maxH p = maxH res) (data b) ->
  best_inv b ->
  (0 <? bestH b) = true ->
  Forall (fun p =>
            (BottleRocketSim.curveY b (gp_maxH p) <? 30) = false /\
            (160 <? BottleRocketSim.curveY b (gp_maxH p)) = false)
         (data b) /\
  ((bestH b <? infinity) = true -> BottleRocketSim.curveY b (bestH b) = 30).
Proof.
  intros Hruns (_ & Hle & _) Hpos. split.
  - rewrite Forall_forall in *. intros p Hp.
    destruct (Hruns p Hp) as (res & Hres & Hh).
    destruct (maxH_not_negative Math_pow dragCoefficient pressurePSI (ratio p))
      as (res' & Hres' & H0 & _).
    assert (res' = res) as -> by congruence.
    apply curveY_frame; auto.
    + rewrite Hh. now apply FloatOrder.leb_not_ltb.
    + apply FloatOrder.leb_not_ltb. now apply Hle.
  - intros Hfin. unfold BottleRocketSim.curveY.
    rewrite (div_self _ Hpos Hfin). reflexivity.
Qed.

(** X8.  The pair [findOptimal] returns is always a point of its curve:
    [bestRatio] is one of the ratios it evaluated, and running the
    simulation at [bestRatio] gives [bestH] as altitude maximum -- also when
    every altitude is zero and the default [0.33] is returned. *)
Theorem X8_best_pair_is_a_run :
  exists res,
    findOptimal Math_pow dragCoefficient pressurePSI = Some res /\
    In (bestRatio res) (map ratio (data res)) /\
    exists r, run (bestRatio res) = Some r /\ maxH r = bestH res.
Proof.
  exists (opt_best (sweep grid_size)).
  exact (conj (findOptimal_run Math_pow dragCoefficient pressurePSI)
              (best_pair_of_curve Math_pow dragCoefficient pressurePSI _
                 (proj1 (data_sweep Math_pow dragCoefficient pressurePSI grid_size))
                 (proj2 (data_sweep Math_pow dragCoefficient pressurePSI grid_size))
                 (best_inv_sweep Math_pow dragCoefficient pressurePSI grid_size))).
Qed.

Lemma curve_frame b :
  map ratio (data b) = map grid_point (seq 0 grid_size) ->
  Forall (fun p => exists res, run (ratio p) = Some res /\ gp_maxH p = maxH res) (data b) ->
  best_inv b ->
  increasing (map ratio (data b)) = true /\
  (r_first <=? bestRatio b) = true /\ (bestRatio b <=? r_last) = true /\
  increasing (map BottleRocketSim.curveX (map ratio (data b))) = true /\
  Forall (fun p => in_frame_x (BottleRocketSim.curveX (ratio p))) (data b) /\
  in_frame_x (BottleRocketSim.curveX (bestRatio b)) /\
  ((0 <? bestH b) = true ->
   Forall (fun p =>
             (BottleRocketSim.curveY b (gp_maxH p) <? 30) = false /\
             (160 <? BottleRocketSim.curveY b (gp_maxH p)) = false)
          (data b) /\
   ((bestH b <? infinity) = true -> BottleRocketSim.curveY b (bestH b) = 30)).
Proof.
  intros Hgrid Hruns Hinv.
  destruct (best_pair_of_curve Math_pow dragCoefficient pressurePSI b Hgrid Hruns Hinv)
    as [Hin _].
  destruct (ratios_of_curve b Hgrid Hin) as (H1 & H2 & H3 & H4 & H5 & H6).
  do 6 (split; [assumption|]).
  now apply curve_heights.
Qed.

(** X13.  The curve of the panel "altitude vs fill ratio": the ratios
    recorded and their abscissas strictly increase, the abscissas and that
    of the optimum marker lie inside the plot area, and [bestRatio] lies
    between the bounds [0.05] and [0.95] of the sweep.  When some ratio
    lifts the rocket, every ordinate lies between 30 and 160 (or is NaN),
    and for a finite [bestH] the point of the best altitude has ordinate 30,
    that of the optimum marker. *)
Theorem X13_curve_in_frame :
  exists res,
    findOptimal Math_pow dragCoefficient pressurePSI = Some res /\
    increasing (map ratio (data res)) = true /\
    (r_first <=? bestRatio res) = true /\ (bestRatio res <=? r_last) = true /\
    increasing (map BottleRocketSim.curveX (map ratio (data res))) = true /\
    Forall (fun p => in_frame_x (BottleRocketSim.curveX (ratio p))) (data res) /\
    in_frame_x (BottleRocketSim.curveX (bestRatio res)) /\
    ((0 <? bestH res) = true ->
     Forall (fun p =>
               (BottleRocketSim.curveY res (gp_maxH p) <? 30) = false /\
               (160 <? BottleRocketSim.curveY res (gp_maxH p)) = false)
            (data res) /\
     ((bestH res <? infinity) = true -> BottleRocketSim.curveY res (bestH res) = 30)).
Proof.
  exists (opt_best (sweep grid_size)).
  exact (conj (findOptimal_run Math_pow dragCoefficient pressurePSI)
              (curve_frame _
                 (proj1 (data_sweep Math_pow dragCoefficient pressurePSI grid_size))
                 (proj2 (data_sweep Math_pow dragCoefficient pressurePSI grid_size))
                 (best_inv_sweep Math_pow dragCoefficient pressurePSI grid_size))).
Qed.

(** X12.  When no ratio of the sweep lifts the rocket, [bestH] is [0] and
    the panel "altitude vs fill ratio" divides by it: the ordinate of every
    point of the curve is NaN, and the ordinate of the marker of a run with
    a positive altitude maximum is [-Infinity]. *)
Theorem X12_flat_curve_not_drawable (res : OptimizationResult)
    (Hres : findOptimal Math_pow dragCoefficient pressurePSI = Some res)
    (Hflat : (0 <? bestH res) = false) :
  bestH res = 0 /\
  Forall (fun p => BottleRocketSim.curveY res (gp_maxH p) = nan) (data res) /\
  forall h, (0 <? h) = true -> BottleRocketSim.curveY res h = neg_infinity.
Proof.
  exact (flat_curve_of _ res
           (eq_trans (eq_sym (findOptimal_run Math_pow dragCoefficient pressurePSI)) Hres)
           (best_inv_sweep Math_pow dragCoefficient pressurePSI grid_size) Hflat).
Qed.

End SweepPlot.

(** ** Inputs that are not numbers *)

Lemma mul_nan_l x : nan * x = nan.
Proof. apply FloatMore.nan_of_SF. rewrite mul_spec. reflexivity. Qed.

Lemma div_nan_l x : nan / x = nan.
Proof. apply FloatMore.nan_of_SF. rewrite div_spec. reflexivity. Qed.

Lemma div_nan_r x : x / nan = nan.
Proof.
  apply FloatMore.nan_of_SF. rewrite div_spec. change (Prim2SF nan) with S754_nan.
  destruct (Prim2SF x) as [[]|[]| |[] m e]; reflexivity.
Qed.

Lemma is_nan_eq x : is_nan x = true -> x = nan.
Proof. intros H. apply FloatMore.nan_of_SF. now apply FloatOrder.is_nan_SF. Qed.

Section NanInput.

Variable Math_pow : float -> float -> float.

(** With a drag that is NaN the velocity derivative is NaN in every regime. *)
Lemma ode_nan_drag t y p :
  drag_accel Math_pow y p = nan -> idx (rocketODEs Math_pow t y p) 0 = nan.
Proof.
  unfold drag_accel, rocketODEs. intros ->.
  destruct (idx y 3 <=? 0); [apply FloatMore.add_nan_r|].
  destruct (_ <=? 0); apply FloatMore.add_nan_r.
Qed.

Lemma ode_velocity t y p : idx (rocketODEs Math_pow t y p) 1 = idx y 0.
Proof.
  unfold rocketODEs. destruct (idx y 3 <=? 0); [reflexivity|].
  destruct (_ <=? 0); reflexivity.
Qed.

Lemma rk4Step_nan_altitude t y h p :
  length y = 4%nat -> drag_accel Math_pow y p = nan ->
  idx (rk4Step (rocketODEs Math_pow) t y h p) 1 = nan.
Proof.
  intros Hl Hd. unfold rk4Step. cbv zeta. rewrite idx_map_index by lia.
  rewrite (ode_velocity (t + h / 2)).
  rewrite idx_map_index by lia. rewrite (ode_nan_drag t y p Hd).
  now rewrite FloatMore.mul_nan_r, FloatMore.add_nan_r, FloatMore.mul_nan_r,
    FloatMore.add_nan_r, !FloatMore.add_nan_l, FloatMore.mul_nan_r, FloatMore.add_nan_r.
Qed.

Variables fillRatio dragCoefficient pressurePSI : float.

Local Abbreviation state := (stateAfter Math_pow fillRatio dragCoefficient pressurePSI).

Lemma initial_drag_nan :
  is_nan fillRatio = true \/ is_nan dragCoefficient = true ->
  drag_accel Math_pow (sim_y (state 0)) (params fillRatio dragCoefficient pressurePSI) = nan.
Proof.
  unfold drag_accel.
  change (sim_y (state 0)) with [0; 0; m_0 fillRatio; V_water_0 fillRatio].
  unfold idx. cbn [nth params C_d]. intros [H | H]; apply is_nan_eq in H; rewrite H.
  - unfold m_0, V_water_0.
    rewrite mul_nan_l, FloatMore.mul_nan_r, FloatMore.add_nan_r. apply div_nan_r.
  - now rewrite FloatMore.mul_nan_r, !mul_nan_l, div_nan_l.
Qed.

Lemma nan_altitude :
  is_nan fillRatio = true \/ is_nan dragCoefficient = true -> altitude (state 1) = nan.
Proof.
  intros Hnan. unfold altitude.
  rewrite (sim_y_state Math_pow fillRatio dragCoefficient pressurePSI).
  apply rk4Step_nan_altitude; [reflexivity | now apply initial_drag_nan].
Qed.

Lemma nan_simulate :
  is_nan fillRatio = true \/ is_nan dragCoefficient = true ->
  simulate Math_pow fillRatio dragCoefficient pressurePSI = Some (state 1).
Proof.
  intros Hnan. unfold simulate. change (sim_init fillRatio) with (state 0).
  apply (sim_loop_run Math_pow fillRatio dragCoefficient pressurePSI 1 sim_fuel 0).
  - intros j Hj. replace j with 0%nat by lia. reflexivity.
  - rewrite cond_altitude. cbn [Nat.add]. rewrite (nan_altitude Hnan).
    apply andb_false_r.
  - unfold sim_fuel. lia.
Qed.

Lemma nan_maxH :
  is_nan fillRatio = true \/ is_nan dragCoefficient = true ->
  maxH (sim_res (state 1)) = 0.
Proof.
  intros Hnan.
  rewrite (state_S Math_pow fillRatio dragCoefficient pressurePSI).
  rewrite (maxH_body Math_pow fillRatio dragCoefficient pressurePSI).
  rewrite <- (state_S Math_pow fillRatio dragCoefficient pressurePSI).
  rewrite (nan_altitude Hnan). reflexivity.
Qed.

Lemma nan_run :
  is_nan fillRatio = true \/ is_nan dragCoefficient = true ->
  exists r, runSimulation Math_pow fillRatio dragCoefficient pressurePSI = Some r /\
            maxH r = 0.
Proof.
  intros Hnan. exists (sim_res (state 1)).
  split; [unfold runSimulation; now rewrite (nan_simulate Hnan) | exact (nan_maxH Hnan)].
Qed.

(** X14.  A fill ratio or a drag coefficient that is NaN is not rejected:
    the drag of the initial state is NaN, the first step makes the altitude
    NaN, the loop ends after that one step, and the run reports an altitude
    maximum of [0] at time [0] and a trajectory of the initial sample
    alone. *)
Theorem X14_nan_input_flat_run
    (Hnan : is_nan fillRatio = true \/ is_nan dragCoefficient = true) :
  runSimulation Math_pow fillRatio dragCoefficient pressurePSI = Some (sim_res (state 1)) /\
  altitude (state 1) = nan /\
  maxH (sim_res (state 1)) = 0 /\ maxHTime (sim_res (state 1)) = 0 /\
  trajectory (sim_res (state 1)) = [first_sample].
Proof.
  pose proof (nan_altitude Hnan) as Hh.
  split; [unfold runSimulation; now rewrite (nan_simulate Hnan)|].
  split; [exact Hh|]. split; [exact (nan_maxH Hnan)|].
  rewrite (state_S Math_pow fillRatio dragCoefficient pressurePSI).
  rewrite (maxHTime_body Math_pow fillRatio dragCoefficient pressurePSI).
  rewrite (trajectory_body Math_pow fillRatio dragCoefficient pressurePSI).
  rewrite <- (state_S Math_pow fillRatio dragCoefficient pressurePSI), Hh.
  rewrite (sim_t_state Math_pow fillRatio dragCoefficient pressurePSI).
  split; reflexivity.
Qed.

End NanInput.

Section NanSweep.

Variable Math_pow : float -> float -> float.
Variables dragCoefficient pressurePSI : float.

Local Abbreviation sweep := (sweepAfter Math_pow dragCoefficient pressurePSI).
Local Abbreviation run r := (runSimulation Math_pow r dragCoefficient pressurePSI).

Lemma nan_curve b :
  is_nan dragCoefficient = true ->
  Forall (fun p => exists res, run (ratio p) = Some res /\ gp_maxH p = maxH res) (data b) ->
  best_inv b ->
  bestRatio b = bestRatio_default /\ bestH b = 0 /\
  Forall (fun p => gp_maxH p = 0) (data b).
Proof.
  intros Hnan Hruns Hinv.
  assert (Forall (fun p => gp_maxH p = 0) (data b)) as Hzero.
  { eapply Forall_impl; [|exact Hruns]. cbv beta. intros p (res & Hres & ->).
    destruct (nan_run Math_pow (ratio p) dragCoefficient pressurePSI (or_intror Hnan))
      as (r & Hr & H0).
    rewrite Hr in Hres. injection Hres as <-. exact H0. }
  destruct (zero_curve_default b Hinv) as [H1 H2].
  { eapply Forall_impl; [|exact Hzero]. cbv beta. intros p ->. reflexivity. }
  auto.
Qed.

(** X15.  With a drag coefficient that is NaN every run of the sweep
    reports the altitude [0], so [findOptimal] returns its default: the
    ratio [0.33] with the altitude [0], and a curve that is flat. *)
Theorem X15_nan_drag_default_optimum (Hnan : is_nan dragCoefficient = true) :
  exists res,
    findOptimal Math_pow dragCoefficient pressurePSI = Some res /\
    bestRatio res = bestRatio_default /\ bestH res = 0 /\
    Forall (fun p => gp_maxH p = 0) (data res).
Proof.
  exists (opt_best (sweep grid_size)).
  exact (conj (findOptimal_run Math_pow dragCoefficient pressurePSI)
              (nan_curve _ Hnan
                 (proj2 (data_sweep Math_pow dragCoefficient pressurePSI grid_size))
                 (best_inv_sweep Math_pow dragCoefficient pressurePSI grid_size))).
Qed.

End NanSweep.

(** ** The hypotheses of X6, X7, X12, X14 and X15 on concrete inputs

    Evaluated with the reference [Math.pow]: a rocket of 300 g that rises
    at 10 m/s with its water gone, the initial state of the default
    flight, a sweep at 0.1 psi, which lifts nothing, and a fill ratio and
    a drag coefficient that are NaN. *)

Lemma X6_witness :
  let y := [10; 5; 0.3; 0] in
  let p := params 0.33 0.4 60 in
  ((idx y 0 <? 0) = false -> (0 <? drag_accel pow_ref y p) = false) /\
  ((0 <? idx y 0) = false -> (drag_accel pow_ref y p <? 0) = false) /\
  ((idx y 3 <=? 0) = true ->
   idx (rocketODEs pow_ref 0 y p) 0 = - CONSTANTS.g + drag_accel pow_ref y p /\
   ((idx y 0 <? 0) = false -> (- CONSTANTS.g <? idx (rocketODEs pow_ref 0 y p) 0) = false) /\
   ((0 <? idx y 0) = false -> (idx (rocketODEs pow_ref 0 y p) 0 <? - CONSTANTS.g) = false)).
Proof.
  intros y p. apply (X6_drag_opposes_motion pow_ref 0 y p); reflexivity.
Defined.

Lemma X7_witness :
  let y := sim_y (sim_init 0.33) in
  let p := params 0.33 0.4 60 in
  idx (rocketODEs pow_ref 0 y p) 2 = CONSTANTS.rho_water * idx (rocketODEs pow_ref 0 y p) 3 /\
  ((idx (rocketODEs pow_ref 0 y p) 0 = - CONSTANTS.g + drag_accel pow_ref y p /\
    idx (rocketODEs pow_ref 0 y p) 3 = 0) \/
   (exists v_e,
      (v_e <? 0) = false /\
      (thrust_accel pow_ref y v_e <? 0) = false /\
      idx (rocketODEs pow_ref 0 y p) 0 =
        thrust_accel pow_ref y v_e - CONSTANTS.g + drag_accel pow_ref y p /\
      idx (rocketODEs pow_ref 0 y p) 3 = - A_nozzle pow_ref * v_e)).
Proof.
  intros y p. apply (X7_thrust_not_negative pow_ref 0 y p); reflexivity.
Defined.

Lemma X12_witness :
  exists res,
    findOptimal pow_ref 0.4 0.1 = Some res /\
    bestH res = 0 /\
    Forall (fun p => BottleRocketSim.curveY res (gp_maxH p) = nan) (data res) /\
    forall h, (0 <? h) = true -> BottleRocketSim.curveY res h = neg_infinity.
Proof.
  eexists. split; [vm_compute; reflexivity|].
  apply (X12_flat_curve_not_drawable pow_ref 0.4 0.1); vm_compute; reflexivity.
Defined.

Lemma X14_witness :
  runSimulation pow_ref nan 0.4 60 = Some (sim_res (stateAfter pow_ref nan 0.4 60 1)) /\
  altitude (stateAfter pow_ref nan 0.4 60 1) = nan /\
  maxH (sim_res (stateAfter pow_ref nan 0.4 60 1)) = 0 /\
  maxHTime (sim_res (stateAfter pow_ref nan 0.4 60 1)) = 0 /\
  trajectory (sim_res (stateAfter pow_ref nan 0.4 60 1)) = [first_sample].
Proof.
  apply (X14_nan_input_flat_run pow_ref nan 0.4 60). left. reflexivity.
Defined.

Lemma X15_witness :
  exists res,
    findOptimal pow_ref nan 60 = Some res /\
    bestRatio res = bestRatio_default /\ bestH res = 0 /\
    Forall (fun p => gp_maxH p = 0) (data res).
Proof.
  apply (X15_nan_drag_default_optimum pow_ref nan 60). reflexivity.
Defined.
